(** * adb-server: the concurrent device bridge (internal/adb/adb-client.go)

    A shallow embedding of the Go bridge over the goadb transport:
    state normalisation, device enumeration, the package-list parser,
    the cancellation race and the device-state watcher, followed by the
    properties of each.

    Go values are modelled as follows.
    - [string] is a byte string: Rocq's [string], one [ascii] per byte.
    - A Go result pair [(T, error)] is a Rocq pair [T * option error],
      [None] being the nil error; a nil slice is the empty list.
    - Calls into the transport thread an abstract transport world and
      append to a log of the calls made.
    - A [select] statement is resolved by a scheduler; goroutines are
      configurations of a transition system. *)

From Stdlib Require Import String Ascii List ZArith Lia Bool Arith.
Import ListNotations.
Open Scope string_scope.

(* ===================================================================== *)
(** * Errors *)
(* ===================================================================== *)

(** The error values that flow through the bridge.  [Canceled] and
    [DeadlineExceeded] are the two values a context's [Err()] returns once
    its [Done()] channel is closed; [ErrTooLong] is [bufio.ErrTooLong];
    [errorString] is the result of [errors.New]; [TransportError] stands
    for any error produced by the transport. *)
Inductive error : Type :=
| Canceled
| DeadlineExceeded
| ErrTooLong
| errorString (msg : string)
| TransportError (msg : string).

(** Why a context is done, and the value its [Err()] then returns. *)
Inductive ctxError : Type :=
| CtxCanceled
| CtxDeadlineExceeded.

Definition Err (reason : ctxError) : error :=
  match reason with
  | CtxCanceled => Canceled
  | CtxDeadlineExceeded => DeadlineExceeded
  end.

Definition is_context_error (e : error) : bool :=
  match e with
  | Canceled | DeadlineExceeded => true
  | _ => false
  end.

(* ===================================================================== *)
(** * types/models/adb.go *)
(* ===================================================================== *)

Module models.

(** [type DeviceState string] with its five constants. *)
Definition DeviceState := string.

Definition DeviceStateOffline : DeviceState := "offline".
Definition DeviceStateBooting : DeviceState := "booting".
Definition DeviceStateUnauthorized : DeviceState := "unauthorized".
Definition DeviceStateOnline : DeviceState := "online".
Definition DeviceStateUnknown : DeviceState := "unknown".

Record Device := {
  Serial : string;
  State : DeviceState;
  Model : string;
  Manufacturer : string;
  IsAuthorized : bool
}.

Record Package := {
  Name : string;
  ApkPath : string;
  IsSystem : bool
}.

Record ListPackageOptions := {
  IncludeSystem : bool;
  IncludeUninstalled : bool
}.

(** [Timestamp] is a [time.Time]; time is a reading of the clock. *)
Record DeviceStateChange := {
  ChangeSerial : string;
  OldState : DeviceState;
  NewState : DeviceState;
  Timestamp : Z
}.

End models.

(* ===================================================================== *)
(** * The transport boundary (goadb) *)
(* ===================================================================== *)

Module adb.

(** Modelled from the spec: the transport's raw device-state type and its
    constants, which the transport library declares ([DeviceState] is a
    small integer type there).  The bridge only relies on the four named
    constants being pairwise distinct; every other value of the type is
    an unrecognised state. *)
Definition DeviceState := Z.

Definition StateInvalid : DeviceState := 0%Z.
Definition StateUnauthorized : DeviceState := 1%Z.
Definition StateDisconnected : DeviceState := 2%Z.
Definition StateOffline : DeviceState := 3%Z.
Definition StateOnline : DeviceState := 4%Z.

(** An entry of [ListDevices]: the fields the bridge reads. *)
Record DeviceInfo := {
  Serial : string;
  Model : string
}.

(** An event of the device watcher's channel. *)
Record DeviceStateChangedEvent := {
  EventSerial : string;
  OldState : DeviceState;
  NewState : DeviceState
}.

(** A pointer to [adb.Device]: a handle is the descriptor it was built
    from. *)
Record Device := { descriptor : string }.

(** [adb.DeviceWithSerial] followed by the [Device] method of the
    client: builds a handle, without talking to the server. *)
Definition DeviceWithSerial (serial : string) : Device :=
  {| descriptor := serial |}.

(** The blocking calls of the transport.  Each takes the transport world
    and returns its Go result pair with the world after the call. *)
Record Adb (W : Type) := {
  ServerVersion : W -> (Z * option error) * W;
  ListDevices : W -> (list DeviceInfo * option error) * W;
  State : Device -> W -> (DeviceState * option error) * W;
  RunCommand : Device -> string -> list string -> W -> (string * option error) * W
}.

Arguments ServerVersion {W}.
Arguments ListDevices {W}.
Arguments State {W}.
Arguments RunCommand {W}.

End adb.

(* ===================================================================== *)
(** * State normaliser *)
(* ===================================================================== *)

(** [convertState]: the [switch] compares against the three constants in
    order and falls to [default]. *)
Definition convertState (state : adb.DeviceState) : models.DeviceState :=
  if (state =? adb.StateOnline)%Z then models.DeviceStateOnline
  else if (state =? adb.StateOffline)%Z then models.DeviceStateOffline
  else if (state =? adb.StateUnauthorized)%Z then models.DeviceStateUnauthorized
  else models.DeviceStateUnknown.

(** The recognised raw states and the canonical states they map onto. *)
Definition recognized (state : adb.DeviceState) : Prop :=
  state = adb.StateOnline \/ state = adb.StateOffline \/
  state = adb.StateUnauthorized.

Definition canonical_known (s : models.DeviceState) : Prop :=
  s = models.DeviceStateOnline \/ s = models.DeviceStateOffline \/
  s = models.DeviceStateUnauthorized.

(* ===================================================================== *)
(** * Go's [strings] package, as far as the bridge uses it *)
(* ===================================================================== *)

Module strings.

(** [len(s)], a Go [int]. *)
Definition len (s : string) : Z := Z.of_nat (String.length s).

Fixpoint take (n : nat) (s : string) : string :=
  match n, s with
  | S n', String c s' => String c (take n' s')
  | _, _ => EmptyString
  end.

Fixpoint drop (n : nat) (s : string) : string :=
  match n, s with
  | S n', String _ s' => drop n' s'
  | _, _ => s
  end.

(** The slice expressions [s[:hi]] and [s[lo:]].  Go panics when the index
    is outside [0, len(s)]; both uses in the bridge are in range
    (see [LastIndex_range]). *)
Definition slice_to (s : string) (hi : Z) : string := take (Z.to_nat hi) s.
Definition slice_from (s : string) (lo : Z) : string := drop (Z.to_nat lo) s.

Definition HasPrefix (s pre : string) : bool := String.prefix pre s.

Definition TrimPrefix (s pre : string) : string :=
  if HasPrefix s pre then drop (String.length pre) s else s.

(** [LastIndex(s, sep)]: the byte index of the last occurrence of [sep] in
    [s], or -1. *)
Fixpoint LastIndex_from (s sep : string) (i : Z) : Z :=
  match s with
  | EmptyString => if String.prefix sep EmptyString then i else (-1)%Z
  | String _ s' =>
      let r := LastIndex_from s' sep (i + 1) in
      if (0 <=? r)%Z then r
      else if String.prefix sep s then i else (-1)%Z
  end.

Definition LastIndex (s sep : string) : Z := LastIndex_from s sep 0.

(** [Contains(s, substr)]. *)
Fixpoint Contains (s substr : string) : bool :=
  String.prefix substr s ||
  match s with
  | EmptyString => false
  | String _ s' => Contains s' substr
  end.

(** The six ASCII white-space bytes: tab, line feed, vertical tab, form
    feed, carriage return, space. *)
Definition asciiSpace (c : ascii) : bool :=
  let n := nat_of_ascii c in
  (((9 <=? n) && (n <=? 13)) || (n =? 32))%nat.

(** UTF-8 encodings of the white-space code points above U+007F
    ([unicode.IsSpace]): U+0085 and U+00A0 take two bytes; U+1680,
    U+2000 to U+200A, U+2028, U+2029, U+202F, U+205F and U+3000 take
    three. *)
Definition space2 (b1 b2 : ascii) : bool :=
  ((nat_of_ascii b1 =? 194) &&
   ((nat_of_ascii b2 =? 133) || (nat_of_ascii b2 =? 160)))%nat.

Definition space3 (b1 b2 b3 : ascii) : bool :=
  let n1 := nat_of_ascii b1 in
  let n2 := nat_of_ascii b2 in
  let n3 := nat_of_ascii b3 in
  (((n1 =? 225) && (n2 =? 154) && (n3 =? 128)) ||
   ((n1 =? 226) && (n2 =? 128) &&
      (((128 <=? n3) && (n3 <=? 138)) ||
       (n3 =? 168) || (n3 =? 169) || (n3 =? 175))) ||
   ((n1 =? 226) && (n2 =? 129) && (n3 =? 159)) ||
   ((n1 =? 227) && (n2 =? 128) && (n3 =? 128)))%nat.

(** [TrimLeftFunc(s, unicode.IsSpace)]: drop white-space runes from the
    front.  A byte sequence that is not the encoding of a white-space
    rune (malformed UTF-8 included) stops the scan. *)
Fixpoint TrimLeftSpace (s : string) : string :=
  match s with
  | EmptyString => EmptyString
  | String b1 r1 =>
      if asciiSpace b1 then TrimLeftSpace r1
      else
        match r1 with
        | String b2 r2 =>
            if space2 b1 b2 then TrimLeftSpace r2
            else
              match r2 with
              | String b3 r3 =>
                  if space3 b1 b2 b3 then TrimLeftSpace r3 else s
              | EmptyString => s
              end
        | EmptyString => s
        end
  end.

(** The same scan over the reversed bytes: [l] holds the string back to
    front, so the last byte comes first. *)
Fixpoint trimRevSpace (l : list ascii) : list ascii :=
  match l with
  | [] => []
  | b1 :: r1 =>
      if asciiSpace b1 then trimRevSpace r1
      else
        match r1 with
        | b2 :: r2 =>
            if space2 b2 b1 then trimRevSpace r2
            else
              match r2 with
              | b3 :: r3 =>
                  if space3 b3 b2 b1 then trimRevSpace r3 else l
              | [] => l
              end
        | [] => l
        end
  end.

(** [TrimRightFunc(s, unicode.IsSpace)]. *)
Definition TrimRightSpace (s : string) : string :=
  string_of_list_ascii
    (rev' (trimRevSpace (rev' (list_ascii_of_string s)))).

(** [TrimSpace(s)]: leading, then trailing white space removed. *)
Definition TrimSpace (s : string) : string :=
  TrimRightSpace (TrimLeftSpace s).

End strings.

(* ===================================================================== *)
(** * Go's [bufio.Scanner] over a string, with the default line splitter *)
(* ===================================================================== *)

Module bufio.

(** [MaxScanTokenSize]: the scanner's buffer holds at most this many
    bytes. *)
Definition MaxScanTokenSize : Z := (64 * 1024)%Z.

Definition newline : ascii := ascii_of_nat 10.
Definition carriage_return : ascii := ascii_of_nat 13.

(** The pieces of the input between line feeds; the last piece is what
    follows the last line feed. *)
Fixpoint pieces (input : string) : list string :=
  match input with
  | EmptyString => [EmptyString]
  | String c rest =>
      if Ascii.eqb c newline then EmptyString :: pieces rest
      else
        match pieces rest with
        | l :: ls => String c l :: ls
        | [] => [String c EmptyString]
        end
  end.

(** [dropCR]: a line loses one trailing carriage return. *)
Fixpoint dropCR (data : string) : string :=
  match data with
  | EmptyString => EmptyString
  | String c EmptyString =>
      if Ascii.eqb c carriage_return then EmptyString else data
  | String c rest => String c (dropCR rest)
  end.

(** What the scanner yields for a list of pieces: each piece is a token
    (after [dropCR]), except that an empty last piece is the end of the
    input and yields none.  A piece that does not fit the buffer, that is
    one of [MaxScanTokenSize] bytes or more, stops the scanner with
    [ErrTooLong]; the tokens before it have been yielded. *)
Fixpoint tokens (ps : list string) : list string * option error :=
  match ps with
  | [] => ([], None)
  | p :: rest =>
      if (MaxScanTokenSize <=? strings.len p)%Z then ([], Some ErrTooLong)
      else
        match rest, p with
        | [], EmptyString => ([], None)
        | _, _ =>
            let '(ts, err) := tokens rest in (dropCR p :: ts, err)
        end
  end.

(** The lines of a text: its pieces without their carriage return, an
    empty last piece left out. *)
Fixpoint texts (ps : list string) : list string :=
  match ps with
  | [] => []
  | p :: rest =>
      match rest, p with
      | [], EmptyString => []
      | _, _ => dropCR p :: texts rest
      end
  end.

Definition lines (input : string) : list string := texts (pieces input).

(** A piece, that is a line with its carriage return when it ends in
    one, fits the scanner's buffer. *)
Definition fits (p : string) : Prop :=
  (strings.len p < MaxScanTokenSize)%Z.

(** [scan input]: the successive values of [scanner.Text()] for which
    [scanner.Scan()] returned true, and the final [scanner.Err()]. *)
Definition scan (input : string) : list string * option error :=
  tokens (pieces input).

End bufio.

(* ===================================================================== *)
(** * Package list parser *)
(* ===================================================================== *)

(** The body of the scanning loop of [packages] for one [scanner.Text()]:
    [None] is [continue], [Some p] is the package appended. *)
Definition parseLine (text : string) : option models.Package :=
  let line := strings.TrimSpace text in
  let indexOfEqual := strings.LastIndex line "=" in
  if String.eqb line "" || negb (strings.HasPrefix line "package:")
     || (indexOfEqual =? -1)%Z
  then None
  else
    let pkgPath :=
      strings.TrimPrefix (strings.slice_to line indexOfEqual) "package:" in
    let pkgName :=
      strings.TrimSpace (strings.slice_from line (indexOfEqual + 1)) in
    Some {| models.Name := pkgName;
            models.ApkPath := pkgPath;
            models.IsSystem := strings.Contains pkgPath "/system/" |}.

(** What one line adds to the result. *)
Definition contribution (text : string) : list models.Package :=
  match parseLine text with
  | Some p => [p]
  | None => []
  end.

(** The scanning loop: [packages] grows by [append]. *)
Definition scanLoop (texts : list string) : list models.Package :=
  fold_left
    (fun packages text =>
       match parseLine text with
       | None => packages
       | Some p => (packages ++ [p])%list
       end)
    texts [].

(** [packages] from the scanner onwards: the loop, then the check of
    [scanner.Err()], which discards what the loop collected. *)
Definition parsePackages (out : string) : list models.Package * option error :=
  let '(texts, scanErr) := bufio.scan out in
  let packages := scanLoop texts in
  match scanErr with
  | Some err => ([], Some err)
  | None => (packages, None)
  end.

(* ===================================================================== *)
(** * Calls into the transport *)
(* ===================================================================== *)

(** The transport calls a bridge operation can make, as they are logged. *)
Inductive Call : Type :=
| CallServerVersion
| CallListDevices
| CallState (device : adb.Device)
| CallRunCommand (device : adb.Device) (cmd : string) (args : list string).

(** A computation that calls the transport: it threads the transport world
    and the log of calls made so far. *)
Definition M (W A : Type) : Type := W * list Call -> A * (W * list Call).

Definition ret {W A : Type} (a : A) : M W A := fun st => (a, st).

Definition bind {W A B : Type} (m : M W A) (k : A -> M W B) : M W B :=
  fun st => let '(a, st') := m st in k a st'.

Declare Scope transport_scope.
Delimit Scope transport_scope with transport.

Notation "x <- m ;; k" := (bind m (fun x => k))
  (at level 61, m at next level, right associativity) : transport_scope.
Notation "' pat <- m ;; k" := (bind m (fun x => match x with pat => k end))
  (at level 61, pat pattern, m at next level, right associativity)
  : transport_scope.

(** One transport call: run it on the world and log it. *)
Definition perform {W A : Type} (c : Call) (f : W -> A * W) : M W A :=
  fun '(w, log) => let '(a, w') := f w in (a, (w', (log ++ [c])%list)).

Local Open Scope transport_scope.

(* ===================================================================== *)
(** * The client: blocking operations *)
(* ===================================================================== *)

Section GoADBClient.

Context {W : Type}.

(** The [adb] field of [GoADBClient]. *)
Variable client : adb.Adb W.

Definition getDevice (serial : string) : adb.Device :=
  adb.DeviceWithSerial serial.

(** [device == nil]: [getDevice] returns the address of a freshly built
    handle, which is never nil. *)
Definition isNil (device : adb.Device) : bool := false.

Definition getDeviceManufacturer (device : adb.Device)
  : M W (string * option error) :=
  '(manufacturer, err) <-
    perform (CallRunCommand device "getprop" ["ro.product.manufacturer"])
            (adb.RunCommand client device "getprop"
               ["ro.product.manufacturer"]) ;;
  match err with
  | Some e => ret ("", Some e)
  | None => ret (strings.TrimSpace manufacturer, None)
  end.

(** The body of the loop of [devices] for one entry of the list. *)
Definition deviceOf (deviceInfo : adb.DeviceInfo) : M W models.Device :=
  let device := getDevice (adb.Serial deviceInfo) in
  '(deviceState, stateErr) <-
    perform (CallState device) (adb.State client device) ;;
  '(deviceState, deviceManufacturer) <-
    match stateErr with
    | Some _ => ret (adb.StateInvalid, "")
    | None =>
        '(manufacturer, _) <- getDeviceManufacturer device ;;
        ret (deviceState, manufacturer)
    end ;;
  let deviceManufacturer :=
    if String.eqb deviceManufacturer "" then "Unknown"
    else deviceManufacturer in
  let standardizedState := convertState deviceState in
  ret {| models.Serial := adb.Serial deviceInfo;
         models.State := standardizedState;
         models.Model := adb.Model deviceInfo;
         models.Manufacturer := deviceManufacturer;
         models.IsAuthorized :=
           String.eqb standardizedState models.DeviceStateOnline |}.

(** The [range] loop of [devices]: [devicesList] grows by [append]. *)
Fixpoint devicesLoop (devices : list adb.DeviceInfo)
         (devicesList : list models.Device) : M W (list models.Device) :=
  match devices with
  | [] => ret devicesList
  | deviceInfo :: rest =>
      d <- deviceOf deviceInfo ;;
      devicesLoop rest (devicesList ++ [d])%list
  end.

Definition devices : M W (list models.Device * option error) :=
  '(devices, err) <- perform CallListDevices (adb.ListDevices client) ;;
  match err with
  | Some e => ret ([], Some e)
  | None =>
      devicesList <- devicesLoop devices [] ;;
      ret (devicesList, None)
  end.

Definition packages (deviceId : string) (opts : models.ListPackageOptions)
  : M W (list models.Package * option error) :=
  let device := getDevice deviceId in
  if isNil device then ret ([], Some (errorString "device not found"))
  else
    let args := ["-f"] in
    let args :=
      if models.IncludeUninstalled opts then (args ++ ["-u"])%list
      else args in
    let args :=
      if models.IncludeSystem opts then (args ++ ["-s"])%list
      else (args ++ ["-3"])%list in
    '(out, err) <-
      perform (CallRunCommand device "pm list packages" args)
              (adb.RunCommand client device "pm list packages" args) ;;
    match err with
    | Some e => ret ([], Some e)
    | None => ret (parsePackages out)
    end.

(** The call that [Version] wraps. *)
Definition serverVersion : M W (Z * option error) :=
  perform CallServerVersion (adb.ServerVersion client).

End GoADBClient.

(* ===================================================================== *)
(** * The cancellation race of [Version], [Devices] and [Packages] *)
(* ===================================================================== *)

(** Each public operation starts a goroutine that makes the blocking call
    and then sends its result on an unbuffered channel, while the caller
    sits in

      select { case <-ctx.Done(): ...  case result := <-ch: ... }

    The configurations below are those of the two goroutines and of the
    context; a schedule is the order in which things happen. *)
Section Race.

Context {W A : Type}.

(** The wrapped blocking call, and the zero value returned with
    [ctx.Err()]. *)
Variable call : M W (A * option error).
Variable zero : A.

(** The goroutine: still inside the call; blocked on [ch <- result]; or
    past the send. *)
Inductive worker : Type :=
| Running
| Sending (result : A * option error)
| Exited.

(** The caller: its [select] not yet resolved (it is about to run it, or
    it is blocked in it), or returned. *)
Inductive caller : Type :=
| Waiting
| Returned (result : A * option error).

Record config : Type := {
  world : W * list Call;
  ctxErr : option ctxError;   (* [Some e]: [ctx.Done()] is closed *)
  theWorker : worker;
  theCaller : caller
}.

Inductive event : Type :=
| Cancel (e : ctxError)   (* the context is cancelled or its deadline passes *)
| Complete             (* the blocking call returns *)
| SelectDone           (* the select takes [<-ctx.Done()] *)
| SelectResult.        (* the select takes [<-ch] *)

(** One step; [None] when the event cannot happen in the configuration.
    A [select] case can be taken only when its channel is ready, and when
    both are ready either may be taken. *)
Definition step (c : config) (ev : event) : option config :=
  match ev with
  | Cancel e =>
      match ctxErr c with
      | None =>
          Some {| world := world c; ctxErr := Some e;
                  theWorker := theWorker c; theCaller := theCaller c |}
      | Some _ => None
      end
  | Complete =>
      match theWorker c with
      | Running =>
          let '(result, st) := call (world c) in
          Some {| world := st; ctxErr := ctxErr c;
                  theWorker := Sending result; theCaller := theCaller c |}
      | _ => None
      end
  | SelectDone =>
      match theCaller c, ctxErr c with
      | Waiting, Some e =>
          Some {| world := world c; ctxErr := ctxErr c;
                  theWorker := theWorker c;
                  theCaller := Returned (zero, Some (Err e)) |}
      | _, _ => None
      end
  | SelectResult =>
      match theCaller c, theWorker c with
      | Waiting, Sending result =>
          Some {| world := world c; ctxErr := ctxErr c;
                  theWorker := Exited; theCaller := Returned result |}
      | _, _ => None
      end
  end.

Fixpoint run (c : config) (schedule : list event) : option config :=
  match schedule with
  | [] => Some c
  | ev :: rest =>
      match step c ev with
      | Some c' => run c' rest
      | None => None
      end
  end.

(** The operation is called with a context that is live ([None]) or
    already done ([Some e]). *)
Definition start (ctx : option ctxError) (w : W) : config :=
  {| world := (w, []); ctxErr := ctx;
     theWorker := Running; theCaller := Waiting |}.

(** What the operation has returned after a schedule, if it has. *)
Definition returned (ctx : option ctxError) (w : W) (schedule : list event)
  : option (A * option error) :=
  match run (start ctx w) schedule with
  | Some c =>
      match theCaller c with
      | Returned result => Some result
      | Waiting => None
      end
  | None => None
  end.

End Race.

Arguments Running {A}.
Arguments Sending {A}.
Arguments Exited {A}.
Arguments Waiting {A}.
Arguments Returned {A}.
Arguments world {W A}.
Arguments ctxErr {W A}.
Arguments theWorker {W A}.
Arguments theCaller {W A}.

Section PublicOperations.

Context {W : Type}.
Variable client : adb.Adb W.

(** The three public operations: each races its blocking call against
    the context and returns the call's result, or the zero value ([0], a
    nil slice) with [ctx.Err()]. *)
Definition Version := returned (serverVersion client) 0%Z.

Definition Devices := returned (devices client) [].

Definition Packages (deviceId : string) (opts : models.ListPackageOptions) :=
  returned (packages client deviceId opts) [].

End PublicOperations.

(* ===================================================================== *)
(** * The state watcher: the goroutine of [TrackDeviceStates] *)
(* ===================================================================== *)

(** Where the goroutine is: at the [select] of the loop, at the inner
    [select] that delivers a change, or returned. *)
Inductive watcherPc : Type :=
| AtSelect
| AtDelivery (stateChange : models.DeviceStateChange)
| Done.

(** The goroutine with what the consumer of [stateChannel] has seen of it:
    the changes received, in order, and how many times the channel was
    closed. *)
Record watcher : Type := {
  pc : watcherPc;
  emitted : list models.DeviceStateChange;
  closes : nat
}.

(** What a [select] of the goroutine resolves to. *)
Inductive observation : Type :=
| ObsDone                          (* [<-ctx.Done()], in either select *)
| ObsEvent (ev : adb.DeviceStateChangedEvent) (now : Z)
                                   (* [<-goAdbChannel] with [ok]; [now] is
                                      the value of [time.Now()] when the
                                      change is built *)
| ObsUpstreamClosed                (* [<-goAdbChannel] with [ok] false *)
| ObsDelivered.                    (* [stateChannel <- stateChange] *)

Definition stateChangeOf (deviceSerial : string)
           (ev : adb.DeviceStateChangedEvent) (now : Z)
  : models.DeviceStateChange :=
  {| models.ChangeSerial := deviceSerial;
     models.OldState := convertState (adb.OldState ev);
     models.NewState := convertState (adb.NewState ev);
     models.Timestamp := now |}.

(** [return] runs the deferred [close(stateChannel)]. *)
Definition watcherReturn (s : watcher) : watcher :=
  {| pc := Done; emitted := emitted s; closes := S (closes s) |}.

Definition watcherStep (deviceSerial : string) (s : watcher) (o : observation)
  : option watcher :=
  match pc s, o with
  | AtSelect, ObsDone => Some (watcherReturn s)
  | AtSelect, ObsUpstreamClosed => Some (watcherReturn s)
  | AtSelect, ObsEvent ev now =>
      if String.eqb (adb.EventSerial ev) deviceSerial then
        Some {| pc := AtDelivery (stateChangeOf deviceSerial ev now);
                emitted := emitted s; closes := closes s |}
      else Some s
  | AtDelivery stateChange, ObsDelivered =>
      Some {| pc := AtSelect;
              emitted := (emitted s ++ [stateChange])%list;
              closes := closes s |}
  | AtDelivery _, ObsDone => Some (watcherReturn s)
  | _, _ => None
  end.

Fixpoint watcherRun (deviceSerial : string) (s : watcher)
         (trace : list observation) : option watcher :=
  match trace with
  | [] => Some s
  | o :: rest =>
      match watcherStep deviceSerial s o with
      | Some s' => watcherRun deviceSerial s' rest
      | None => None
      end
  end.

(** [TrackDeviceStates] returns the channel at once; the goroutine starts
    at its [select] with nothing emitted. *)
Definition TrackDeviceStates (deviceSerial : string)
           (trace : list observation) : option watcher :=
  watcherRun deviceSerial
             {| pc := AtSelect; emitted := []; closes := 0 |} trace.

(** The observations of a watcher whose context is never cancelled, whose
    consumer takes every change, and whose upstream delivers [events]
    (each with the clock reading at its arrival) and is then closed. *)
Definition uncancelledTrace (deviceSerial : string)
           (events : list (adb.DeviceStateChangedEvent * Z))
  : list observation :=
  (flat_map
     (fun '(ev, now) =>
        if String.eqb (adb.EventSerial ev) deviceSerial
        then [ObsEvent ev now; ObsDelivered]
        else [ObsEvent ev now])
     events ++ [ObsUpstreamClosed])%list.

(** A timed trace gives, with each observation, the reading of the
    clock at which it happens.  [deliveries] are the changes the consumer
    has received along a timed trace, each with the reading at which it
    was delivered. *)
Fixpoint deliveries (deviceSerial : string) (s : watcher)
         (timed : list (observation * Z))
  : list (models.DeviceStateChange * Z) :=
  match timed with
  | [] => []
  | (o, t) :: rest =>
      match watcherStep deviceSerial s o with
      | None => []
      | Some s' =>
          match pc s, o with
          | AtDelivery stateChange, ObsDelivered =>
              (stateChange, t) :: deliveries deviceSerial s' rest
          | _, _ => deliveries deviceSerial s' rest
          end
      end
  end.

Definition deliveredAt (deviceSerial : string)
           (timed : list (observation * Z))
  : list (models.DeviceStateChange * Z) :=
  deliveries deviceSerial {| pc := AtSelect; emitted := []; closes := 0 |}
             timed.

(** The clock does not go back: from the reading [clock] on, no
    observation happens at an earlier reading than the one before it,
    and the reading with which a change is built is taken after its event
    was received. *)
Fixpoint chronological (deviceSerial : string) (clock : Z)
         (timed : list (observation * Z)) : bool :=
  match timed with
  | [] => true
  | (o, t) :: rest =>
      (clock <=? t)%Z &&
      match o with
      | ObsEvent ev now =>
          if String.eqb (adb.EventSerial ev) deviceSerial
          then (t <=? now)%Z && chronological deviceSerial now rest
          else chronological deviceSerial t rest
      | _ => chronological deviceSerial t rest
      end
  end.

(** The upstream events of a trace that carry the watched serial. *)
Fixpoint matching (deviceSerial : string) (trace : list observation)
  : list (adb.DeviceStateChangedEvent * Z) :=
  match trace with
  | [] => []
  | ObsEvent ev now :: rest =>
      if String.eqb (adb.EventSerial ev) deviceSerial
      then (ev, now) :: matching deviceSerial rest
      else matching deviceSerial rest
  | _ :: rest => matching deviceSerial rest
  end.

(* ===================================================================== *)
(** * Specifications the code is compared with *)
(* ===================================================================== *)

(** ** Device registry, in the words of the specification *)

Definition manufacturerProperty : list string := ["ro.product.manufacturer"].

(** The record of a device whose state query failed. *)
Definition degraded (info : adb.DeviceInfo) : models.Device :=
  {| models.Serial := adb.Serial info;
     models.State := models.DeviceStateUnknown;
     models.Model := adb.Model info;
     models.Manufacturer := "Unknown";
     models.IsAuthorized := false |}.

(** The manufacturer reported for an answer of the property read: the
    default when the read failed or the property is empty. *)
Definition manufacturerOr (answer : string * option error) : string :=
  match answer with
  | (_, Some _) => "Unknown"
  | (value, None) =>
      if String.eqb (strings.TrimSpace value) "" then "Unknown"
      else strings.TrimSpace value
  end.

(** The record of a device whose state query answered [state] and whose
    manufacturer read answered [answer]. *)
Definition enriched (info : adb.DeviceInfo) (state : adb.DeviceState)
           (answer : string * option error) : models.Device :=
  {| models.Serial := adb.Serial info;
     models.State := convertState state;
     models.Model := adb.Model info;
     models.Manufacturer := manufacturerOr answer;
     models.IsAuthorized :=
       String.eqb (convertState state) models.DeviceStateOnline |}.

(** [Enumerates client w infos ds calls w']: starting in world [w], the
    entries [infos] are turned, one by one and in order, into the records
    [ds] by the transport calls [calls], ending in world [w'].  The
    queries of an entry go to the device of that entry, the handle
    [DeviceWithSerial] of its serial.  An entry whose state query fails
    costs one call and gives the degraded record; one whose state query
    succeeds costs the state query and the manufacturer read. *)
Inductive Enumerates {W : Type} (client : adb.Adb W)
  : W -> list adb.DeviceInfo -> list models.Device -> list Call -> W -> Prop :=
| EnumDone (w : W) : Enumerates client w [] [] [] w
| EnumDegraded (w w1 w2 : W) (info : adb.DeviceInfo) (rest : list adb.DeviceInfo)
               (state : adb.DeviceState) (e : error)
               (ds : list models.Device) (calls : list Call) :
    adb.State client (adb.DeviceWithSerial (adb.Serial info)) w
      = ((state, Some e), w1) ->
    Enumerates client w1 rest ds calls w2 ->
    Enumerates client w (info :: rest) (degraded info :: ds)
               (CallState (adb.DeviceWithSerial (adb.Serial info)) :: calls) w2
| EnumEnriched (w w1 w2 w3 : W) (info : adb.DeviceInfo)
               (rest : list adb.DeviceInfo) (state : adb.DeviceState)
               (answer : string * option error)
               (ds : list models.Device) (calls : list Call) :
    adb.State client (adb.DeviceWithSerial (adb.Serial info)) w
      = ((state, None), w1) ->
    adb.RunCommand client (adb.DeviceWithSerial (adb.Serial info)) "getprop"
                   manufacturerProperty w1 = (answer, w2) ->
    Enumerates client w2 rest ds calls w3 ->
    Enumerates client w (info :: rest) (enriched info state answer :: ds)
               (CallState (adb.DeviceWithSerial (adb.Serial info))
                :: CallRunCommand (adb.DeviceWithSerial (adb.Serial info))
                                  "getprop" manufacturerProperty
                :: calls) w3.

(** The four values a normalised state can take. *)
Definition definedState (s : models.DeviceState) : Prop :=
  s = models.DeviceStateOnline \/ s = models.DeviceStateOffline \/
  s = models.DeviceStateUnauthorized \/ s = models.DeviceStateUnknown.


(** ** Package listing: the flags for a [ListPackageOptions] *)

Definition expectedArgs (opts : models.ListPackageOptions) : list string :=
  ("-f" :: (if models.IncludeUninstalled opts then ["-u"] else [])
   ++ [if models.IncludeSystem opts then "-s" else "-3"])%list.

(** ** The race of an operation [op] wrapping [call]

    In every configuration a schedule can reach in which the caller is
    still in its [select]:
    - only the context is done: the [select] can only take the done
      channel, and the caller returns the zero value and [ctx.Err()]
      while the call is still running;
    - only the call has returned: the [select] can only take the result,
      which the caller returns;
    - both: either may be taken;
    - neither: the [select] blocks;
    and what the goroutine sends is the result of the call. *)
Definition RaceContract {W A : Type} (call : M W (A * option error))
           (zero : A)
           (op : option ctxError -> W -> list event -> option (A * option error))
  : Prop :=
  forall (ctx : option ctxError) (w : W) (schedule : list event)
         (c : config (W := W) (A := A)),
    run call zero (start ctx w) schedule = Some c ->
    theCaller c = Waiting ->
    (forall e, ctxErr c = Some e -> theWorker c = Running ->
       op ctx w (schedule ++ [SelectDone])%list = Some (zero, Some (Err e)) /\
       op ctx w (schedule ++ [SelectResult])%list = None) /\
    (forall result, ctxErr c = None -> theWorker c = Sending result ->
       op ctx w (schedule ++ [SelectResult])%list = Some result /\
       op ctx w (schedule ++ [SelectDone])%list = None) /\
    (forall e result, ctxErr c = Some e -> theWorker c = Sending result ->
       op ctx w (schedule ++ [SelectDone])%list = Some (zero, Some (Err e)) /\
       op ctx w (schedule ++ [SelectResult])%list = Some result) /\
    (ctxErr c = None -> theWorker c = Running ->
       op ctx w (schedule ++ [SelectDone])%list = None /\
       op ctx w (schedule ++ [SelectResult])%list = None) /\
    (forall result, theWorker c = Sending result ->
       result = fst (call (w, []))).

(** What holds of every configuration reached from [start ctx w]: the
    goroutine makes the call once, on the world the operation was
    started in, and the caller has returned either [ctx.Err()] or what
    the goroutine sent. *)
Definition reachable_inv {W A : Type} (call : M W (A * option error))
         (zero : A) (w : W) (c : config (W := W) (A := A)) : Prop :=
  match theWorker c with
  | Running => world c = (w, [])
  | Sending result => result = fst (call (w, []))
  | Exited => theCaller c = Returned (fst (call (w, [])))
  end /\
  match theCaller c with
  | Waiting => True
  | Returned result =>
      (exists e, ctxErr c = Some e /\ result = (zero, Some (Err e))) \/
      result = fst (call (w, []))
  end.

(** ** The watcher's account of the events it received *)

(** The changes built from a list of upstream events with the clock
    readings taken for them. *)
Definition changesOf (deviceSerial : string)
           (events : list (adb.DeviceStateChangedEvent * Z))
  : list models.DeviceStateChange :=
  map (fun p => stateChangeOf deviceSerial (fst p) (snd p)) events.

(** What the watcher has emitted, against the matching events it has
    received: all of them in order, except that the last one may be
    awaiting delivery, or have been dropped by a cancellation that won
    the delivery race.  The stream has been closed once if the goroutine
    has returned and not at all otherwise. *)
Definition accounted (deviceSerial : string) (trace : list observation)
           (s : watcher) : Prop :=
  exists pending,
    changesOf deviceSerial (matching deviceSerial trace) =
      (emitted s ++ pending)%list /\
    match pc s with
    | AtSelect => pending = [] /\ closes s = 0
    | AtDelivery stateChange => pending = [stateChange] /\ closes s = 0
    | Done =>
        closes s = 1 /\
        exists before last,
          trace = (before ++ [last])%list /\
          ((pending = [] /\ (last = ObsDone \/ last = ObsUpstreamClosed)) \/
           (exists stateChange, pending = [stateChange] /\ last = ObsDone))
    end.

(* ===================================================================== *)
(** * Transports and inputs used in the examples *)
(* ===================================================================== *)

Module examples.

Definition lf : string := String bufio.newline EmptyString.

(** Three devices; the state query of the serials in [failing] fails.
    Every call leaves the world, a call counter, one higher. *)
Definition fleet (failing : list string) : adb.Adb nat :=
  {| adb.ServerVersion := fun w => ((41%Z, None), S w);
     adb.ListDevices := fun w =>
       (([ {| adb.Serial := "emulator-5554"; adb.Model := "Pixel_7" |};
           {| adb.Serial := "R58M123"; adb.Model := "SM_G960F" |};
           {| adb.Serial := "0a1b2c3d"; adb.Model := "Nexus_5" |} ],
         None), S w);
     adb.State := fun device w =>
       if existsb (String.eqb (adb.descriptor device)) failing
       then ((adb.StateInvalid, Some (TransportError "device offline")), S w)
       else ((adb.StateOnline, None), S w);
     adb.RunCommand := fun device cmd args w =>
       if String.eqb cmd "getprop" then (("Google" ++ lf, None), S w)
       else (("package:/data/app/com.acme.app-1/base.apk=com.acme.app" ++ lf
              ++ "package:/system/app/Settings/Settings.apk=com.android.settings"
              ++ lf, None), S w) |}.

(** A transport whose device list cannot be retrieved. *)
Definition unreachable : adb.Adb nat :=
  {| adb.ServerVersion := fun w => ((0%Z, Some (TransportError "no server")), S w);
     adb.ListDevices := fun w => (([], Some (TransportError "no server")), S w);
     adb.State := fun device w =>
       ((adb.StateInvalid, Some (TransportError "no server")), S w);
     adb.RunCommand := fun device cmd args w =>
       (("", Some (TransportError "no server")), S w) |}.

(** A listing of two lines: a package, then 65536 bytes without the
    [package:] prefix. *)
Definition longLine : string := N.iter 65536 (String "x"%char) EmptyString.

Definition goodLine : string := "package:/data/app/a/base.apk=com.a".

Definition listingWithLongLine : string := goodLine ++ lf ++ longLine.

(** A line of 65535 bytes ended by carriage return and line feed, then a
    package. *)
Definition crlfListing : string :=
  N.iter 65535 (String "x"%char) EmptyString
  ++ String bufio.carriage_return lf ++ goodLine.

Definition twoLines : string :=
  "package:/data/app/com.acme.app-1/base.apk=com.acme.app" ++ lf
  ++ "package:/system/app/Settings/Settings.apk=com.android.settings" ++ lf.

Definition eventFor (serial : string) (old new : adb.DeviceState)
  : adb.DeviceStateChangedEvent :=
  {| adb.EventSerial := serial; adb.OldState := old; adb.NewState := new |}.

End examples.

(* ===================================================================== *)
(** * Package listings as the device prints them *)
(* ===================================================================== *)

(** The line of [pm list packages -f] for a package, and the listing of a
    list of packages, one line each. *)
Definition renderLine (p : models.Package) : string :=
  "package:" ++ models.ApkPath p ++ "=" ++ models.Name p.

Fixpoint renderListing (ps : list models.Package) : string :=
  match ps with
  | [] => ""
  | p :: rest => renderLine p ++ String bufio.newline (renderListing rest)
  end.

(** A string without a line feed. *)
Definition singleLine (s : string) : Prop :=
  ~ In bufio.newline (list_ascii_of_string s).

(** A package name as the parser returns it: no [=], no surrounding white
    space, no line feed. *)
Definition wellFormedName (name : string) : Prop :=
  strings.Contains name "=" = false /\
  strings.TrimSpace name = name /\
  singleLine name.

(** A package that a listing can carry: a well-formed name, a path on one
    line, [IsSystem] as the path tells, and a line that fits the
    scanner. *)
Definition listable (p : models.Package) : Prop :=
  wellFormedName (models.Name p) /\
  singleLine (models.ApkPath p) /\
  models.IsSystem p = strings.Contains (models.ApkPath p) "/system/" /\
  bufio.fits (renderLine p).

(* ===================================================================== *)
(** * Records and schedules: what the code keeps *)
(* ===================================================================== *)

(** What holds of every record of an enumeration. *)
Definition consistentDevice (d : models.Device) : Prop :=
  models.Manufacturer d <> "" /\
  strings.TrimSpace (models.Manufacturer d) = models.Manufacturer d /\
  (models.IsAuthorized d = true <-> models.State d = models.DeviceStateOnline) /\
  definedState (models.State d).

(** What a schedule tells of the configuration it leads to: the blocking
    call has returned exactly when [Complete] is in the schedule, the
    goroutine has passed its send exactly when the caller took the
    result, and the caller has resolved its [select] at most once. *)
Definition accountsFor {W A : Type} (call : M W (A * option error)) (zero : A)
           (w : W) (schedule : list event) (c : config (W := W) (A := A))
  : Prop :=
  match theWorker c with
  | Running =>
      ~ In Complete schedule /\ ~ In SelectResult schedule /\
      world c = (w, [])
  | Sending result =>
      In Complete schedule /\ ~ In SelectResult schedule /\
      world c = snd (call (w, [])) /\ result = fst (call (w, []))
  | Exited =>
      In Complete schedule /\ In SelectResult schedule /\
      world c = snd (call (w, []))
  end /\
  match theCaller c with
  | Waiting => ~ In SelectDone schedule /\ ~ In SelectResult schedule
  | Returned result =>
      (In SelectDone schedule /\ ~ In SelectResult schedule /\
       exists reason, ctxErr c = Some reason /\
                      result = (zero, Some (Err reason))) \/
      (In SelectResult schedule /\ ~ In SelectDone schedule /\
       result = fst (call (w, [])))
  end.

(* ===================================================================== *)
(** * Earlier revisions of the bridge *)
(* ===================================================================== *)

(** The first revision.  [Version] and [Devices] take a context and do
    not look at it; [Devices] stops at the first state query that fails
    and fills in the serial and the state only.  [ConvertState] is
    [convertState] under its exported name. *)
Module first.

Section GoADBClient.

Context {W : Type}.
Variable client : adb.Adb W.

Definition Version (ctx : option ctxError) : M W (Z * option error) :=
  perform CallServerVersion (adb.ServerVersion client).

Definition recordOf (deviceInfo : adb.DeviceInfo)
           (deviceState : adb.DeviceState) : models.Device :=
  {| models.Serial := adb.Serial deviceInfo;
     models.State := convertState deviceState;
     models.Model := "";
     models.Manufacturer := "";
     models.IsAuthorized := false |}.

Fixpoint devicesLoop (devices : list adb.DeviceInfo)
         (out : list models.Device)
  : M W (list models.Device * option error) :=
  match devices with
  | [] => ret (out, None)
  | deviceInfo :: rest =>
      let device := adb.DeviceWithSerial (adb.Serial deviceInfo) in
      '(deviceState, err) <-
        perform (CallState device) (adb.State client device) ;;
      match err with
      | Some e => ret ([], Some e)
      | None =>
          devicesLoop rest (out ++ [recordOf deviceInfo deviceState])%list
      end
  end.

Definition Devices (ctx : option ctxError)
  : M W (list models.Device * option error) :=
  '(devices, err) <- perform CallListDevices (adb.ListDevices client) ;;
  match err with
  | Some e => ret ([], Some e)
  | None => devicesLoop devices []
  end.

End GoADBClient.

End first.

(** The second revision.  [Devices] reads the manufacturer of every
    device, also of one whose state query failed, and keeps an empty
    answer; [TrackDeviceStates] ranges over the upstream channel and
    sends without looking at the context.  [GetDeviceManufacturer] is
    [getDeviceManufacturer] as a function of the device alone. *)
Module second.

Section GoADBClient.

Context {W : Type}.
Variable client : adb.Adb W.

Definition Version (ctx : option ctxError) : M W (Z * option error) :=
  perform CallServerVersion (adb.ServerVersion client).

Definition GetDeviceManufacturer (device : adb.Device)
  : M W (string * option error) :=
  '(manufacturer, err) <-
    perform (CallRunCommand device "getprop" ["ro.product.manufacturer"])
            (adb.RunCommand client device "getprop"
               ["ro.product.manufacturer"]) ;;
  match err with
  | Some e => ret ("", Some e)
  | None => ret (strings.TrimSpace manufacturer, None)
  end.

Definition deviceOf (deviceInfo : adb.DeviceInfo) : M W models.Device :=
  let device := adb.DeviceWithSerial (adb.Serial deviceInfo) in
  '(deviceState, stateErr) <-
    perform (CallState device) (adb.State client device) ;;
  '(deviceManufacturer, manufacturerErr) <- GetDeviceManufacturer device ;;
  let deviceState :=
    match stateErr with
    | Some _ => adb.StateInvalid
    | None => deviceState
    end in
  let deviceManufacturer :=
    match manufacturerErr with
    | Some _ => "Unknown"
    | None => deviceManufacturer
    end in
  let standardizedState := convertState deviceState in
  ret {| models.Serial := adb.Serial deviceInfo;
         models.State := standardizedState;
         models.Model := adb.Model deviceInfo;
         models.Manufacturer := deviceManufacturer;
         models.IsAuthorized :=
           String.eqb standardizedState models.DeviceStateOnline |}.

Fixpoint devicesLoop (devices : list adb.DeviceInfo)
         (devicesList : list models.Device) : M W (list models.Device) :=
  match devices with
  | [] => ret devicesList
  | deviceInfo :: rest =>
      d <- deviceOf deviceInfo ;;
      devicesLoop rest (devicesList ++ [d])%list
  end.

Definition Devices (ctx : option ctxError)
  : M W (list models.Device * option error) :=
  '(devices, err) <- perform CallListDevices (adb.ListDevices client) ;;
  match err with
  | Some e => ret ([], Some e)
  | None =>
      devicesList <- devicesLoop devices [] ;;
      ret (devicesList, None)
  end.

End GoADBClient.

(** The goroutine of [TrackDeviceStates]: at the receive of the [range]
    loop, at the send of a change, or returned.  The context takes no
    part: [ObsDone] is not a step. *)
Definition watcherStep (deviceSerial : string) (s : watcher) (o : observation)
  : option watcher :=
  match pc s, o with
  | AtSelect, ObsUpstreamClosed => Some (watcherReturn s)
  | AtSelect, ObsEvent ev now =>
      if String.eqb (adb.EventSerial ev) deviceSerial then
        Some {| pc := AtDelivery (stateChangeOf deviceSerial ev now);
                emitted := emitted s; closes := closes s |}
      else Some s
  | AtDelivery stateChange, ObsDelivered =>
      Some {| pc := AtSelect;
              emitted := (emitted s ++ [stateChange])%list;
              closes := closes s |}
  | _, _ => None
  end.

Fixpoint watcherRun (deviceSerial : string) (s : watcher)
         (trace : list observation) : option watcher :=
  match trace with
  | [] => Some s
  | o :: rest =>
      match watcherStep deviceSerial s o with
      | Some s' => watcherRun deviceSerial s' rest
      | None => None
      end
  end.

Definition TrackDeviceStates (ctx : option ctxError) (deviceSerial : string)
           (trace : list observation) : option watcher :=
  watcherRun deviceSerial
             {| pc := AtSelect; emitted := []; closes := 0 |} trace.

End second.

(** The record of the current revision for a record of the second one:
    an empty manufacturer becomes [Unknown]. *)
Definition orUnknown (d : models.Device) : models.Device :=
  {| models.Serial := models.Serial d;
     models.State := models.State d;
     models.Model := models.Model d;
     models.Manufacturer :=
       if String.eqb (models.Manufacturer d) "" then "Unknown"
       else models.Manufacturer d;
     models.IsAuthorized := models.IsAuthorized d |}.

(** The state query of an entry, as it is logged. *)
Definition stateQuery (info : adb.DeviceInfo) : Call :=
  CallState (adb.DeviceWithSerial (adb.Serial info)).

Definition manufacturerRead (info : adb.DeviceInfo) : Call :=
  CallRunCommand (adb.DeviceWithSerial (adb.Serial info)) "getprop"
                 ["ro.product.manufacturer"].



(** [statesAnswer client infos w]: in the run that makes, from world [w]
    and for each entry of [infos] in order, the state query and then the
    manufacturer read, no state query fails. *)
Fixpoint statesAnswer {W : Type} (client : adb.Adb W)
         (infos : list adb.DeviceInfo) (w : W) : bool :=
  match infos with
  | [] => true
  | info :: rest =>
      let device := adb.DeviceWithSerial (adb.Serial info) in
      let '((_, stateErr), w1) := adb.State client device w in
      match stateErr with
      | Some _ => false
      | None =>
          let '(_, w2) :=
            adb.RunCommand client device "getprop"
                           ["ro.product.manufacturer"] w1 in
          statesAnswer client rest w2
      end
  end.

(* ===================================================================== *)
(** * types/models/db.go *)
(* ===================================================================== *)

Module dbmodels.

(** [FileIndex], in the revision that carries the checksum and the access
    groups; [Size] and [CreatedAt] are [int64]. *)
Record FileIndex := {
  ID : string;
  Size : Z;
  Owner : string;
  FilePath : string;
  Checksum : string;
  CreatedAt : Z;
  AccessGroups : list string
}.

(** [models.FileIndex{}], the zero value. *)
Definition zeroFileIndex : FileIndex :=
  {| ID := ""; Size := 0%Z; Owner := ""; FilePath := ""; Checksum := "";
     CreatedAt := 0%Z; AccessGroups := [] |}.

(** [File]; [Data] is a byte slice, here a byte string. *)
Record File := {
  Metadata : FileIndex;
  Data : string
}.

Definition zeroFile : File := {| Metadata := zeroFileIndex; Data := "" |}.

End dbmodels.

(* ===================================================================== *)
(** * Go's [path/filepath] on a Unix system, and [encoding/hex] *)
(* ===================================================================== *)

Module filepath.

Definition Separator : ascii := "/"%char.

(** The pieces of a path between separators. *)
Fixpoint elements (path : string) : list string :=
  match path with
  | EmptyString => [EmptyString]
  | String c rest =>
      if Ascii.eqb c Separator then EmptyString :: elements rest
      else
        match elements rest with
        | e :: es => String c e :: es
        | [] => [String c EmptyString]
        end
  end.

(** The loop of [Clean] over the elements of the path; [out] is the
    output so far, last element first.  Empty and [.] elements are
    dropped; [..] removes the element before it, stays when the path is
    not rooted and nothing but [..] precedes it, and is dropped at the
    root. *)
Fixpoint cleanElements (rooted : bool) (elems : list string)
         (out : list string) : list string :=
  match elems with
  | [] => out
  | e :: rest =>
      if String.eqb e "" || String.eqb e "." then cleanElements rooted rest out
      else if String.eqb e ".." then
        match out with
        | top :: out' =>
            if String.eqb top ".." then cleanElements rooted rest (".." :: out)
            else cleanElements rooted rest out'
        | [] =>
            if rooted then cleanElements rooted rest []
            else cleanElements rooted rest [".."]
        end
      else cleanElements rooted rest (e :: out)
  end.

(** A cleaned path from its elements. *)
Definition render (rooted : bool) (elems : list string) : string :=
  if rooted then "/" ++ String.concat "/" elems
  else
    match elems with
    | [] => "."
    | _ => String.concat "/" elems
    end.

(** [Clean(path)]. *)
Definition Clean (path : string) : string :=
  if String.eqb path "" then "."
  else
    let rooted := String.prefix "/" path in
    render rooted (rev (cleanElements rooted (elements path) [])).

(** [Join(elem...)]: the elements from the first non-empty one on, joined
    by separators and cleaned; the empty string when all are empty. *)
Fixpoint Join (elem : list string) : string :=
  match elem with
  | [] => ""
  | e :: rest =>
      if String.eqb e "" then Join rest
      else Clean (String.concat "/" elem)
  end.

(** The bytes of a reversed path after its leading separators, and up to
    its first separator. *)
Fixpoint dropSeparators (l : list ascii) : list ascii :=
  match l with
  | c :: rest => if Ascii.eqb c Separator then dropSeparators rest else l
  | [] => []
  end.

Fixpoint untilSeparator (l : list ascii) : list ascii :=
  match l with
  | c :: rest => if Ascii.eqb c Separator then [] else c :: untilSeparator rest
  | [] => []
  end.

(** [Base(path)]: the last element of the path, trailing separators
    removed first; [.] for the empty path and [/] for a path of
    separators only. *)
Definition Base (path : string) : string :=
  if String.eqb path "" then "."
  else
    match dropSeparators (rev' (list_ascii_of_string path)) with
    | [] => "/"
    | stripped => string_of_list_ascii (rev' (untilSeparator stripped))
    end.

(** An element without a separator, and a name: an element that is not
    empty, [.] or [..]. *)
Definition noSeparator (e : string) : Prop :=
  ~ In Separator (list_ascii_of_string e).

Definition plain (e : string) : Prop :=
  e <> "" /\ e <> "." /\ e <> ".." /\ noSeparator e.

(** The output of [Clean]'s loop, last element first, is normal: names,
    above the [..] elements that lead a path that is not rooted. *)
Definition normalStack (rooted : bool) (out : list string) : Prop :=
  if rooted then Forall plain out
  else exists names k, out = (names ++ repeat ".." k)%list /\ Forall plain names.

End filepath.

Module hex.

Definition digit (n : nat) : ascii :=
  match get n "0123456789abcdef" with
  | Some c => c
  | None => "0"%char
  end.

(** [EncodeToString(src)]: two lower-case digits per byte. *)
Fixpoint EncodeToString (src : string) : string :=
  match src with
  | EmptyString => EmptyString
  | String c rest =>
      String (digit (nat_of_ascii c / 16))
             (String (digit (nat_of_ascii c mod 16)) (EncodeToString rest))
  end.

End hex.

(* ===================================================================== *)
(** * The file service *)
(* ===================================================================== *)

Module db.

(** Errors of the operating system and of the database; [ErrNoRows] is
    [sql.ErrNoRows]. *)
Inductive hostError : Type :=
| ErrNoRows
| HostError (msg : string).

(** The errors the service builds with [fmt.Errorf], one constructor for
    each format string. *)
Inductive serviceError : Type :=
| ErrCreateDirectory (cause : hostError)
| ErrExtensionNotAllowed (fileExtension : string)
| ErrPathEscapesRoot (path : string)
| ErrWriteFile (cause : hostError)
| ErrInsertAccessGroup (cause : hostError)
| ErrInsertFileIndex (cause : hostError)
| ErrFileNotFound
| ErrQueryFileIndex (cause : hostError)
| ErrReadFile (cause : hostError)
| ErrChecksumOrSize.

Definition hostMessage (e : hostError) : string :=
  match e with
  | ErrNoRows => "sql: no rows in result set"
  | HostError msg => msg
  end.

(** The text of a service error. *)
Definition Message (e : serviceError) : string :=
  match e with
  | ErrCreateDirectory cause =>
      "failed to create directory: " ++ hostMessage cause
  | ErrExtensionNotAllowed ext => "file extension not allowed: " ++ ext
  | ErrPathEscapesRoot path => "file path escapes root: " ++ path
  | ErrWriteFile cause => "failed to write file: " ++ hostMessage cause
  | ErrInsertAccessGroup cause =>
      "failed to insert access group: " ++ hostMessage cause
  | ErrInsertFileIndex cause =>
      "failed to insert file index: " ++ hostMessage cause
  | ErrFileNotFound => "file not found"
  | ErrQueryFileIndex cause =>
      "failed to query file index: " ++ hostMessage cause
  | ErrReadFile cause => "failed to read file: " ++ hostMessage cause
  | ErrChecksumOrSize => "file checksum or size mismatch"
  end.

Definition DirPermsDefault : Z := 448.    (* 0o700 *)
Definition DirPermsRelaxed : Z := 493.    (* 0o755 *)
Definition FilePermsDefault : Z := 384.   (* 0o600 *)
Definition FilePermsRelaxed : Z := 420.   (* 0o644 *)
Definition FilePermsReadOnly : Z := 256.  (* 0o400 *)

(** An argument of a SQL statement. *)
Inductive SqlArg : Type :=
| ArgString (s : string)
| ArgInt (n : Z)
| ArgStrings (l : list string).

(** The calls the service makes to the operating system, the database,
    the UUID generator and the clock, as they are logged. *)
Inductive HostCall : Type :=
| CallMkdirAll (path : string) (perm : Z)
| CallWriteFile (name : string) (data : string) (perm : Z)
| CallReadFile (name : string)
| CallExec (query : string) (args : list SqlArg)
| CallQueryRow (ctx : option ctxError) (query : string) (args : list SqlArg)
| CallNewUUID
| CallNow.

(** The host.  [QueryRowScan] is [QueryRowContext] followed by [Scan]
    into the fields of a [FileIndex]; [NowUnix] is [time.Now().Unix()].
    [NowString] is [time.Now().String()], which the first revision of
    the service uses.  [Sum256] is [sha256.Sum256], and [mapToLower] is
    [strings.Map(unicode.ToLower, s)], which [strings.ToLower] uses for a
    string with a byte outside ASCII. *)
Record Host (W : Type) := {
  MkdirAll : string -> Z -> W -> option hostError * W;
  WriteFile : string -> string -> Z -> W -> option hostError * W;
  ReadFile : string -> W -> (string * option hostError) * W;
  Exec : string -> list SqlArg -> W -> option hostError * W;
  QueryRowScan : option ctxError -> string -> list SqlArg -> W ->
                 (dbmodels.FileIndex * option hostError) * W;
  NewString : W -> string * W;
  NowUnix : W -> Z * W;
  NowString : W -> string * W;
  Sum256 : string -> string;
  mapToLower : string -> string
}.

Arguments MkdirAll {W}.
Arguments WriteFile {W}.
Arguments ReadFile {W}.
Arguments Exec {W}.
Arguments QueryRowScan {W}.
Arguments NewString {W}.
Arguments NowUnix {W}.
Arguments NowString {W}.
Arguments Sum256 {W}.
Arguments mapToLower {W}.

(** A computation of the service: it threads the host's world and the log
    of the calls made. *)
Definition Op (W A : Type) : Type :=
  W * list HostCall -> A * (W * list HostCall).

Definition pure {W A : Type} (a : A) : Op W A := fun st => (a, st).

Definition andThen {W A B : Type} (m : Op W A) (k : A -> Op W B) : Op W B :=
  fun st => let '(a, st') := m st in k a st'.

Definition hostCall {W A : Type} (c : HostCall) (f : W -> A * W) : Op W A :=
  fun '(w, log) => let '(a, w') := f w in (a, (w', (log ++ [c])%list)).

Declare Scope host_scope.
Delimit Scope host_scope with host.

Notation "x <- m ;; k" := (andThen m (fun x => k))
  (at level 61, m at next level, right associativity) : host_scope.

Local Open Scope host_scope.

Record FileServiceConfig := {
  Root : string;
  SecureMode : bool;
  AllowedFileExtensions : list string
}.

Definition insertAccessGroup : string :=
  "INSERT INTO access_groups (fileId, groupId) VALUES (?, ?)".

Definition insertFileIndex : string :=
  "INSERT INTO file_index (id, ownerId, size, filepath, createdAt, checksum) VALUES (?, ?, ?, ?, ?, ?)".

Definition selectFileIndex : string :=
  "Select id, ownerId, size, filepath, createdAt, checksum, accessGroups FROM file_index WHERE id = ? AND ownerId = ?".

Section fileService.

Context {W : Type}.

(** The fields of [fileService]; the host stands for [db] and for the
    packages the service calls. *)
Variable config : FileServiceConfig.
Variable host : Host W.

(** [strings.ToLower]: a string of ASCII bytes has its upper-case letters
    lowered; any other string goes through the Unicode mapping. *)
Definition lowerByte (c : ascii) : ascii :=
  let n := nat_of_ascii c in
  if ((65 <=? n) && (n <=? 90))%nat then ascii_of_nat (n + 32) else c.

Fixpoint isASCII (s : string) : bool :=
  match s with
  | EmptyString => true
  | String c rest => (nat_of_ascii c <? 128)%nat && isASCII rest
  end.

Fixpoint lowerBytes (s : string) : string :=
  match s with
  | EmptyString => EmptyString
  | String c rest => String (lowerByte c) (lowerBytes rest)
  end.

Definition ToLower (s : string) : string :=
  if isASCII s then lowerBytes s else mapToLower host s.

Fixpoint validateExtensionIn (allowed : list string) (fileExtension : string)
  : bool :=
  match allowed with
  | [] => false
  | extension :: rest =>
      if String.eqb extension fileExtension then true
      else validateExtensionIn rest fileExtension
  end.

Definition validateFileExtension (fileExtension : string) : bool :=
  validateExtensionIn (AllowedFileExtensions config) fileExtension.

(** The loop [for group := range accessGroups]: [group] is the position
    in the slice, and it is the position that is bound to [groupId]. *)
Fixpoint insertAccessGroups (fileId : string) (accessGroups : list string)
         (group : Z) : Op W (option hostError) :=
  match accessGroups with
  | [] => pure None
  | _ :: rest =>
      err <- hostCall (CallExec insertAccessGroup [ArgString fileId; ArgInt group])
                      (Exec host insertAccessGroup
                            [ArgString fileId; ArgInt group]) ;;
      match err with
      | Some e => pure (Some e)
      | None => insertAccessGroups fileId rest (group + 1)
      end
  end.

Definition SaveFile (owner : string) (accessGroups : list string)
           (filename fileExtension data : string)
  : Op W (dbmodels.FileIndex * option serviceError) :=
  let sandBoxRoot := filepath.Join [Root config; owner] in
  err <- hostCall (CallMkdirAll sandBoxRoot DirPermsDefault)
                  (MkdirAll host sandBoxRoot DirPermsDefault) ;;
  match err with
  | Some e => pure (dbmodels.zeroFileIndex, Some (ErrCreateDirectory e))
  | None =>
      let fileExtension := ToLower (strings.TrimSpace fileExtension) in
      if negb (validateFileExtension fileExtension) then
        pure (dbmodels.zeroFileIndex,
              Some (ErrExtensionNotAllowed fileExtension))
      else
        let checksum := hex.EncodeToString (Sum256 host data) in
        let cleanFileName := filepath.Base filename in
        fileId <- hostCall CallNewUUID (NewString host) ;;
        let fileName := cleanFileName ++ "-" ++ fileId ++ "." ++ fileExtension in
        let absFilePath := filepath.Join [sandBoxRoot; fileName] in
        let cleanFilePath := filepath.Clean absFilePath in
        if negb (strings.HasPrefix cleanFilePath (Root config)) then
          pure (dbmodels.zeroFileIndex, Some (ErrPathEscapesRoot cleanFilePath))
        else
          err <- hostCall (CallWriteFile absFilePath data FilePermsDefault)
                          (WriteFile host absFilePath data FilePermsDefault) ;;
          match err with
          | Some e => pure (dbmodels.zeroFileIndex, Some (ErrWriteFile e))
          | None =>
              now <- hostCall CallNow (NowUnix host) ;;
              let fileIndex :=
                {| dbmodels.ID := fileId;
                   dbmodels.Size := strings.len data;
                   dbmodels.Owner := owner;
                   dbmodels.FilePath := cleanFilePath;
                   dbmodels.Checksum := checksum;
                   dbmodels.CreatedAt := now;
                   dbmodels.AccessGroups := [] |} in
              err <- insertAccessGroups fileId accessGroups 0 ;;
              match err with
              | Some e =>
                  pure (dbmodels.zeroFileIndex, Some (ErrInsertAccessGroup e))
              | None =>
                  let args :=
                    [ArgString (dbmodels.ID fileIndex);
                     ArgString (dbmodels.Owner fileIndex);
                     ArgInt (dbmodels.Size fileIndex);
                     ArgString (dbmodels.FilePath fileIndex);
                     ArgInt (dbmodels.CreatedAt fileIndex);
                     ArgString (dbmodels.Checksum fileIndex)] in
                  err <- hostCall (CallExec insertFileIndex args)
                                  (Exec host insertFileIndex args) ;;
                  match err with
                  | Some e =>
                      pure (dbmodels.zeroFileIndex,
                            Some (ErrInsertFileIndex e))
                  | None => pure (fileIndex, None)
                  end
              end
          end
  end.

Definition GetFile (ctx : option ctxError) (owner fileId : string)
  : Op W (dbmodels.File * option serviceError) :=
  let args := [ArgString fileId; ArgString owner] in
  scanned <- hostCall (CallQueryRow ctx selectFileIndex args)
                      (QueryRowScan host ctx selectFileIndex args) ;;
  let '(metadata, fileErr) := scanned in
  match fileErr with
  | Some ErrNoRows => pure (dbmodels.zeroFile, Some ErrFileNotFound)
  | Some e => pure (dbmodels.zeroFile, Some (ErrQueryFileIndex e))
  | None =>
      let filePath := dbmodels.FilePath metadata in
      if negb (strings.HasPrefix filePath (Root config)) then
        pure (dbmodels.zeroFile, Some (ErrPathEscapesRoot filePath))
      else
        read <- hostCall (CallReadFile filePath) (ReadFile host filePath) ;;
        let '(data, err) := read in
        match err with
        | Some e => pure (dbmodels.zeroFile, Some (ErrReadFile e))
        | None =>
            let checkSum := hex.EncodeToString (Sum256 host data) in
            if negb (String.eqb (dbmodels.Checksum metadata) checkSum)
               || negb (dbmodels.Size metadata =? strings.len data)%Z
            then pure (dbmodels.zeroFile, Some ErrChecksumOrSize)
            else pure ({| dbmodels.Metadata := metadata;
                          dbmodels.Data := data |}, None)
        end
  end.

(** The directory of an owner, the extension as it is compared, and the
    path of the file written for a drawn identifier. *)
Definition sandBoxRootOf (owner : string) : string :=
  filepath.Join [Root config; owner].

Definition extensionOf (fileExtension : string) : string :=
  ToLower (strings.TrimSpace fileExtension).

Definition pathOf (owner filename fileExtension fileId : string) : string :=
  filepath.Join
    [sandBoxRootOf owner;
     filepath.Base filename ++ "-" ++ fileId ++ "." ++ extensionOf fileExtension].

End fileService.

(** The statements sent for the access groups of a file, and for its
    index row. *)
Definition groupInserts (fileId : string) (n : nat) : list HostCall :=
  map (fun i => CallExec insertAccessGroup [ArgString fileId; ArgInt (Z.of_nat i)])
      (seq 0 n).

Definition indexInsert (fileIndex : dbmodels.FileIndex) : HostCall :=
  CallExec insertFileIndex
    [ArgString (dbmodels.ID fileIndex); ArgString (dbmodels.Owner fileIndex);
     ArgInt (dbmodels.Size fileIndex); ArgString (dbmodels.FilePath fileIndex);
     ArgInt (dbmodels.CreatedAt fileIndex);
     ArgString (dbmodels.Checksum fileIndex)].

(** The name of the file [SaveFile] writes in the owner's directory: the
    base of the file name, which leaves no element when it is the
    separator, the identifier and the extension. *)
Definition storedName (filename fileId fileExtension : string) : string :=
  (if String.eqb (filepath.Base filename) "/" then ""
   else filepath.Base filename) ++ "-" ++ fileId ++ "." ++ fileExtension.

End db.

(* ===================================================================== *)
(** * The first revision of the file service *)
(* ===================================================================== *)

(** [SaveFile] without extensions: the identifier of a file is the digest
    of its base name, its owner and the time, and the access groups go
    into the index row. *)
Module dbfirst.

Import db.

Local Open Scope host_scope.

Definition insertFileIndex : string :=
  "INSERT INTO file_index (id, ownerId, size, filepath, createdAt, checksum, accessGroups) VALUES (?, ?, ?, ?, ?, ?, ?)".

Section fileService.

Context {W : Type}.

(** The fields of [fileService]. *)
Variable root : string.
Variable host : Host W.

Definition SaveFile (owner : string) (accessGroups : list string)
           (filename data : string)
  : Op W (dbmodels.FileIndex * option serviceError) :=
  let cleanName := filepath.Base filename in
  let sandBoxRoot := filepath.Join [root; owner] in
  err <- hostCall (CallMkdirAll sandBoxRoot DirPermsDefault)
                  (MkdirAll host sandBoxRoot DirPermsDefault) ;;
  match err with
  | Some e => pure (dbmodels.zeroFileIndex, Some (ErrCreateDirectory e))
  | None =>
      let checksum := hex.EncodeToString (Sum256 host data) in
      now <- hostCall CallNow (NowString host) ;;
      let fileId :=
        hex.EncodeToString (Sum256 host (cleanName ++ owner ++ now)) in
      let fileName := cleanName ++ "-" ++ fileId in
      let absFilePath := filepath.Join [sandBoxRoot; fileName] in
      let cleanFilePath := filepath.Clean absFilePath in
      if negb (strings.HasPrefix cleanFilePath root) then
        pure (dbmodels.zeroFileIndex, Some (ErrPathEscapesRoot cleanFilePath))
      else
        err <- hostCall (CallWriteFile absFilePath data FilePermsDefault)
                        (WriteFile host absFilePath data FilePermsDefault) ;;
        match err with
        | Some e => pure (dbmodels.zeroFileIndex, Some (ErrWriteFile e))
        | None =>
            createdAt <- hostCall CallNow (NowUnix host) ;;
            let fileIndex :=
              {| dbmodels.ID := fileId;
                 dbmodels.Size := strings.len data;
                 dbmodels.Owner := owner;
                 dbmodels.FilePath := cleanFilePath;
                 dbmodels.Checksum := checksum;
                 dbmodels.CreatedAt := createdAt;
                 dbmodels.AccessGroups := accessGroups |} in
            let args :=
              [ArgString (dbmodels.ID fileIndex);
               ArgString (dbmodels.Owner fileIndex);
               ArgInt (dbmodels.Size fileIndex);
               ArgString (dbmodels.FilePath fileIndex);
               ArgInt (dbmodels.CreatedAt fileIndex);
               ArgString (dbmodels.Checksum fileIndex);
               ArgStrings (dbmodels.AccessGroups fileIndex)] in
            err <- hostCall (CallExec insertFileIndex args)
                            (Exec host insertFileIndex args) ;;
            match err with
            | Some e =>
                pure (dbmodels.zeroFileIndex, Some (ErrInsertFileIndex e))
            | None => pure (fileIndex, None)
            end
        end
  end.

(** The identifier drawn for a file at a time. *)
Definition fileIdOf (owner filename now : string) : string :=
  hex.EncodeToString (Sum256 host (filepath.Base filename ++ owner ++ now)).

End fileService.

End dbfirst.

(* ===================================================================== *)
(** * A host kept in memory *)
(* ===================================================================== *)

Module memory.

Import db.

(** The files by name and the rows of the two tables, latest first, and
    the number of identifiers drawn. *)
Record Disk := {
  files : list (string * string);
  fileIndex : list dbmodels.FileIndex;
  accessGroups : list (string * Z);
  drawn : nat
}.

Definition empty : Disk :=
  {| files := []; fileIndex := []; accessGroups := []; drawn := 0 |}.

Fixpoint contentOf (name : string) (fs : list (string * string))
  : option string :=
  match fs with
  | [] => None
  | (n, data) :: rest => if String.eqb n name then Some data
                         else contentOf name rest
  end.

Definition rowOf (args : list SqlArg) : option dbmodels.FileIndex :=
  match args with
  | [ArgString id; ArgString owner; ArgInt size; ArgString path;
     ArgInt createdAt; ArgString checksum] =>
      Some {| dbmodels.ID := id; dbmodels.Size := size;
              dbmodels.Owner := owner; dbmodels.FilePath := path;
              dbmodels.Checksum := checksum;
              dbmodels.CreatedAt := createdAt;
              dbmodels.AccessGroups := [] |}
  | _ => None
  end.

Definition exec (query : string) (args : list SqlArg) (d : Disk)
  : option hostError * Disk :=
  if String.eqb query insertFileIndex then
    match rowOf args with
    | Some row =>
        (None, {| files := files d; fileIndex := row :: fileIndex d;
                  accessGroups := accessGroups d; drawn := drawn d |})
    | None => (Some (HostError "wrong number of arguments"), d)
    end
  else if String.eqb query insertAccessGroup then
    match args with
    | [ArgString fileId; ArgInt group] =>
        (None, {| files := files d; fileIndex := fileIndex d;
                  accessGroups := (fileId, group) :: accessGroups d;
                  drawn := drawn d |})
    | _ => (Some (HostError "wrong number of arguments"), d)
    end
  else (Some (HostError "unknown statement"), d).

Definition queryRow (args : list SqlArg) (d : Disk)
  : (dbmodels.FileIndex * option hostError) * Disk :=
  match args with
  | [ArgString fileId; ArgString owner] =>
      match find (fun row => String.eqb (dbmodels.ID row) fileId
                             && String.eqb (dbmodels.Owner row) owner)
                 (fileIndex d) with
      | Some row => ((row, None), d)
      | None => ((dbmodels.zeroFileIndex, Some ErrNoRows), d)
      end
  | _ => ((dbmodels.zeroFileIndex, Some (HostError "wrong number of arguments")),
          d)
  end.

(** The host: directories need no making, identifiers are numbered, the
    clock stands still, and the digest of some data is the data. *)
Definition host : Host Disk :=
  {| MkdirAll := fun _ _ d => (None, d);
     WriteFile := fun name data _ d =>
       (None, {| files := (name, data) :: files d; fileIndex := fileIndex d;
                 accessGroups := accessGroups d; drawn := drawn d |});
     ReadFile := fun name d =>
       match contentOf name (files d) with
       | Some data => ((data, None), d)
       | None => (("", Some (HostError "no such file or directory")), d)
       end;
     Exec := exec;
     QueryRowScan := fun _ _ args d => queryRow args d;
     NewString := fun d =>
       ("0000-" ++ String (hex.digit (drawn d mod 16)) "",
        {| files := files d; fileIndex := fileIndex d;
           accessGroups := accessGroups d; drawn := S (drawn d) |});
     NowUnix := fun d => (1700000000%Z, d);
     NowString := fun d => ("2023-11-14 22:13:20 +0000 UTC", d);
     Sum256 := fun data => data;
     mapToLower := fun s => s |}.

Definition config : FileServiceConfig :=
  {| Root := "/srv/files"; SecureMode := true;
     AllowedFileExtensions := ["png"; "txt"] |}.

(** A save of four bytes by [alice], and a save with an extension that
    is not allowed. *)
Definition saved
  : (dbmodels.FileIndex * option serviceError) * (Disk * list HostCall) :=
  SaveFile config host "alice" ["staff"; "family"] "photos/cat.png" " PNG "
           "meow" (empty, []).

Definition refused
  : (dbmodels.FileIndex * option serviceError) * (Disk * list HostCall) :=
  SaveFile config host "alice" ["staff"] "setup.exe" "exe" "MZ" (empty, []).

(** The retrieval of the file saved. *)
Definition retrieved
  : (dbmodels.File * option serviceError) * (Disk * list HostCall) :=
  GetFile config host None "alice" (dbmodels.ID (fst (fst saved)))
          (snd saved).

(** A save by the first revision of the service. *)
Definition savedFirst
  : (dbmodels.FileIndex * option serviceError) * (Disk * list HostCall) :=
  dbfirst.SaveFile "/srv/files" host "alice" ["staff"] "photos/cat.png" "meow"
                   (empty, []).

(** The name of the file it left on the disk. *)
Definition writtenFirst : string :=
  match files (fst (snd savedFirst)) with
  | (name, _) :: _ => name
  | [] => ""
  end.

Definition listing : list models.Package :=
  [ {| models.Name := "com.acme.app";
       models.ApkPath := "/data/app/com.acme.app-1/base.apk";
       models.IsSystem := false |};
    {| models.Name := "com.android.settings";
       models.ApkPath := "/system/app/Settings/Settings.apk";
       models.IsSystem := true |} ].

End memory.
(* ===================================================================== *)
(** * Properties *)
(* ===================================================================== *)

Lemma convertState_cases (state : adb.DeviceState) :
  (state = adb.StateOnline /\ convertState state = models.DeviceStateOnline) \/
  (state = adb.StateOffline /\ convertState state = models.DeviceStateOffline) \/
  (state = adb.StateUnauthorized /\
   convertState state = models.DeviceStateUnauthorized) \/
  (~ recognized state /\ convertState state = models.DeviceStateUnknown).
Proof.
  unfold convertState, recognized.
  destruct (Z.eqb_spec state adb.StateOnline) as [-> | Hon]; [now left |].
  destruct (Z.eqb_spec state adb.StateOffline) as [-> | Hoff];
    [now right; left |].
  destruct (Z.eqb_spec state adb.StateUnauthorized) as [-> | Hun];
    [now right; right; left |].
  right; right; right. split; [tauto | reflexivity].
Qed.

(** C3. [convertState] is a total function of its argument alone: it sends
    the transport's online, offline and unauthorized states to Online,
    Offline and Unauthorized, and every other raw state, the invalid
    sentinel included, to Unknown; on the recognised states it is
    injective and it reaches each of Online, Offline and Unauthorized. *)
Theorem convertState_total_bijection :
  convertState adb.StateOnline = models.DeviceStateOnline /\
  convertState adb.StateOffline = models.DeviceStateOffline /\
  convertState adb.StateUnauthorized = models.DeviceStateUnauthorized /\
  convertState adb.StateInvalid = models.DeviceStateUnknown /\
  (forall state, ~ recognized state ->
     convertState state = models.DeviceStateUnknown) /\
  (forall state, recognized state -> canonical_known (convertState state)) /\
  (forall s1 s2, recognized s1 -> recognized s2 ->
     convertState s1 = convertState s2 -> s1 = s2) /\
  (forall s, canonical_known s ->
     exists state, recognized state /\ convertState state = s).
Proof.
  repeat split; try reflexivity.
  - intros state Hn.
    destruct (convertState_cases state) as [[-> _] | [[-> _] | [[-> _] | [_ H]]]];
      try assumption; exfalso; apply Hn; unfold recognized; tauto.
  - intros state [-> | [-> | ->]]; unfold canonical_known; cbn; tauto.
  - intros s1 s2 [-> | [-> | ->]] [-> | [-> | ->]]; vm_compute; intros H;
      try reflexivity; discriminate H.
  - intros s [-> | [-> | ->]].
    + exists adb.StateOnline; unfold recognized; split; [tauto | reflexivity].
    + exists adb.StateOffline; unfold recognized; split; [tauto | reflexivity].
    + exists adb.StateUnauthorized; unfold recognized;
        split; [tauto | reflexivity].
Qed.

(* --------------------------------------------------------------------- *)
(** ** Strings *)
(* --------------------------------------------------------------------- *)

Section StringFacts.

Import strings.

Lemma take_drop (n : nat) (s : string) : take n s ++ drop n s = s.
Proof.
  revert s; induction n as [| n IH]; intros [| c s]; cbn; try reflexivity.
  now rewrite IH.
Qed.

Lemma take_length_app (pre post : string) :
  take (String.length pre) (pre ++ post) = pre.
Proof.
  induction pre as [| c pre IH]; cbn.
  - now destruct post.
  - now rewrite IH.
Qed.

Lemma drop_length_app (pre post : string) :
  drop (String.length pre) (pre ++ post) = post.
Proof. induction pre as [| c pre IH]; cbn; [reflexivity | exact IH]. Qed.

Lemma length_app (s1 s2 : string) :
  String.length (s1 ++ s2) = String.length s1 + String.length s2.
Proof. induction s1 as [| c s1 IH]; cbn; [reflexivity | now rewrite IH]. Qed.

Lemma prefix_split (pre s : string) :
  String.prefix pre s = true -> s = pre ++ drop (String.length pre) s.
Proof.
  revert s; induction pre as [| a pre IH]; intros s H.
  - reflexivity.
  - destruct s as [| b s]; cbn in H; [discriminate H |].
    destruct (ascii_dec a b) as [-> | _]; [| discriminate H].
    cbn. now rewrite <- IH.
Qed.

Lemma prefix_app (pre rest : string) : String.prefix pre (pre ++ rest) = true.
Proof.
  induction pre as [| a pre IH]; cbn; [now destruct rest |].
  destruct (ascii_dec a a); [exact IH | congruence].
Qed.

Lemma Contains_prefix (s substr : string) :
  String.prefix substr s = true -> Contains s substr = true.
Proof. intros H. destruct s; cbn [Contains]; rewrite H; reflexivity. Qed.

Lemma Contains_spec (s substr : string) :
  Contains s substr = true <->
  exists pre post, s = pre ++ substr ++ post.
Proof.
  split.
  - induction s as [| c s IH]; cbn; intros H.
    + rewrite orb_false_r in H. exists "", (drop (String.length substr) "").
      cbn. now apply prefix_split.
    + apply orb_true_iff in H as [H | H].
      * exists "", (drop (String.length substr) (String c s)).
        cbn. now apply prefix_split.
      * destruct (IH H) as (pre & post & ->).
        now exists (String c pre), post.
  - intros (pre & post & ->).
    induction pre as [| c pre IH].
    + apply Contains_prefix. exact (prefix_app substr post).
    + cbn. rewrite IH. apply orb_true_r.
Qed.

Lemma prefix_nil (s : string) : String.prefix "" s = true.
Proof. now destruct s. Qed.

Lemma prefix_eq_cons (c : ascii) (s : string) :
  String.prefix "=" (String c s) =
  (if ascii_dec "=" c then true else false).
Proof.
  cbn [String.prefix]. destruct (ascii_dec "=" c); [apply prefix_nil | reflexivity].
Qed.

(** [Contains s "="] inspects the first byte, then the rest. *)
Lemma Contains_eq_cons (c : ascii) (s : string) :
  Contains (String c s) "=" =
  (if ascii_dec "=" c then true else Contains s "=").
Proof.
  cbn [Contains]. rewrite prefix_eq_cons.
  destruct (ascii_dec "=" c); reflexivity.
Qed.

Lemma Contains_eq_nil : Contains "" "=" = false.
Proof. reflexivity. Qed.

(** [LastIndex] with the separator ["="]: either there is none and the
    result is -1, or the string splits at its last ["="] and the result
    is the length of what precedes it. *)
Lemma LastIndex_from_eq (s : string) (i : Z) :
  (0 <= i)%Z ->
  (Contains s "=" = false /\ LastIndex_from s "=" i = (-1)%Z) \/
  (exists pre post,
      s = pre ++ String "=" post /\ Contains post "=" = false /\
      LastIndex_from s "=" i = (i + len pre)%Z).
Proof.
  revert i; induction s as [| c s IH]; intros i Hi.
  - left. split; reflexivity.
  - destruct (IH (i + 1)%Z ltac:(lia)) as [[Hno Hr] | (pre & post & -> & Hno & Hr)].
    + cbn [LastIndex_from]. rewrite Hr. cbn [Z.leb Z.compare].
      rewrite Contains_eq_cons, prefix_eq_cons.
      destruct (ascii_dec "=" c) as [<- | Hne].
      * right. exists "", s. repeat split; [exact Hno |].
        unfold len; cbn. lia.
      * left. split; [exact Hno | reflexivity].
    + right. exists (String c pre), post. repeat split; [exact Hno |].
      cbn [LastIndex_from]. rewrite Hr.
      assert (Hge : (0 <=? i + 1 + len pre)%Z = true)
        by (apply Z.leb_le; unfold len; lia).
      rewrite Hge. unfold len; cbn [String.length]. lia.
Qed.

Lemma LastIndex_eq (s : string) :
  (Contains s "=" = false /\ LastIndex s "=" = (-1)%Z) \/
  (exists pre post,
      s = pre ++ String "=" post /\ Contains post "=" = false /\
      LastIndex s "=" = len pre).
Proof.
  unfold LastIndex.
  destruct (LastIndex_from_eq s 0 ltac:(lia)) as [H | (pre & post & H1 & H2 & H3)];
    [now left | right].
  exists pre, post. repeat split; assumption.
Qed.

(** The index found is a valid slice bound. *)
Lemma LastIndex_range (s : string) :
  LastIndex s "=" <> (-1)%Z ->
  (0 <= LastIndex s "=" < len s)%Z.
Proof.
  destruct (LastIndex_eq s) as [[_ H] | (pre & post & -> & _ & H)];
    [congruence | intros _].
  rewrite H. unfold len.
  rewrite length_app. cbn [String.length]. lia.
Qed.

Lemma LastIndex_none (s : string) :
  LastIndex s "=" = (-1)%Z <-> Contains s "=" = false.
Proof.
  destruct (LastIndex_eq s) as [[Hno Hr] | (pre & post & Hs & Hno & Hr)].
  - tauto.
  - assert (Hc : Contains s "=" = true).
    { apply Contains_spec. exists pre, post. exact Hs. }
    rewrite Hr, Hc. unfold len. split; [lia | discriminate].
Qed.

(** A prefix without ["="] of a string cut at an ["="] lies before the
    cut. *)
Lemma prefix_before_eq (w pre post : string) :
  Contains w "=" = false ->
  String.prefix w (pre ++ String "=" post) = true ->
  String.prefix w pre = true.
Proof.
  revert pre; induction w as [| a w IH]; intros pre Hw H.
  - apply prefix_nil.
  - rewrite Contains_eq_cons in Hw.
    destruct (ascii_dec "=" a) as [Ha | Ha]; [discriminate Hw |].
    destruct pre as [| b pre]; cbn [String.prefix append] in *.
    + destruct (ascii_dec a "=") as [E | _]; [congruence | discriminate H].
    + destruct (ascii_dec a b); [now apply IH | discriminate H].
Qed.

Lemma app_assoc_string (a b c : string) : (a ++ b) ++ c = a ++ (b ++ c).
Proof. induction a as [| x a IH]; cbn; [reflexivity | now rewrite IH]. Qed.

End StringFacts.

(* --------------------------------------------------------------------- *)
(** ** The package list parser *)
(* --------------------------------------------------------------------- *)

Section ParserFacts.

Import strings.

Lemma parseLine_skipped (text : string) :
  parseLine text = None <->
  (TrimSpace text = "" \/
   HasPrefix (TrimSpace text) "package:" = false \/
   Contains (TrimSpace text) "=" = false).
Proof.
  unfold parseLine. set (line := TrimSpace text).
  destruct (String.eqb_spec line "") as [E1 | E1]; cbn [orb].
  - tauto.
  - destruct (HasPrefix line "package:") eqn:E2; cbn [negb orb].
    + destruct (Z.eqb_spec (LastIndex line "=") (-1)) as [E3 | E3].
      * apply LastIndex_none in E3. tauto.
      * split; [discriminate |].
        intros [H | [H | H]]; try congruence.
        apply LastIndex_none in H. congruence.
    + tauto.
Qed.

Lemma parseLine_kept (text : string) (p : models.Package) :
  parseLine text = Some p ->
  exists rawName,
    TrimSpace text = "package:" ++ models.ApkPath p ++ "=" ++ rawName /\
    Contains rawName "=" = false /\
    models.Name p = TrimSpace rawName /\
    models.IsSystem p = Contains (models.ApkPath p) "/system/".
Proof.
  unfold parseLine. set (line := TrimSpace text).
  destruct (String.eqb line ""); cbn [orb]; [discriminate |].
  destruct (HasPrefix line "package:") eqn:E2; cbn [negb orb];
    [| discriminate].
  destruct (LastIndex_eq line) as [[_ Hr] | (pre & post & Hline & Hno & Hr)];
    rewrite Hr.
  - discriminate.
  - destruct (Z.eqb_spec (len pre) (-1)) as [E3 | _];
      [unfold len in E3; lia |].
    intros [= <-]. cbn [models.ApkPath models.Name models.IsSystem].
    assert (Hto : slice_to line (len pre) = pre).
    { unfold slice_to, len. rewrite Nat2Z.id, Hline.
      apply take_length_app. }
    assert (Hfrom : slice_from line (len pre + 1) = post).
    { unfold slice_from, len.
      replace (Z.to_nat (Z.of_nat (String.length pre) + 1))
        with (String.length (pre ++ "=")) by (rewrite length_app; cbn; lia).
      rewrite Hline.
      replace (pre ++ String "=" post) with ((pre ++ "=") ++ post)
        by (rewrite app_assoc_string; reflexivity).
      apply drop_length_app. }
    rewrite Hto, Hfrom.
    assert (Hpre : HasPrefix pre "package:" = true).
    { unfold HasPrefix in *. rewrite Hline in E2.
      apply (prefix_before_eq _ _ post); [reflexivity | exact E2]. }
    unfold TrimPrefix. rewrite Hpre.
    exists post. repeat split; try assumption.
    rewrite Hline.
    rewrite (prefix_split "package:" pre Hpre) at 1.
    rewrite app_assoc_string. reflexivity.
Qed.

Lemma scanLoop_from (texts : list string) (acc : list models.Package) :
  fold_left
    (fun packages text =>
       match parseLine text with
       | None => packages
       | Some p => (packages ++ [p])%list
       end)
    texts acc
  = (acc ++ flat_map contribution texts)%list.
Proof.
  revert acc; induction texts as [| text texts IH]; intros acc; cbn.
  - now rewrite app_nil_r.
  - rewrite IH. unfold contribution at 2.
    destruct (parseLine text); cbn; [now rewrite <- app_assoc | reflexivity].
Qed.

Lemma scanLoop_flat_map (texts : list string) :
  scanLoop texts = flat_map contribution texts.
Proof. unfold scanLoop. now rewrite scanLoop_from. Qed.

Lemma tokens_fit (ps : list string) :
  Forall bufio.fits ps -> bufio.tokens ps = (bufio.texts ps, None).
Proof.
  induction 1 as [| p rest Hp _ IH]; [reflexivity |].
  cbn [bufio.tokens bufio.texts].
  assert (E : (bufio.MaxScanTokenSize <=? len p)%Z = false)
    by (apply Z.leb_gt; exact Hp).
  rewrite E, IH. destruct rest, p; reflexivity.
Qed.

(** A line that does not fit stops the scanner, and [packages] returns
    the error with no package. *)
Lemma tokens_too_long (ps : list string) :
  ~ Forall bufio.fits ps -> snd (bufio.tokens ps) = Some ErrTooLong.
Proof.
  induction ps as [| p rest IH]; intros H.
  - exfalso; apply H; constructor.
  - cbn [bufio.tokens].
    destruct (Z.leb_spec bufio.MaxScanTokenSize (len p)) as [Hlong | Hfit];
      [reflexivity |].
    assert (Hrest : ~ Forall bufio.fits rest).
    { intros Hall. apply H. constructor; assumption. }
    specialize (IH Hrest).
    destruct rest as [| q rest'].
    + exfalso; apply Hrest; constructor.
    + destruct (bufio.tokens (q :: rest')) as [ts err].
      cbn in IH. subst err. destruct p; reflexivity.
Qed.

Lemma parsePackages_too_long (out : string) :
  ~ Forall bufio.fits (bufio.pieces out) ->
  parsePackages out = ([], Some ErrTooLong).
Proof.
  intros H. apply tokens_too_long in H.
  unfold parsePackages, bufio.scan.
  destruct (bufio.tokens (bufio.pieces out)) as [texts err].
  cbn in H. now subst err.
Qed.

End ParserFacts.

(** C4 (as amended).  For every input text whose lines all fit the
    scanner's buffer (fewer than 64 KiB each, the carriage return of a
    line that ends in one counted), the parser's result is the
    concatenation, in order, of what each line contributes on its own, so a
    skipped line leaves the packages of the other lines as they are; a
    line is skipped exactly when, once trimmed, it is empty, lacks the
    [package:] prefix or contains no [=]; and a line that is kept reads
    [package:<path>=<name>] where the [=] is its last one, the APK path is
    what lies between the prefix and that [=], and the package name is
    what follows, trimmed. *)
Theorem parsePackages_line_by_line (out : string) :
  Forall bufio.fits (bufio.pieces out) ->
  parsePackages out = (flat_map contribution (bufio.lines out), None) /\
  (forall before text after,
      parseLine text = None ->
      flat_map contribution (before ++ text :: after) =
      (flat_map contribution before ++ flat_map contribution after)%list) /\
  (forall text,
      parseLine text = None <->
      (strings.TrimSpace text = "" \/
       strings.HasPrefix (strings.TrimSpace text) "package:" = false \/
       strings.Contains (strings.TrimSpace text) "=" = false)) /\
  (forall text p,
      parseLine text = Some p ->
      exists rawName,
        strings.TrimSpace text =
          "package:" ++ models.ApkPath p ++ "=" ++ rawName /\
        strings.Contains rawName "=" = false /\
        models.Name p = strings.TrimSpace rawName).
Proof.
  intros Hfit. repeat split.
  - unfold parsePackages, bufio.scan, bufio.lines.
    rewrite (tokens_fit _ Hfit). now rewrite scanLoop_flat_map.
  - intros before text after Hskip.
    rewrite flat_map_app. cbn [flat_map]. unfold contribution at 2.
    now rewrite Hskip.
  - apply parseLine_skipped.
  - apply parseLine_skipped.
  - intros text p Hp.
    destruct (parseLine_kept text p Hp) as (rawName & H1 & H2 & H3 & _).
    now exists rawName.
Qed.

Lemma parsePackages_line_by_line_witness :
  parsePackages examples.twoLines =
  (flat_map contribution (bufio.lines examples.twoLines), None).
Proof.
  apply (parsePackages_line_by_line examples.twoLines).
  vm_compute. repeat constructor.
Defined.

(** A line of 64 KiB stops the scanner: the listing below has a package
    line and a long line without the prefix, which on its own is skipped;
    line by line the result would be the package, but [packages] returns
    the scanner's error and no package. *)
Lemma parsePackages_long_line_aborts :
  parseLine examples.longLine = None /\
  flat_map contribution (bufio.lines examples.listingWithLongLine) =
    [ {| models.Name := "com.a";
         models.ApkPath := "/data/app/a/base.apk";
         models.IsSystem := false |} ] /\
  parsePackages examples.listingWithLongLine = ([], Some ErrTooLong).
Proof. vm_compute. repeat split. Qed.

(** The carriage return counts: a line of 65535 bytes fits, and the same
    line ended by carriage return and line feed stops the scanner. *)
Example parsePackages_crlf_line_aborts :
  map strings.len (bufio.lines examples.crlfListing) = [65535; 34]%Z /\
  map strings.len (bufio.pieces examples.crlfListing) = [65536; 34]%Z /\
  parsePackages examples.crlfListing = ([], Some ErrTooLong).
Proof. vm_compute. repeat split. Qed.

(** C5.  For every parsed package, [IsSystem] holds exactly when the APK
    path contains the segment [/system/]; the line for [com.acme.app]
    under [/data/app] parses to that name and path with [IsSystem] false,
    and the line for [com.android.settings] under [/system/app] parses
    with [IsSystem] true. *)
Theorem isSystem_iff_system_segment :
  (forall text p,
      parseLine text = Some p ->
      (models.IsSystem p = true <->
       exists before after,
         models.ApkPath p = before ++ "/system/" ++ after)) /\
  parsePackages "package:/data/app/com.acme.app-1/base.apk=com.acme.app" =
    ([ {| models.Name := "com.acme.app";
          models.ApkPath := "/data/app/com.acme.app-1/base.apk";
          models.IsSystem := false |} ], None) /\
  parsePackages
    "package:/system/app/Settings/Settings.apk=com.android.settings" =
    ([ {| models.Name := "com.android.settings";
          models.ApkPath := "/system/app/Settings/Settings.apk";
          models.IsSystem := true |} ], None).
Proof.
  split; [| split; vm_compute; reflexivity].
  intros text p Hp.
  destruct (parseLine_kept text p Hp) as (_ & _ & _ & _ & ->).
  apply Contains_spec.
Qed.

(* --------------------------------------------------------------------- *)
(** ** Package listing *)
(* --------------------------------------------------------------------- *)

(** C6.  For every [ListPackageOptions], [packages] makes one transport
    call, [pm list packages], and its argument list is [-f], then [-u]
    exactly when [IncludeUninstalled] is set, then [-s] when
    [IncludeSystem] is set and [-3] otherwise, and nothing else. *)
Theorem packages_argument_list {W : Type} (client : adb.Adb W)
        (deviceId : string) (opts : models.ListPackageOptions)
        (w : W) (log : list Call) :
  packages client deviceId opts (w, log) =
    (let '((out, err), w') :=
       adb.RunCommand client (getDevice deviceId) "pm list packages"
                      (expectedArgs opts) w in
     (match err with
      | Some e => ([], Some e)
      | None => parsePackages out
      end,
      (w', (log ++ [CallRunCommand (getDevice deviceId) "pm list packages"
                                   (expectedArgs opts)])%list))) /\
  expectedArgs opts =
    match models.IncludeUninstalled opts, models.IncludeSystem opts with
    | false, false => ["-f"; "-3"]
    | false, true => ["-f"; "-s"]
    | true, false => ["-f"; "-u"; "-3"]
    | true, true => ["-f"; "-u"; "-s"]
    end.
Proof.
  split.
  - unfold packages, expectedArgs, isNil, bind, perform, ret.
    destruct opts as [sys unin]; cbn [models.IncludeUninstalled models.IncludeSystem].
    destruct unin, sys; cbn [app];
      match goal with
      | |- context [adb.RunCommand ?c ?d ?cmd ?args ?w] =>
          destruct (adb.RunCommand c d cmd args w) as [[out [e |]] w']
      end; reflexivity.
  - destruct opts as [[|] [|]]; reflexivity.
Qed.

(* --------------------------------------------------------------------- *)
(** ** Device registry *)
(* --------------------------------------------------------------------- *)

Section RegistryFacts.

Context {W : Type}.
Variable client : adb.Adb W.

(** One turn of the loop: what it calls and the record it builds. *)
Lemma deviceOf_run (info : adb.DeviceInfo) (w : W) (log : list Call) :
  deviceOf client info (w, log) =
  match adb.State client (adb.DeviceWithSerial (adb.Serial info)) w with
  | ((_, Some _), w1) =>
      (degraded info,
       (w1, (log ++ [CallState (adb.DeviceWithSerial (adb.Serial info))])%list))
  | ((state, None), w1) =>
      let '(answer, w2) :=
        adb.RunCommand client (adb.DeviceWithSerial (adb.Serial info)) "getprop"
                       manufacturerProperty w1 in
      (enriched info state answer,
       (w2, (log ++ [CallState (adb.DeviceWithSerial (adb.Serial info));
                     CallRunCommand (adb.DeviceWithSerial (adb.Serial info)) "getprop"
                                    manufacturerProperty])%list))
  end.
Proof.
  unfold deviceOf, getDeviceManufacturer, getDevice, bind, perform, ret,
    manufacturerProperty.
  destruct (adb.State client (adb.DeviceWithSerial (adb.Serial info)) w)
    as [[state [e |]] w1].
  - reflexivity.
  - destruct (adb.RunCommand client (adb.DeviceWithSerial (adb.Serial info)) "getprop"
                             ["ro.product.manufacturer"] w1)
      as [[value [e |]] w2]; rewrite <- app_assoc; reflexivity.
Qed.

Lemma devicesLoop_enumerates (infos : list adb.DeviceInfo) :
  forall (acc : list models.Device) (w : W) (log : list Call),
  exists ds calls w',
    devicesLoop client infos acc (w, log) =
      ((acc ++ ds)%list, (w', (log ++ calls)%list)) /\
    Enumerates client w infos ds calls w'.
Proof.
  induction infos as [| info rest IH]; intros acc w log.
  - exists [], [], w. cbn. rewrite !app_nil_r. split; [reflexivity | constructor].
  - cbn [devicesLoop]. unfold bind at 1. rewrite deviceOf_run.
    destruct (adb.State client (adb.DeviceWithSerial (adb.Serial info)) w)
      as [[state [e |]] w1] eqn:Hstate.
    + destruct (IH (acc ++ [degraded info])%list w1
                   (log ++ [CallState (adb.DeviceWithSerial (adb.Serial info))])%list)
        as (ds & calls & w' & Hrun & Henum).
      exists (degraded info :: ds),
             (CallState (adb.DeviceWithSerial (adb.Serial info)) :: calls), w'.
      rewrite Hrun, <- !app_assoc. split; [reflexivity |].
      econstructor; eassumption.
    + destruct (adb.RunCommand client (adb.DeviceWithSerial (adb.Serial info)) "getprop"
                               manufacturerProperty w1)
        as [answer w2] eqn:Hprop.
      destruct (IH (acc ++ [enriched info state answer])%list w2
                   (log ++ [CallState (adb.DeviceWithSerial (adb.Serial info));
                            CallRunCommand (adb.DeviceWithSerial (adb.Serial info))
                                           "getprop" manufacturerProperty])%list)
        as (ds & calls & w' & Hrun & Henum).
      exists (enriched info state answer :: ds),
             (CallState (adb.DeviceWithSerial (adb.Serial info))
              :: CallRunCommand (adb.DeviceWithSerial (adb.Serial info)) "getprop"
                                manufacturerProperty :: calls), w'.
      rewrite Hrun, <- !app_assoc. split; [reflexivity |].
      econstructor; eassumption.
Qed.

Lemma convertState_defined (state : adb.DeviceState) :
  definedState (convertState state).
Proof.
  unfold definedState.
  destruct (convertState_cases state) as [[_ ->] | [[_ ->] | [[_ ->] | [_ ->]]]];
    tauto.
Qed.

(** Every record of an enumeration belongs to the entry at its place. *)
Lemma Enumerates_entries (w w' : W) (infos : list adb.DeviceInfo)
      (ds : list models.Device) (calls : list Call) :
  Enumerates client w infos ds calls w' ->
  Forall2 (fun info d =>
             models.Serial d = adb.Serial info /\
             models.Model d = adb.Model info /\
             definedState (models.State d))
          infos ds.
Proof.
  induction 1; constructor; try assumption;
    (repeat split; try reflexivity).
  - unfold definedState; cbn; tauto.
  - apply convertState_defined.
Qed.

Lemma Forall2_same_length {A B : Type} (R : A -> B -> Prop)
      (l : list A) (l' : list B) :
  Forall2 R l l' -> length l' = length l.
Proof. induction 1; cbn; congruence. Qed.

(** [devices], from the answer of [ListDevices]. *)
Lemma devices_run (w : W) (log : list Call) :
  match adb.ListDevices client w with
  | ((infos, None), w1) =>
      exists ds calls w',
        devices client (w, log) =
          ((ds, None), (w', (log ++ CallListDevices :: calls)%list)) /\
        Enumerates client w1 infos ds calls w'
  | ((_, Some e), w1) =>
      devices client (w, log) =
        (([], Some e), (w1, (log ++ [CallListDevices])%list))
  end.
Proof.
  unfold devices, bind, perform, ret. cbv beta iota.
  destruct (adb.ListDevices client w) as [[infos [e |]] w1];
    cbv beta iota; [reflexivity |].
  destruct (devicesLoop_enumerates infos [] w1 (log ++ [CallListDevices])%list)
    as (ds & calls & w' & Hrun & Henum).
  exists ds, calls, w'. split; [| exact Henum].
  rewrite Hrun, <- app_assoc. reflexivity.
Qed.

End RegistryFacts.

(** C1.  When the device list is retrieved, [devices] succeeds with one
    record per entry, in order, the queries of an entry being sent to the
    device of its serial: an entry whose state query fails gets
    state Unknown, manufacturer ["Unknown"] and [IsAuthorized] false, and
    costs no manufacturer read; an entry whose state query succeeds gets
    its normalised state and the manufacturer read for it, which is made
    exactly then and defaults to ["Unknown"] when it fails or is empty;
    every record is built from the answers for its own entry alone.
    [devices] fails only when the device list is not retrieved, and then
    queries no device. *)
Theorem devices_degrades_per_device {W : Type} (client : adb.Adb W)
        (w : W) (log : list Call) :
  match adb.ListDevices client w with
  | ((infos, None), w1) =>
      exists ds calls w',
        devices client (w, log) =
          ((ds, None), (w', (log ++ CallListDevices :: calls)%list)) /\
        Enumerates client w1 infos ds calls w' /\
        length ds = length infos
  | ((_, Some e), w1) =>
      devices client (w, log) =
        (([], Some e), (w1, (log ++ [CallListDevices])%list))
  end /\
  (forall info,
      models.State (degraded info) = models.DeviceStateUnknown /\
      models.Manufacturer (degraded info) = "Unknown" /\
      models.IsAuthorized (degraded info) = false) /\
  (forall value e, manufacturerOr (value, Some e) = "Unknown") /\
  (forall value,
      strings.TrimSpace value = "" -> manufacturerOr (value, None) = "Unknown").
Proof.
  split; [| repeat split].
  - pose proof (devices_run client w log) as H.
    destruct (adb.ListDevices client w) as [[infos [e |]] w1]; [exact H |].
    destruct H as (ds & calls & w' & Hrun & Henum).
    exists ds, calls, w'. repeat split; try assumption.
    exact (Forall2_same_length _ _ _ (Enumerates_entries client _ _ _ _ _ Henum)).
  - intros value Hempty. unfold manufacturerOr. now rewrite Hempty.
Qed.

(** Three devices, the second one's state query failing: three records,
    the second degraded, the first and third as they are when no query
    fails. *)
Example devices_three_one_failing :
  fst (devices (examples.fleet ["R58M123"]) (0, [])) =
    ([ {| models.Serial := "emulator-5554"; models.State := "online";
          models.Model := "Pixel_7"; models.Manufacturer := "Google";
          models.IsAuthorized := true |};
       {| models.Serial := "R58M123"; models.State := "unknown";
          models.Model := "SM_G960F"; models.Manufacturer := "Unknown";
          models.IsAuthorized := false |};
       {| models.Serial := "0a1b2c3d"; models.State := "online";
          models.Model := "Nexus_5"; models.Manufacturer := "Google";
          models.IsAuthorized := true |} ], None) /\
  (forall i, i <> 1 ->
     nth_error (fst (fst (devices (examples.fleet ["R58M123"]) (0, [])))) i =
     nth_error (fst (fst (devices (examples.fleet []) (0, [])))) i) /\
  snd (snd (devices (examples.fleet ["R58M123"]) (0, []))) =
    [ CallListDevices;
      CallState (adb.DeviceWithSerial "emulator-5554");
      CallRunCommand (adb.DeviceWithSerial "emulator-5554") "getprop" manufacturerProperty;
      CallState (adb.DeviceWithSerial "R58M123");
      CallState (adb.DeviceWithSerial "0a1b2c3d");
      CallRunCommand (adb.DeviceWithSerial "0a1b2c3d") "getprop" manufacturerProperty ].
Proof.
  split; [vm_compute; reflexivity |].
  split; [| vm_compute; reflexivity].
  intros [| [| [| i]]] Hi; try reflexivity. congruence.
Qed.

(* --------------------------------------------------------------------- *)
(** ** The cancellation race *)
(* --------------------------------------------------------------------- *)

Section RaceFacts.

Context {W A : Type}.
Variable call : M W (A * option error).
Variable zero : A.

Lemma run_app (c : config) (s1 s2 : list event) :
  run call zero c (s1 ++ s2) =
  match run call zero c s1 with
  | Some c' => run call zero c' s2
  | None => None
  end.
Proof.
  revert c; induction s1 as [| ev s1 IH]; intros c; cbn; [reflexivity |].
  destruct (step call zero c ev); [apply IH | reflexivity].
Qed.

Lemma step_inv (w : W) (c c' : config) (ev : event) :
  reachable_inv call zero w c -> step call zero c ev = Some c' ->
  reachable_inv call zero w c'.
Proof.
  unfold reachable_inv. intros [Hw Hc] Hstep.
  destruct c as [st ctx wk cl]; cbn in *.
  destruct ev; cbn in Hstep.
  - destruct ctx; [discriminate |]. injection Hstep as <-. cbn.
    split; [exact Hw |].
    destruct cl as [| r]; [exact I |].
    destruct Hc as [(e0 & He0 & _) | Hc]; [discriminate | now right].
  - destruct wk; try discriminate.
    destruct (call st) as [result st'] eqn:Hcall.
    injection Hstep as <-. cbn. subst st.
    split; [now rewrite Hcall | exact Hc].
  - destruct cl; [| discriminate]. destruct ctx as [e |]; [| discriminate].
    injection Hstep as <-. cbn. split.
    + destruct wk; try assumption. discriminate.
    + left. now exists e.
  - destruct cl; [| discriminate]. destruct wk; try discriminate.
    injection Hstep as <-. cbn. subst. split; [reflexivity | now right].
Qed.

Lemma run_inv (w : W) (schedule : list event) :
  forall c c', reachable_inv call zero w c ->
               run call zero c schedule = Some c' ->
               reachable_inv call zero w c'.
Proof.
  induction schedule as [| ev rest IH]; intros c c' Hinv Hrun; cbn in Hrun.
  - now injection Hrun as <-.
  - destruct (step call zero c ev) as [c1 |] eqn:Hstep; [| discriminate].
    eapply IH; [eapply step_inv |]; eassumption.
Qed.

Lemma start_inv (ctx : option ctxError) (w : W) :
  reachable_inv call zero w (start ctx w).
Proof. split; cbn; [reflexivity | exact I]. Qed.

(** A returned value is the context's error or the call's result. *)
Lemma returned_cases (ctx : option ctxError) (w : W)
      (schedule : list event) (result : A * option error) :
  returned call zero ctx w schedule = Some result ->
  (exists e, result = (zero, Some (Err e))) \/
  result = fst (call (w, [])).
Proof.
  unfold returned.
  destruct (run call zero (start ctx w) schedule) as [c |] eqn:Hrun;
    [| discriminate].
  pose proof (run_inv w schedule _ _ (start_inv ctx w) Hrun) as [_ Hc].
  destruct (theCaller c) as [| r]; [discriminate |].
  intros [= <-].
  destruct Hc as [(e & _ & ->) | ->]; [left; now exists e | now right].
Qed.

Lemma returned_after (ctx : option ctxError) (w : W)
      (schedule : list event) (c : config) (ev : event) :
  run call zero (start ctx w) schedule = Some c ->
  returned call zero ctx w (schedule ++ [ev]) =
  match step call zero c ev with
  | Some c' =>
      match theCaller c' with
      | Returned result => Some result
      | Waiting => None
      end
  | None => None
  end.
Proof.
  intros Hrun. unfold returned. rewrite run_app, Hrun. cbn.
  destruct (step call zero c ev); reflexivity.
Qed.

Lemma race_contract : RaceContract call zero (returned call zero).
Proof.
  intros ctx w schedule c Hrun Hwait.
  pose proof (run_inv w schedule _ _ (start_inv ctx w) Hrun) as [Hw _].
  rewrite !(returned_after ctx w schedule c _ Hrun).
  destruct c as [st cx wk cl]; cbn in *. subst cl.
  repeat split; intros; subst; cbn; try reflexivity.
  exact Hw.
Qed.

End RaceFacts.

(** C2 (as amended).  For each of [Version], [Devices] and [Packages] and
    every context: while the caller is in its [select], if the context is
    done and the call has not returned, the operation returns the zero
    value with [ctx.Err()] and does not wait for the call, and it cannot
    return the call's result; if the call has returned and the context is
    not done, the operation returns the call's value and error and cannot
    return [ctx.Err()]; if both have happened, either of the two may be
    returned; if neither has, the operation does not return.  [ctx.Err()]
    is [Canceled] or [DeadlineExceeded], never a transport error. *)
Theorem public_operations_race {W : Type} (client : adb.Adb W)
        (deviceId : string) (opts : models.ListPackageOptions) :
  RaceContract (serverVersion client) 0%Z (Version client) /\
  RaceContract (devices client) [] (Devices client) /\
  RaceContract (packages client deviceId opts) []
               (Packages client deviceId opts) /\
  (forall reason, is_context_error (Err reason) = true) /\
  (forall reason msg, Err reason <> TransportError msg).
Proof.
  split; [| split; [| split; [| split]]]; try apply race_contract.
  - now intros [|].
  - now intros [|].
Qed.

(** A context that is already cancelled and a call that returns before
    the caller's [select] runs: the cancellation has fired before the call
    completed, and the operation returns the call's value with no error. *)
Lemma Version_cancelled_context_returns_value :
  Version (examples.fleet []) (Some CtxCanceled) 0 [Complete; SelectResult] =
    Some (41%Z, None) /\
  Devices (examples.unreachable) (Some CtxCanceled) 0 [Complete; SelectResult] =
    Some ([], Some (TransportError "no server")) /\
  Version (examples.fleet []) None 0 [Complete; Cancel CtxCanceled; SelectDone] =
    Some (0%Z, Some Canceled).
Proof. repeat split. Qed.

Lemma public_operations_race_witness :
  Version (examples.fleet []) None 0 ([Cancel CtxDeadlineExceeded] ++ [SelectDone]) =
    Some (0%Z, Some DeadlineExceeded) /\
  Version (examples.fleet []) None 0 ([Cancel CtxDeadlineExceeded] ++ [SelectResult]) =
    None.
Proof.
  destruct (public_operations_race (examples.fleet []) "R58M123"
              {| models.IncludeSystem := false;
                 models.IncludeUninstalled := false |}) as [HVersion _].
  destruct (HVersion None 0 [Cancel CtxDeadlineExceeded] _ eq_refl eq_refl)
    as [Hdone _].
  exact (Hdone CtxDeadlineExceeded eq_refl eq_refl).
Defined.

(* --------------------------------------------------------------------- *)
(** ** What a successful enumeration returns *)
(* --------------------------------------------------------------------- *)

Lemma Enumerates_serials {W : Type} (client : adb.Adb W) (w w' : W)
      (infos : list adb.DeviceInfo) (ds : list models.Device)
      (calls : list Call) :
  Enumerates client w infos ds calls w' ->
  map models.Serial ds = map adb.Serial infos /\
  Forall (fun d => definedState (models.State d)) ds.
Proof.
  intros H. apply Enumerates_entries in H.
  induction H as [| info d infos ds (Hs & _ & Hd) _ [IH1 IH2]]; cbn.
  - split; [reflexivity | constructor].
  - split; [congruence | now constructor].
Qed.



(* --------------------------------------------------------------------- *)
(** ** The state watcher *)
(* --------------------------------------------------------------------- *)

Section WatcherFacts.

Variable deviceSerial : string.

Lemma watcherRun_app (s : watcher) (t1 t2 : list observation) :
  watcherRun deviceSerial s (t1 ++ t2) =
  match watcherRun deviceSerial s t1 with
  | Some s' => watcherRun deviceSerial s' t2
  | None => None
  end.
Proof.
  revert s; induction t1 as [| o t1 IH]; intros s; cbn; [reflexivity |].
  destruct (watcherStep deviceSerial s o); [apply IH | reflexivity].
Qed.

Lemma matching_app (t1 t2 : list observation) :
  matching deviceSerial (t1 ++ t2) =
  (matching deviceSerial t1 ++ matching deviceSerial t2)%list.
Proof.
  induction t1 as [| o t1 IH]; cbn; [reflexivity |].
  destruct o as [| ev now | |]; try exact IH.
  destruct (String.eqb (adb.EventSerial ev) deviceSerial); cbn;
    now rewrite IH.
Qed.

(** A trace that the watcher accepts, cut before its last observation. *)
Lemma TrackDeviceStates_snoc (trace : list observation) (o : observation)
      (s : watcher) :
  TrackDeviceStates deviceSerial (trace ++ [o]) = Some s ->
  exists s0, TrackDeviceStates deviceSerial trace = Some s0 /\
             watcherStep deviceSerial s0 o = Some s.
Proof.
  unfold TrackDeviceStates. rewrite watcherRun_app.
  destruct (watcherRun deviceSerial _ trace) as [s0 |]; [| discriminate].
  cbn. destruct (watcherStep deviceSerial s0 o) as [s1 |] eqn:E;
    [| discriminate].
  intros [= <-]. now exists s0.
Qed.

Lemma TrackDeviceStates_accounted (trace : list observation) :
  forall s, TrackDeviceStates deviceSerial trace = Some s ->
            accounted deviceSerial trace s.
Proof.
  induction trace as [| o trace IH] using rev_ind; intros s Hrun.
  - injection Hrun as <-. exists []. cbn. auto.
  - apply TrackDeviceStates_snoc in Hrun as (s0 & Hrun0 & Hstep).
    destruct (IH s0 Hrun0) as (pending & Heq & Hpc).
    unfold accounted, changesOf in *.
    rewrite matching_app, map_app, Heq.
    unfold watcherStep in Hstep.
    destruct s0 as [pc0 em0 cl0]; cbn [pc emitted closes] in *.
    destruct pc0 as [| sc |]; destruct o as [| ev now | |];
      try discriminate Hstep.
    + destruct Hpc as [-> ->]. injection Hstep as <-.
      exists []. cbn. rewrite !app_nil_r.
      split; [reflexivity |]. split; [reflexivity |].
      exists trace, ObsDone. split; [reflexivity | left; auto].
    + destruct Hpc as [-> ->]. cbn [matching].
      destruct (String.eqb (adb.EventSerial ev) deviceSerial);
        injection Hstep as <-; cbn; rewrite ?app_nil_r.
      * exists [stateChangeOf deviceSerial ev now]. auto.
      * exists []. rewrite app_nil_r. auto.
    + destruct Hpc as [-> ->]. injection Hstep as <-.
      exists []. cbn. rewrite !app_nil_r.
      split; [reflexivity |]. split; [reflexivity |].
      exists trace, ObsUpstreamClosed. split; [reflexivity | left; auto].
    + destruct Hpc as [-> ->]. injection Hstep as <-.
      exists [sc]. cbn. rewrite !app_nil_r.
      split; [reflexivity |]. split; [reflexivity |].
      exists trace, ObsDone. split; [reflexivity |]. right. now exists sc.
    + destruct Hpc as [-> ->]. injection Hstep as <-.
      exists []. cbn. rewrite !app_nil_r. auto.
Qed.

Lemma matching_In (trace : list observation)
      (p : adb.DeviceStateChangedEvent * Z) :
  In p (matching deviceSerial trace) ->
  In (ObsEvent (fst p) (snd p)) trace /\
  adb.EventSerial (fst p) = deviceSerial.
Proof.
  induction trace as [| o trace IH]; cbn; [tauto |].
  destruct o as [| ev now | |]; try (intros H; split; [right |]; now apply IH).
  destruct (String.eqb_spec (adb.EventSerial ev) deviceSerial) as [E | _].
  - intros [<- | H]; [cbn; auto |]. split; [right |]; now apply IH.
  - intros H. split; [right |]; now apply IH.
Qed.

(** With no cancellation and a consumer that takes every change, the
    watcher runs to the end of the upstream and closes the stream. *)
Lemma uncancelled_run (events : list (adb.DeviceStateChangedEvent * Z)) :
  forall em,
    watcherRun deviceSerial {| pc := AtSelect; emitted := em; closes := 0 |}
               (uncancelledTrace deviceSerial events) =
    Some {| pc := Done;
            emitted :=
              (em ++ changesOf deviceSerial
                       (filter (fun p => String.eqb (adb.EventSerial (fst p))
                                                    deviceSerial) events))%list;
            closes := 1 |}.
Proof.
  unfold uncancelledTrace, changesOf.
  induction events as [| [ev now] events IH]; intros em; cbn.
  - now rewrite app_nil_r.
  - destruct (String.eqb (adb.EventSerial ev) deviceSerial) eqn:E; cbn;
      unfold watcherStep; cbn; rewrite E; cbn.
    + rewrite IH, <- app_assoc. reflexivity.
    + apply IH.
Qed.

End WatcherFacts.

Lemma watcher_accounted_changes (deviceSerial : string)
      (trace : list observation) (s : watcher) :
  TrackDeviceStates deviceSerial trace = Some s ->
  exists pending,
    changesOf deviceSerial (matching deviceSerial trace) =
      (emitted s ++ pending)%list.
Proof.
  intros Hrun.
  destruct (TrackDeviceStates_accounted deviceSerial trace s Hrun)
    as (pending & Heq & _).
  now exists pending.
Qed.

Lemma deliveries_emitted (deviceSerial : string)
      (timed : list (observation * Z)) :
  forall s0 s,
    watcherRun deviceSerial s0 (map fst timed) = Some s ->
    emitted s =
      (emitted s0 ++ map fst (deliveries deviceSerial s0 timed))%list.
Proof.
  induction timed as [| [o t] rest IH]; intros s0 s Hrun.
  - injection Hrun as <-. cbn. now rewrite app_nil_r.
  - cbn [map fst watcherRun] in Hrun. cbn [deliveries].
    destruct (watcherStep deviceSerial s0 o) as [s1 |] eqn:Hstep;
      [| discriminate].
    rewrite (IH s1 s Hrun). unfold watcherStep in Hstep.
    destruct (pc s0) as [| stateChange |], o; try discriminate Hstep.
    + now injection Hstep as <-.
    + destruct (String.eqb (adb.EventSerial ev) deviceSerial);
        now injection Hstep as <-.
    + now injection Hstep as <-.
    + now injection Hstep as <-.
    + injection Hstep as <-. cbn [emitted map fst].
      now rewrite <- app_assoc.
Qed.

Lemma deliveries_after_stamp (deviceSerial : string)
      (timed : list (observation * Z)) :
  forall s0 clock,
    chronological deviceSerial clock timed = true ->
    (forall stateChange,
        pc s0 = AtDelivery stateChange ->
        (models.Timestamp stateChange <= clock)%Z) ->
    Forall (fun d => (models.Timestamp (fst d) <= snd d)%Z)
           (deliveries deviceSerial s0 timed).
Proof.
  induction timed as [| [o t] rest IH]; intros s0 clock Hchron Hinv;
    [constructor |].
  cbn [chronological] in Hchron.
  apply andb_true_iff in Hchron as [Hclock Hrest]. apply Z.leb_le in Hclock.
  cbn [deliveries].
  destruct (watcherStep deviceSerial s0 o) as [s1 |] eqn:Hstep;
    [| constructor].
  unfold watcherStep in Hstep.
  destruct (pc s0) as [| stateChange |] eqn:Hpc, o; try discriminate Hstep.
  - injection Hstep as <-. apply (IH _ t Hrest). cbn. discriminate.
  - destruct (String.eqb (adb.EventSerial ev) deviceSerial).
    + apply andb_true_iff in Hrest as [Hnow Hrest]. injection Hstep as <-.
      apply (IH _ now Hrest). cbn. intros sc [= <-]. cbn. lia.
    + injection Hstep as <-. apply (IH _ t Hrest).
      intros sc Hsc. rewrite Hpc in Hsc. discriminate Hsc.
  - injection Hstep as <-. apply (IH _ t Hrest). cbn. discriminate.
  - injection Hstep as <-. apply (IH _ t Hrest). cbn. discriminate.
  - injection Hstep as <-. constructor.
    + cbn. specialize (Hinv stateChange eq_refl). lia.
    + apply (IH _ t Hrest). cbn. discriminate.
Qed.

(** C7 (as amended).  For a watcher of serial X: the changes it has
    emitted are, in the order of the upstream, the changes of the events
    with serial X that it has received, each emitted once, with serial X,
    the normalised old and new states and, as its timestamp, the reading
    of the clock taken when the watcher built the change, before it
    offered it; an event with another serial produces none.  The only
    event with serial X that can lack its change is the last one
    received: it is still awaiting delivery, or a cancellation won the
    delivery race, in which case it produces none and the watcher
    returns.  The changes emitted are those delivered, and on a clock
    that does not go back the timestamp of a change is never later than
    its delivery. *)
Theorem watcher_emits_matching_events (deviceSerial : string)
        (trace : list observation) (s : watcher) :
  TrackDeviceStates deviceSerial trace = Some s ->
  exists pending,
    changesOf deviceSerial (matching deviceSerial trace) =
      (emitted s ++ pending)%list /\
    (pc s = AtSelect -> pending = []) /\
    (forall stateChange, pc s = AtDelivery stateChange ->
                         pending = [stateChange]) /\
    (pc s = Done ->
       pending = [] \/
       exists stateChange before,
         pending = [stateChange] /\ trace = (before ++ [ObsDone])%list) /\
    (forall stateChange,
        In stateChange (emitted s) ->
        exists ev now,
          In (ObsEvent ev now) trace /\
          adb.EventSerial ev = deviceSerial /\
          stateChange =
            {| models.ChangeSerial := deviceSerial;
               models.OldState := convertState (adb.OldState ev);
               models.NewState := convertState (adb.NewState ev);
               models.Timestamp := now |}) /\
    (forall timed,
        map fst timed = trace ->
        map fst (deliveredAt deviceSerial timed) = emitted s /\
        forall clock,
          chronological deviceSerial clock timed = true ->
          Forall (fun d => (models.Timestamp (fst d) <= snd d)%Z)
                 (deliveredAt deviceSerial timed)).
Proof.
  intros Hrun.
  destruct (TrackDeviceStates_accounted deviceSerial trace s Hrun)
    as (pending & Heq & Hpc).
  exists pending. split; [exact Heq |].
  split; [| split; [| split; [| split]]].
  - intros E. rewrite E in Hpc. tauto.
  - intros sc E. rewrite E in Hpc. tauto.
  - intros E. rewrite E in Hpc.
    destruct Hpc as (_ & before & last & Ht & [[Hp _] | (sc & Hp & Hl)]).
    + now left.
    + right. exists sc, before. subst. auto.
  - intros sc Hin.
    assert (Hin' : In sc (changesOf deviceSerial (matching deviceSerial trace)))
      by (rewrite Heq; apply in_or_app; now left).
    unfold changesOf in Hin'. apply in_map_iff in Hin' as ([ev now] & <- & Hm).
    apply matching_In in Hm as [Hobs Hser].
    exists ev, now. auto.
  - intros timed <-. unfold TrackDeviceStates in Hrun. split.
    + now rewrite (deliveries_emitted deviceSerial timed _ s Hrun).
    + intros clock Hchron.
      apply (deliveries_after_stamp deviceSerial timed _ clock Hchron).
      cbn. discriminate.
Qed.

Lemma watcher_emits_matching_events_witness :
  exists pending,
    changesOf "R58M123"
      (matching "R58M123"
         [ObsEvent (examples.eventFor "0a1b2c3d" adb.StateOffline adb.StateOnline) 5;
          ObsEvent (examples.eventFor "R58M123" adb.StateOffline adb.StateOnline) 7;
          ObsDelivered]) =
    ([ {| models.ChangeSerial := "R58M123"; models.OldState := "offline";
          models.NewState := "online"; models.Timestamp := 7%Z |} ]
       ++ pending)%list /\
    pending = [].
Proof.
  destruct (watcher_emits_matching_events "R58M123"
              [ObsEvent (examples.eventFor "0a1b2c3d" adb.StateOffline adb.StateOnline) 5;
               ObsEvent (examples.eventFor "R58M123" adb.StateOffline adb.StateOnline) 7;
               ObsDelivered]
              {| pc := AtSelect;
                 emitted :=
                   [ {| models.ChangeSerial := "R58M123";
                        models.OldState := "offline";
                        models.NewState := "online";
                        models.Timestamp := 7%Z |} ];
                 closes := 0 |} eq_refl)
    as (pending & Heq & Hsel & _).
  exists pending. split; [exact Heq | exact (Hsel eq_refl)].
Defined.

(** An event with the watched serial is received and the cancellation
    wins the delivery race: nothing is emitted for it.  And a change
    built at reading 7 that the consumer takes at reading 9 carries the
    timestamp 7, not the time of its delivery. *)
Lemma watcher_delivery_race_and_timestamp :
  TrackDeviceStates "R58M123"
    [ObsEvent (examples.eventFor "R58M123" adb.StateOffline adb.StateOnline) 7;
     ObsDone] =
  Some {| pc := Done; emitted := []; closes := 1 |} /\
  chronological "R58M123" 0
    [(ObsEvent (examples.eventFor "R58M123" adb.StateOffline adb.StateOnline) 7,
      7%Z);
     (ObsDelivered, 9%Z)] = true /\
  deliveredAt "R58M123"
    [(ObsEvent (examples.eventFor "R58M123" adb.StateOffline adb.StateOnline) 7,
      7%Z);
     (ObsDelivered, 9%Z)] =
  [ ({| models.ChangeSerial := "R58M123"; models.OldState := "offline";
        models.NewState := "online"; models.Timestamp := 7%Z |}, 9%Z) ].
Proof. repeat split. Qed.

(** C8 (as amended).  The watcher's stream is closed when the goroutine
    observes the cancellation or the closure of the upstream, whichever
    it observes first, and in no other case; it is closed once and
    nothing happens after.  From every state that is not closed the
    cancellation closes it; the closure of the upstream closes it, with
    no cancellation, at the loop's [select] only: a watcher that is
    offering a change can do nothing but deliver it or be cancelled, and
    closes on the closed upstream once the consumer has taken the change.
    A watcher that is never cancelled and whose consumer keeps reading
    runs to the closure of the upstream and closes its stream. *)
Theorem watcher_closes_once (deviceSerial : string)
        (trace : list observation) (s : watcher) :
  TrackDeviceStates deviceSerial trace = Some s ->
  (pc s = Done <->
   exists before last,
     trace = (before ++ [last])%list /\
     (last = ObsDone \/ last = ObsUpstreamClosed)) /\
  closes s = match pc s with Done => 1 | _ => 0 end /\
  (pc s = Done -> forall o, watcherStep deviceSerial s o = None) /\
  (pc s <> Done ->
   exists s', watcherStep deviceSerial s ObsDone = Some s' /\
              pc s' = Done /\ closes s' = 1 /\ emitted s' = emitted s) /\
  (pc s = AtSelect ->
   exists s', watcherStep deviceSerial s ObsUpstreamClosed = Some s' /\
              pc s' = Done /\ closes s' = 1 /\ emitted s' = emitted s) /\
  (forall stateChange,
      pc s = AtDelivery stateChange ->
      exists s', watcherRun deviceSerial s [ObsDelivered; ObsUpstreamClosed]
                 = Some s' /\
                 pc s' = Done /\ closes s' = 1 /\
                 emitted s' = (emitted s ++ [stateChange])%list) /\
  (forall events,
      exists s', TrackDeviceStates deviceSerial
                   (uncancelledTrace deviceSerial events) = Some s' /\
                 pc s' = Done /\ closes s' = 1 /\
                 emitted s' =
                   changesOf deviceSerial
                     (filter (fun p => String.eqb (adb.EventSerial (fst p))
                                                  deviceSerial) events)) /\
  (forall stateChange o,
      pc s = AtDelivery stateChange ->
      o <> ObsDelivered -> o <> ObsDone ->
      watcherStep deviceSerial s o = None).
Proof.
  intros Hrun.
  destruct (TrackDeviceStates_accounted deviceSerial trace s Hrun)
    as (pending & _ & Hpc).
  assert (Hcloses : closes s = match pc s with Done => 1 | _ => 0 end).
  { destruct (pc s); tauto. }
  split; [| split; [exact Hcloses |]].
  - split.
    + intros E. rewrite E in Hpc.
      destruct Hpc as (_ & before & last & Ht & [[_ Hl] | (sc & _ & Hl)]);
        exists before, last; split; auto.
    + intros (before & last & -> & Hl).
      apply TrackDeviceStates_snoc in Hrun as (s0 & _ & Hstep).
      unfold watcherStep in Hstep.
      destruct Hl as [-> | ->]; destruct (pc s0);
        try discriminate Hstep; injection Hstep as <-; reflexivity.
  - destruct s as [pcs em cl]; cbn [pc emitted closes] in *.
    repeat split.
    + intros -> o. now destruct o.
    + intros Hlive. destruct pcs as [| sc |]; [| | congruence];
        subst cl; eexists; cbn; repeat split.
    + intros ->. subst cl. eexists; cbn; repeat split.
    + intros sc ->. subst cl. eexists; cbn; repeat split.
    + intros events. eexists. unfold TrackDeviceStates.
      rewrite uncancelled_run. cbn. repeat split.
    + intros sc o -> Hdelivered Hdone. unfold watcherStep. cbn [pc].
      destruct o; try reflexivity; [now contradiction Hdone
                                   | now contradiction Hdelivered].
Qed.

Lemma watcher_closes_once_witness :
  TrackDeviceStates "R58M123"
    (uncancelledTrace "R58M123"
       [(examples.eventFor "0a1b2c3d" adb.StateOffline adb.StateOnline, 5%Z);
        (examples.eventFor "R58M123" adb.StateOffline adb.StateOnline, 7%Z)]) =
    Some {| pc := Done;
            emitted :=
              [ {| models.ChangeSerial := "R58M123";
                   models.OldState := "offline";
                   models.NewState := "online";
                   models.Timestamp := 7%Z |} ];
            closes := 1 |} /\
  forall o,
    watcherStep "R58M123"
      {| pc := Done;
         emitted :=
           [ {| models.ChangeSerial := "R58M123";
                models.OldState := "offline";
                models.NewState := "online";
                models.Timestamp := 7%Z |} ];
         closes := 1 |} o = None.
Proof.
  split; [reflexivity |].
  exact (proj1 (proj2 (proj2
    (watcher_closes_once "R58M123"
       (uncancelledTrace "R58M123"
          [(examples.eventFor "0a1b2c3d" adb.StateOffline adb.StateOnline, 5%Z);
           (examples.eventFor "R58M123" adb.StateOffline adb.StateOnline, 7%Z)])
       {| pc := Done;
          emitted :=
            [ {| models.ChangeSerial := "R58M123";
                 models.OldState := "offline";
                 models.NewState := "online";
                 models.Timestamp := 7%Z |} ];
          closes := 1 |} eq_refl))) eq_refl).
Defined.

(** The upstream is closed while the watcher offers a change to a
    consumer that is not receiving, and the context is not cancelled: the
    closure is not a step of the watcher, and the stream stays open. *)
Lemma watcher_blocked_delivery_misses_upstream_closure :
  TrackDeviceStates "R58M123"
    [ObsEvent (examples.eventFor "R58M123" adb.StateOffline adb.StateOnline) 7] =
  Some {| pc := AtDelivery
                  {| models.ChangeSerial := "R58M123";
                     models.OldState := "offline";
                     models.NewState := "online";
                     models.Timestamp := 7%Z |};
          emitted := []; closes := 0 |} /\
  watcherStep "R58M123"
    {| pc := AtDelivery
               {| models.ChangeSerial := "R58M123";
                  models.OldState := "offline";
                  models.NewState := "online";
                  models.Timestamp := 7%Z |};
       emitted := []; closes := 0 |} ObsUpstreamClosed = None /\
  TrackDeviceStates "R58M123"
    [ObsEvent (examples.eventFor "R58M123" adb.StateOffline adb.StateOnline) 7;
     ObsUpstreamClosed] = None.
Proof. repeat split. Qed.

(* --------------------------------------------------------------------- *)
(** ** The Booting state *)
(* --------------------------------------------------------------------- *)

Lemma definedState_not_booting (s : models.DeviceState) :
  definedState s -> s <> models.DeviceStateBooting.
Proof. intros [-> | [-> | [-> | ->]]]; discriminate. Qed.

Lemma convertState_not_booting (state : adb.DeviceState) :
  convertState state <> models.DeviceStateBooting.
Proof. apply definedState_not_booting, convertState_defined. Qed.

Lemma devices_not_booting {W : Type} (client : adb.Adb W) (w : W)
      (log : list Call) :
  Forall (fun d => models.State d <> models.DeviceStateBooting)
         (fst (fst (devices client (w, log)))).
Proof.
  pose proof (devices_run client w log) as H.
  destruct (adb.ListDevices client w) as [[infos [e |]] w1].
  - rewrite H. constructor.
  - destruct H as (ds & calls & w' & -> & Henum). cbn [fst].
    apply Enumerates_serials in Henum as [_ Hdef].
    eapply Forall_impl; [| exact Hdef].
    intros d. apply definedState_not_booting.
Qed.

(** C10.  [convertState] never returns Booting, whatever the raw state;
    so no Device returned by [devices] or by [Devices], and no change
    emitted by a watcher, carries the Booting state. *)
Theorem booting_is_never_produced :
  (forall state, convertState state <> models.DeviceStateBooting) /\
  (forall (W : Type) (client : adb.Adb W) (w : W) (log : list Call),
      Forall (fun d => models.State d <> models.DeviceStateBooting)
             (fst (fst (devices client (w, log))))) /\
  (forall (W : Type) (client : adb.Adb W) (ctx : option ctxError) (w : W)
          (schedule : list event) (ds : list models.Device)
          (err : option error),
      Devices client ctx w schedule = Some (ds, err) ->
      Forall (fun d => models.State d <> models.DeviceStateBooting) ds) /\
  (forall (deviceSerial : string) (trace : list observation) (s : watcher),
      TrackDeviceStates deviceSerial trace = Some s ->
      Forall (fun stateChange =>
                models.OldState stateChange <> models.DeviceStateBooting /\
                models.NewState stateChange <> models.DeviceStateBooting)
             (emitted s)).
Proof.
  split; [exact convertState_not_booting |].
  split; [intros; apply devices_not_booting |].
  split.
  - intros W client ctx w schedule ds err Hret.
    apply returned_cases in Hret as [(e & He) | Hres].
    + injection He as -> _. constructor.
    + pose proof (devices_not_booting client w []) as H.
      rewrite <- Hres in H. exact H.
  - intros deviceSerial trace s Hrun.
    destruct (watcher_accounted_changes deviceSerial trace s Hrun)
      as (pending & Heq).
    assert (Hall : Forall (fun stateChange =>
                models.OldState stateChange <> models.DeviceStateBooting /\
                models.NewState stateChange <> models.DeviceStateBooting)
              (changesOf deviceSerial (matching deviceSerial trace))).
    { unfold changesOf. apply Forall_forall. intros sc Hin.
      apply in_map_iff in Hin as (p & <- & _). cbn.
      split; apply convertState_not_booting. }
    rewrite Heq in Hall. now apply Forall_app in Hall.
Qed.

(* ===================================================================== *)
(** * Further properties *)
(* ===================================================================== *)

(* --------------------------------------------------------------------- *)
(** ** Trimming *)
(* --------------------------------------------------------------------- *)

Section TrimFacts.

Import strings.

Lemma TrimLeftSpace_step (s : string) :
  TrimLeftSpace s = s \/
  exists pre r, s = pre ++ r /\ String.length pre <> 0 /\
                TrimLeftSpace s = TrimLeftSpace r.
Proof.
  destruct s as [| b1 r1]; [now left |].
  cbn [TrimLeftSpace].
  destruct (asciiSpace b1).
  { right. exists (String b1 ""), r1. cbn. auto. }
  destruct r1 as [| b2 r2]; [now left |].
  destruct (space2 b1 b2).
  { right. exists (String b1 (String b2 "")), r2. cbn. auto. }
  destruct r2 as [| b3 r3]; [now left |].
  destruct (space3 b1 b2 b3); [| now left].
  right. exists (String b1 (String b2 (String b3 ""))), r3. cbn. auto.
Qed.

Lemma TrimLeftSpace_suffix (s : string) :
  exists pre, s = pre ++ TrimLeftSpace s.
Proof.
  remember (String.length s) as n eqn:Hn.
  revert s Hn. induction n as [n IH] using lt_wf_ind. intros s Hn.
  destruct (TrimLeftSpace_step s) as [E | (pre & r & Hs & Hpre & E)].
  - exists "". now rewrite E.
  - assert (Hlen : String.length r < n).
    { subst n s. rewrite length_app. lia. }
    destruct (IH _ Hlen r eq_refl) as [pre' Hr].
    exists (pre ++ pre'). rewrite E, app_assoc_string, <- Hr. exact Hs.
Qed.

Lemma TrimLeftSpace_length (s : string) :
  String.length (TrimLeftSpace s) <= String.length s.
Proof.
  destruct (TrimLeftSpace_suffix s) as [pre H].
  rewrite H at 2. rewrite length_app. lia.
Qed.

Lemma app_length_same (pre s : string) : pre ++ s = s -> pre = "".
Proof.
  intros H. apply (f_equal String.length) in H. rewrite length_app in H.
  destruct pre; [reflexivity | cbn in H; lia].
Qed.

Lemma TrimLeftSpace_fixed (s : string) :
  String.length (TrimLeftSpace s) = String.length s -> TrimLeftSpace s = s.
Proof.
  intros H. destruct (TrimLeftSpace_suffix s) as [pre Hs].
  assert (pre = "").
  { apply (f_equal String.length) in Hs. rewrite length_app in Hs.
    destruct pre; [reflexivity | cbn in Hs; lia]. }
  subst pre. now rewrite Hs at 2.
Qed.

Lemma TrimLeftSpace_idempotent (s : string) :
  TrimLeftSpace (TrimLeftSpace s) = TrimLeftSpace s.
Proof.
  remember (String.length s) as n eqn:Hn.
  revert s Hn. induction n as [n IH] using lt_wf_ind. intros s Hn.
  destruct (TrimLeftSpace_step s) as [E | (pre & r & Hs & Hpre & E)].
  - now rewrite !E.
  - rewrite E. apply (IH (String.length r)); [| reflexivity].
    subst n s. rewrite length_app. lia.
Qed.

Lemma trimRevSpace_step (l : list ascii) :
  trimRevSpace l = l \/
  exists pre r, l = (pre ++ r)%list /\ List.length pre <> 0 /\
                trimRevSpace l = trimRevSpace r.
Proof.
  destruct l as [| b1 r1]; [now left |].
  cbn [trimRevSpace].
  destruct (asciiSpace b1).
  { right. exists [b1], r1. cbn. auto. }
  destruct r1 as [| b2 r2]; [now left |].
  destruct (space2 b2 b1).
  { right. exists [b1; b2], r2. cbn. auto. }
  destruct r2 as [| b3 r3]; [now left |].
  destruct (space3 b3 b2 b1); [| now left].
  right. exists [b1; b2; b3], r3. cbn. auto.
Qed.

Lemma trimRevSpace_suffix (l : list ascii) :
  exists pre, l = (pre ++ trimRevSpace l)%list.
Proof.
  remember (List.length l) as n eqn:Hn.
  revert l Hn. induction n as [n IH] using lt_wf_ind. intros l Hn.
  destruct (trimRevSpace_step l) as [E | (pre & r & Hs & Hpre & E)].
  - exists []. now rewrite E.
  - assert (Hlen : List.length r < n).
    { subst n l. rewrite List.length_app. lia. }
    destruct (IH _ Hlen r eq_refl) as [pre' Hr].
    exists (pre ++ pre')%list. rewrite E, <- app_assoc, <- Hr. exact Hs.
Qed.

Lemma trimRevSpace_length (l : list ascii) :
  List.length (trimRevSpace l) <= List.length l.
Proof.
  destruct (trimRevSpace_suffix l) as [pre H].
  rewrite H at 2. rewrite List.length_app. lia.
Qed.

Lemma trimRevSpace_fixed (l : list ascii) :
  List.length (trimRevSpace l) = List.length l -> trimRevSpace l = l.
Proof.
  intros H. destruct (trimRevSpace_suffix l) as [pre Hs].
  assert (pre = []).
  { apply (f_equal (@List.length ascii)) in Hs. rewrite List.length_app in Hs.
    destruct pre; [reflexivity | cbn in Hs; lia]. }
  subst pre. now rewrite Hs at 2.
Qed.

Lemma trimRevSpace_idempotent (l : list ascii) :
  trimRevSpace (trimRevSpace l) = trimRevSpace l.
Proof.
  remember (List.length l) as n eqn:Hn.
  revert l Hn. induction n as [n IH] using lt_wf_ind. intros l Hn.
  destruct (trimRevSpace_step l) as [E | (pre & r & Hs & Hpre & E)].
  - now rewrite !E.
  - rewrite E. apply (IH (List.length r)); [| reflexivity].
    subst n l. rewrite List.length_app. lia.
Qed.

(* strings and lists of bytes *)
Lemma list_of_app (a b : string) :
  list_ascii_of_string (a ++ b) =
  (list_ascii_of_string a ++ list_ascii_of_string b)%list.
Proof. induction a as [| c a IH]; cbn; [reflexivity | now rewrite IH]. Qed.

Lemma string_of_app (a b : list ascii) :
  string_of_list_ascii (a ++ b) =
  string_of_list_ascii a ++ string_of_list_ascii b.
Proof. induction a as [| c a IH]; cbn; [reflexivity | now rewrite IH]. Qed.

Lemma length_list_of (s : string) :
  List.length (list_ascii_of_string s) = String.length s.
Proof. induction s; cbn; congruence. Qed.

Lemma length_string_of (l : list ascii) :
  String.length (string_of_list_ascii l) = List.length l.
Proof. induction l; cbn; congruence. Qed.

Lemma TrimRightSpace_rev (s : string) :
  TrimRightSpace s =
  string_of_list_ascii (rev (trimRevSpace (rev (list_ascii_of_string s)))).
Proof. unfold TrimRightSpace, rev'. now rewrite <- !rev_alt. Qed.

Lemma TrimRightSpace_prefix (s : string) :
  exists post, s = TrimRightSpace s ++ post.
Proof.
  rewrite TrimRightSpace_rev.
  destruct (trimRevSpace_suffix (rev (list_ascii_of_string s))) as [pre H].
  exists (string_of_list_ascii (rev pre)).
  rewrite <- string_of_app, <- rev_app_distr, <- H, rev_involutive.
  now rewrite string_of_list_ascii_of_string.
Qed.

Lemma TrimSpace_substring (s : string) :
  exists pre post, s = pre ++ TrimSpace s ++ post.
Proof.
  unfold TrimSpace.
  destruct (TrimLeftSpace_suffix s) as [pre Hpre].
  destruct (TrimRightSpace_prefix (TrimLeftSpace s)) as [post Hpost].
  exists pre, post. now rewrite <- Hpost.
Qed.

Lemma TrimRightSpace_length (s : string) :
  String.length (TrimRightSpace s) <= String.length s.
Proof.
  destruct (TrimRightSpace_prefix s) as [post H].
  rewrite H at 2. rewrite length_app. lia.
Qed.

Lemma TrimRightSpace_fixed_rev (s : string) :
  TrimRightSpace s = s <->
  trimRevSpace (rev (list_ascii_of_string s)) = rev (list_ascii_of_string s).
Proof.
  rewrite TrimRightSpace_rev. split; intros H.
  - apply (f_equal list_ascii_of_string) in H.
    rewrite list_ascii_of_string_of_list_ascii in H.
    apply (f_equal (@rev ascii)) in H. now rewrite rev_involutive in H.
  - rewrite H, rev_involutive. apply string_of_list_ascii_of_string.
Qed.

(** A trimmed string is fixed by both halves of [TrimSpace]. *)
Lemma TrimSpace_fixed (s : string) :
  TrimSpace s = s -> TrimLeftSpace s = s /\ TrimRightSpace s = s.
Proof.
  unfold TrimSpace. intros H.
  assert (Hl : TrimLeftSpace s = s).
  { apply TrimLeftSpace_fixed.
    pose proof (TrimLeftSpace_length s).
    pose proof (TrimRightSpace_length (TrimLeftSpace s)).
    rewrite H in *. lia. }
  split; [exact Hl |]. now rewrite Hl in H.
Qed.

Lemma TrimLeftSpace_prefix_fixed (t post : string) :
  TrimLeftSpace (t ++ post) = t ++ post -> TrimLeftSpace t = t.
Proof.
  intros H.
  destruct t as [| b1 r1]; [reflexivity |].
  cbn [append TrimLeftSpace] in *.
  destruct (asciiSpace b1).
  { pose proof (TrimLeftSpace_length (r1 ++ post)) as Hl.
    rewrite H in Hl. cbn in Hl. lia. }
  destruct r1 as [| b2 r2]; [reflexivity |].
  cbn [append] in *.
  destruct (space2 b1 b2).
  { pose proof (TrimLeftSpace_length (r2 ++ post)) as Hl.
    rewrite H in Hl. cbn in Hl. lia. }
  destruct r2 as [| b3 r3]; [reflexivity |].
  cbn [append] in *.
  destruct (space3 b1 b2 b3); [| reflexivity].
  pose proof (TrimLeftSpace_length (r3 ++ post)) as Hl.
  rewrite H in Hl. cbn in Hl. lia.
Qed.

Lemma TrimSpace_idempotent (s : string) :
  TrimSpace (TrimSpace s) = TrimSpace s.
Proof.
  unfold TrimSpace at 1.
  assert (Hl : TrimLeftSpace (TrimSpace s) = TrimSpace s).
  { unfold TrimSpace.
    destruct (TrimRightSpace_prefix (TrimLeftSpace s)) as [post Hpost].
    apply (TrimLeftSpace_prefix_fixed _ post).
    rewrite <- Hpost. apply TrimLeftSpace_idempotent. }
  rewrite Hl. unfold TrimSpace.
  apply TrimRightSpace_fixed_rev.
  rewrite TrimRightSpace_rev, list_ascii_of_string_of_list_ascii, rev_involutive.
  apply trimRevSpace_idempotent.
Qed.

(* the byte "=" is no part of a white-space rune *)
Lemma asciiSpace_eq : asciiSpace "=" = false.
Proof. reflexivity. Qed.

Ltac split_tests :=
  repeat match goal with
         | |- context [Nat.eqb (nat_of_ascii ?b) ?k] =>
             is_var b; destruct (Nat.eqb (nat_of_ascii b) k)
         | |- context [Nat.leb (nat_of_ascii ?b) ?k] =>
             is_var b; destruct (Nat.leb (nat_of_ascii b) k)
         | |- context [Nat.leb ?k (nat_of_ascii ?b)] =>
             is_var b; destruct (Nat.leb k (nat_of_ascii b))
         end.

Lemma space2_eq_last (b : ascii) : space2 b "=" = false.
Proof. unfold space2; cbn; split_tests; reflexivity. Qed.

Lemma space2_eq_first (b : ascii) : space2 "=" b = false.
Proof. unfold space2; cbn; split_tests; reflexivity. Qed.

Lemma space3_eq_last (a b : ascii) : space3 a b "=" = false.
Proof. unfold space3; cbn; split_tests; reflexivity. Qed.

Lemma space3_eq_mid (a b : ascii) : space3 a "=" b = false.
Proof. unfold space3; cbn; split_tests; reflexivity. Qed.

Lemma space3_eq_first (a b : ascii) : space3 "=" a b = false.
Proof. unfold space3; cbn; split_tests; reflexivity. Qed.

(** What precedes an ["="] is out of reach of the trimming of what
    follows it. *)
Lemma trimRevSpace_before_eq (l m : list ascii) :
  trimRevSpace l = l ->
  trimRevSpace (l ++ "="%char :: m) = (l ++ "="%char :: m)%list.
Proof.
  intros H.
  destruct l as [| b1 r1].
  { cbn [app trimRevSpace]. rewrite asciiSpace_eq.
    destruct m as [| b2 r2]; [reflexivity |]. rewrite space2_eq_last.
    destruct r2 as [| b3 r3]; [reflexivity |]. now rewrite space3_eq_last. }
  cbn [app trimRevSpace] in *.
  destruct (asciiSpace b1).
  { pose proof (trimRevSpace_length r1) as Hl. rewrite H in Hl. cbn in Hl. lia. }
  destruct r1 as [| b2 r2].
  { cbn [app]. rewrite space2_eq_first.
    destruct m as [| b3 r3]; [reflexivity |]. now rewrite space3_eq_mid. }
  cbn [app] in *.
  destruct (space2 b2 b1).
  { pose proof (trimRevSpace_length r2) as Hl. rewrite H in Hl. cbn in Hl. lia. }
  destruct r2 as [| b3 r3].
  { cbn [app]. now rewrite space3_eq_first. }
  cbn [app] in *.
  destruct (space3 b3 b2 b1); [| reflexivity].
  pose proof (trimRevSpace_length r3) as Hl. rewrite H in Hl. cbn in Hl. lia.
Qed.

Lemma TrimSpace_package_line (path name : string) :
  TrimSpace name = name ->
  TrimSpace ("package:" ++ path ++ "=" ++ name) =
  "package:" ++ path ++ "=" ++ name.
Proof.
  intros H. apply TrimSpace_fixed in H as [_ Hr].
  apply TrimRightSpace_fixed_rev in Hr.
  unfold TrimSpace.
  change (TrimLeftSpace ("package:" ++ path ++ "=" ++ name))
    with ("package:" ++ path ++ "=" ++ name).
  apply TrimRightSpace_fixed_rev.
  replace ("package:" ++ path ++ "=" ++ name)
    with (("package:" ++ path) ++ String "=" name)
    by (now rewrite app_assoc_string).
  rewrite list_of_app. cbn [list_ascii_of_string].
  rewrite rev_app_distr. cbn [rev]. rewrite <- app_assoc. cbn [app].
  now apply trimRevSpace_before_eq.
Qed.

Lemma cut_at_last_eq_unique (a b pre post : string) :
  a ++ String "=" b = pre ++ String "=" post ->
  Contains b "=" = false -> Contains post "=" = false ->
  a = pre /\ b = post.
Proof.
  revert pre; induction a as [| x a IH]; intros pre H Hb Hpost.
  - destruct pre as [| y pre]; cbn in H.
    + injection H as ->. auto.
    + injection H as <- ->.
      assert (Hc : Contains (pre ++ String "=" post) "=" = true)
        by (apply Contains_spec; now exists pre, post).
      congruence.
  - destruct pre as [| y pre]; cbn in H.
    + injection H as -> <-.
      assert (Hc : Contains (a ++ String "=" b) "=" = true)
        by (apply Contains_spec; now exists a, b).
      congruence.
    + injection H as <- H. destruct (IH pre H Hb Hpost) as [-> ->]. auto.
Qed.

Lemma LastIndex_cut (a b : string) :
  Contains b "=" = false -> LastIndex (a ++ String "=" b) "=" = len a.
Proof.
  intros Hb.
  destruct (LastIndex_eq (a ++ String "=" b)) as [[Hno _] | (pre & post & Hs & Hno & Hr)].
  - assert (Hc : Contains (a ++ String "=" b) "=" = true)
      by (apply Contains_spec; now exists a, b).
    congruence.
  - destruct (cut_at_last_eq_unique a b pre post Hs Hb Hno) as [-> _].
    exact Hr.
Qed.

Lemma parseLine_roundtrip (path name : string) :
  TrimSpace name = name ->
  Contains name "=" = false ->
  parseLine ("package:" ++ path ++ "=" ++ name) =
  Some {| models.Name := name;
          models.ApkPath := path;
          models.IsSystem := Contains path "/system/" |}.
Proof.
  intros Htrim Hno. unfold parseLine.
  rewrite (TrimSpace_package_line path name Htrim).
  replace ("package:" ++ path ++ "=" ++ name)
    with (("package:" ++ path) ++ String "=" name)
    by (now rewrite app_assoc_string).
  rewrite (LastIndex_cut _ _ Hno).
  assert (Hpre : HasPrefix (("package:" ++ path) ++ String "=" name) "package:" = true).
  { unfold HasPrefix. rewrite app_assoc_string. apply prefix_app. }
  rewrite Hpre. cbn [negb orb].
  assert (Hne : String.eqb (("package:" ++ path) ++ String "=" name) "" = false)
    by reflexivity.
  rewrite Hne. cbn [orb].
  destruct (Z.eqb_spec (len ("package:" ++ path)) (-1)) as [E | _];
    [unfold len in E; lia |].
  assert (Hto : slice_to (("package:" ++ path) ++ String "=" name)
                         (len ("package:" ++ path)) = "package:" ++ path).
  { unfold slice_to, len. rewrite Nat2Z.id. apply take_length_app. }
  assert (Hfrom : slice_from (("package:" ++ path) ++ String "=" name)
                             (len ("package:" ++ path) + 1) = name).
  { unfold slice_from, len.
    replace (Z.to_nat (Z.of_nat (String.length ("package:" ++ path)) + 1))
      with (String.length (("package:" ++ path) ++ "="))
      by (rewrite length_app; cbn; lia).
    replace (("package:" ++ path) ++ String "=" name)
      with ((("package:" ++ path) ++ "=") ++ name)
      by (rewrite app_assoc_string; reflexivity).
    apply drop_length_app. }
  rewrite Hto, Hfrom, Htrim.
  unfold TrimPrefix.
  assert (Hp : HasPrefix ("package:" ++ path) "package:" = true)
    by (unfold HasPrefix; apply prefix_app).
  rewrite Hp.
  change (String.length "package:") with (String.length "package:").
  rewrite drop_length_app. reflexivity.
Qed.


Lemma pieces_nonempty (s : string) : bufio.pieces s <> [].
Proof.
  induction s as [| c s IH]; cbn [bufio.pieces]; [easy |].
  destruct (Ascii.eqb c bufio.newline); [easy |].
  destruct (bufio.pieces s); [contradiction | easy].
Qed.

Lemma pieces_line (l rest : string) :
  singleLine l ->
  bufio.pieces (l ++ String bufio.newline rest) = l :: bufio.pieces rest.
Proof.
  unfold singleLine. induction l as [| c l IH]; intros H.
  - cbn. reflexivity.
  - cbn [append bufio.pieces].
    destruct (Ascii.eqb_spec c bufio.newline) as [-> | _].
    + exfalso. apply H. cbn. auto.
    + rewrite IH; [reflexivity |]. intros Hin. apply H. cbn. auto.
Qed.

Lemma dropCR_spec (s : string) :
  bufio.dropCR s = s \/
  s = bufio.dropCR s ++ String bufio.carriage_return "".
Proof.
  induction s as [| c s IH]; [now left |].
  destruct s as [| d r].
  - cbn [bufio.dropCR].
    destruct (Ascii.eqb_spec c bufio.carriage_return) as [-> | _];
      [right | left]; reflexivity.
  - change (bufio.dropCR (String c (String d r)))
      with (String c (bufio.dropCR (String d r))).
    destruct IH as [-> | IH]; [now left |].
    right. cbn [append]. now rewrite <- IH.
Qed.

Lemma dropCR_trimmed (s : string) : TrimRightSpace s = s -> bufio.dropCR s = s.
Proof.
  intros H. destruct (dropCR_spec s) as [E | E]; [exact E | exfalso].
  apply TrimRightSpace_fixed_rev in H.
  rewrite E in H at 1 2. rewrite list_of_app, rev_app_distr in H.
  cbn [list_ascii_of_string rev app] in H.
  change (asciiSpace bufio.carriage_return) with true in H.
  cbn [trimRevSpace] in H.
  change (asciiSpace bufio.carriage_return) with true in H. cbn iota in H.
  pose proof (trimRevSpace_length (rev (list_ascii_of_string (bufio.dropCR s)))) as Hl.
  rewrite H in Hl. cbn in Hl. lia.
Qed.

Lemma renderLine_trimmed (p : models.Package) :
  TrimSpace (models.Name p) = models.Name p ->
  TrimSpace (renderLine p) = renderLine p.
Proof. apply TrimSpace_package_line. Qed.

Lemma contribution_renderLine (p : models.Package) :
  listable p -> contribution (renderLine p) = [p].
Proof.
  intros ((Hno & Htrim & _) & _ & Hsys & _).
  unfold contribution, renderLine.
  rewrite (parseLine_roundtrip _ _ Htrim Hno), <- Hsys.
  now destruct p.
Qed.

Lemma singleLine_app (a b : string) :
  singleLine (a ++ b) <-> singleLine a /\ singleLine b.
Proof.
  unfold singleLine. rewrite list_of_app, in_app_iff. tauto.
Qed.

Lemma renderLine_singleLine (p : models.Package) :
  listable p -> singleLine (renderLine p).
Proof.
  intros ((_ & _ & Hn) & Hp & _). unfold renderLine.
  apply singleLine_app. split.
  - unfold singleLine. vm_compute. intuition discriminate.
  - apply singleLine_app. split; [exact Hp |].
    apply (singleLine_app "=" (models.Name p)). split; [| exact Hn].
    unfold singleLine. vm_compute. intuition discriminate.
Qed.

Lemma tokens_renderListing (ps : list models.Package) :
  Forall listable ps ->
  bufio.tokens (bufio.pieces (renderListing ps)) = (map renderLine ps, None).
Proof.
  induction 1 as [| p rest Hp _ IH]; [reflexivity |].
  cbn [renderListing map].
  rewrite (pieces_line _ _ (renderLine_singleLine p Hp)).
  cbn [bufio.tokens].
  assert (Hfit : (bufio.MaxScanTokenSize <=? len (renderLine p))%Z = false).
  { apply Z.leb_gt. apply Hp. }
  rewrite Hfit, IH.
  destruct (bufio.pieces (renderListing rest)) eqn:E;
    [now apply pieces_nonempty in E |].
  assert (Hcr : bufio.dropCR (renderLine p) = renderLine p).
  { apply dropCR_trimmed.
    apply (TrimSpace_fixed _ (renderLine_trimmed p (proj1 (proj2 (proj1 Hp))))). }
  rewrite Hcr. destruct (renderLine p); reflexivity.
Qed.

(** A listing printed from packages is parsed back into them: for
    packages with well-formed names, paths on one line, [IsSystem] as the
    path tells and lines that fit the scanner, [packages] returns, from
    the listing with one line for each, the same packages in the same
    order and no error. *)
Theorem parsePackages_renderListing (ps : list models.Package) :
  Forall listable ps ->
  parsePackages (renderListing ps) = (ps, None).
Proof.
  intros H. unfold parsePackages, bufio.scan.
  rewrite (tokens_renderListing ps H), scanLoop_flat_map.
  f_equal. induction H as [| p rest Hp _ IH]; [reflexivity |].
  cbn [map flat_map]. now rewrite (contribution_renderLine p Hp), IH.
Qed.

Lemma parsePackages_renderListing_witness :
  parsePackages (renderListing memory.listing) = (memory.listing, None).
Proof.
  apply (parsePackages_renderListing memory.listing).
  repeat constructor; vm_compute; try reflexivity; intuition discriminate.
Defined.

Lemma pieces_singleLine (s : string) : Forall singleLine (bufio.pieces s).
Proof.
  unfold singleLine. induction s as [| c s IH]; cbn [bufio.pieces].
  - constructor; [cbn; tauto | constructor].
  - destruct (Ascii.eqb_spec c bufio.newline) as [-> | Hc].
    + constructor; [cbn; tauto | exact IH].
    + destruct (bufio.pieces s) as [| l ls]; [constructor; [| constructor] |].
      * cbn. intros [H | H]; [now apply Hc | exact H].
      * inversion IH as [| ? ? Hl Hls]; subst.
        constructor; [| exact Hls].
        cbn. intros [H | H]; [now apply Hc | now apply Hl].
Qed.

Lemma dropCR_singleLine (s : string) : singleLine s -> singleLine (bufio.dropCR s).
Proof.
  intros H. destruct (dropCR_spec s) as [-> | E]; [exact H |].
  rewrite E in H. now apply singleLine_app in H.
Qed.

(** Every text the scanner yields is a piece of the input without its
    carriage return, and there are no more texts than pieces. *)
Lemma tokens_from_pieces (ps : list string) :
  Forall (fun t => exists p, In p ps /\ t = bufio.dropCR p)
         (fst (bufio.tokens ps)) /\
  List.length (fst (bufio.tokens ps)) <= List.length ps.
Proof.
  induction ps as [| p rest [IH1 IH2]]; [split; [constructor | reflexivity] |].
  cbn [bufio.tokens].
  destruct (bufio.MaxScanTokenSize <=? len p)%Z;
    [split; [constructor | cbn; lia] |].
  assert (Hstep :
    Forall (fun t => exists p0, In p0 (p :: rest) /\ t = bufio.dropCR p0)
           (bufio.dropCR p :: fst (bufio.tokens rest)) /\
    List.length (bufio.dropCR p :: fst (bufio.tokens rest))
      <= List.length (p :: rest)).
  { split; [| cbn; lia]. constructor.
    - exists p. cbn. auto.
    - eapply Forall_impl; [| exact IH1].
      intros t (p0 & Hin & ->). exists p0. cbn. auto. }
  destruct rest as [| q rest'].
  - destruct p; [split; [constructor | cbn; lia] |].
    cbn [bufio.tokens fst] in *. exact Hstep.
  - destruct (bufio.tokens (q :: rest')) as [ts err]. cbn [fst] in *.
    destruct p; exact Hstep.
Qed.

Lemma singleLine_substring (pre s post : string) :
  singleLine (pre ++ s ++ post) -> singleLine s.
Proof.
  intros H. apply singleLine_app in H as [_ H].
  now apply singleLine_app in H as [H _].
Qed.

Lemma no_eq_substring (pre s post : string) :
  Contains (pre ++ s ++ post) "=" = false -> Contains s "=" = false.
Proof.
  intros H. destruct (Contains s "=") eqn:E; [| reflexivity].
  apply Contains_spec in E as (a & b & ->).
  assert (Hc : Contains (pre ++ (a ++ "=" ++ b) ++ post) "=" = true).
  { apply Contains_spec. exists (pre ++ a), (b ++ post).
    now rewrite !app_assoc_string. }
  congruence.
Qed.

Lemma parseLine_invariant (text : string) (p : models.Package) :
  singleLine text -> parseLine text = Some p ->
  wellFormedName (models.Name p) /\ singleLine (models.ApkPath p).
Proof.
  intros Hline Hp.
  destruct (parseLine_kept text p Hp) as (rawName & Hshape & Hno & Hname & _).
  destruct (TrimSpace_substring text) as (pre & post & Htext).
  rewrite Htext in Hline. apply singleLine_substring in Hline.
  rewrite Hshape in Hline.
  apply singleLine_app in Hline as [_ Hline].
  apply singleLine_app in Hline as [Hpath Hline].
  apply (singleLine_app "=" rawName) in Hline as [_ Hraw].
  destruct (TrimSpace_substring rawName) as (pre' & post' & Hraw').
  split; [| exact Hpath]. rewrite Hname. repeat split.
  - apply (no_eq_substring pre' _ post'). now rewrite <- Hraw'.
  - apply TrimSpace_idempotent.
  - apply (singleLine_substring pre' _ post'). now rewrite <- Hraw'.
Qed.

Lemma tokens_length_texts (ps : list string) :
  List.length (fst (bufio.tokens ps)) <= List.length (bufio.texts ps).
Proof.
  induction ps as [| p rest IH]; [reflexivity |].
  cbn [bufio.tokens bufio.texts].
  destruct (bufio.MaxScanTokenSize <=? len p)%Z; [cbn; lia |].
  destruct rest as [| q rest'].
  - destruct p; cbn; lia.
  - destruct (bufio.tokens (q :: rest')) as [ts err]. cbn [fst] in *.
    destruct p; cbn [List.length]; lia.
Qed.

(** Whatever the device prints, every package [packages] returns has a
    name without [=], without surrounding white space and without line
    feed, and a path without line feed; and there are no more packages
    than lines. *)
Theorem parsePackages_output_invariant (out : string) :
  Forall (fun p => wellFormedName (models.Name p) /\
                   singleLine (models.ApkPath p))
         (fst (parsePackages out)) /\
  List.length (fst (parsePackages out)) <= List.length (bufio.lines out).
Proof.
  unfold parsePackages, bufio.scan, bufio.lines.
  destruct (tokens_from_pieces (bufio.pieces out)) as [Hfrom _].
  pose proof (tokens_length_texts (bufio.pieces out)) as Hlen.
  destruct (bufio.tokens (bufio.pieces out)) as [texts [err |]]; cbn [fst] in *.
  - split; [constructor | cbn; lia].
  - rewrite scanLoop_flat_map. split.
    + apply Forall_forall. intros p Hin.
      apply in_flat_map in Hin as (text & Htext & Hin).
      unfold contribution in Hin.
      destruct (parseLine text) as [p' |] eqn:Hp; [| contradiction].
      destruct Hin as [<- | []].
      rewrite Forall_forall in Hfrom.
      destruct (Hfrom text Htext) as (piece & Hpiece & ->).
      apply (parseLine_invariant _ _ (dropCR_singleLine _ ltac:(
        pose proof (pieces_singleLine out) as Hs;
        rewrite Forall_forall in Hs; exact (Hs piece Hpiece))) Hp).
    + etransitivity; [| exact Hlen].
      clear. induction texts as [| t ts IH]; [reflexivity |].
      cbn [flat_map]. rewrite List.length_app. unfold contribution at 1.
      destruct (parseLine t); cbn; lia.
Qed.

End TrimFacts.

(* --------------------------------------------------------------------- *)
(** ** Records, schedules and outcomes *)
(* --------------------------------------------------------------------- *)

Lemma manufacturerOr_nonempty (answer : string * option error) :
  manufacturerOr answer <> "".
Proof.
  destruct answer as [value [e |]]; cbn; [discriminate |].
  destruct (String.eqb_spec (strings.TrimSpace value) ""); [discriminate | assumption].
Qed.

Lemma manufacturerOr_trimmed (answer : string * option error) :
  strings.TrimSpace (manufacturerOr answer) = manufacturerOr answer.
Proof.
  destruct answer as [value [e |]]; cbn [manufacturerOr]; [reflexivity |].
  destruct (String.eqb (strings.TrimSpace value) ""); [reflexivity |].
  apply TrimSpace_idempotent.
Qed.

Lemma Enumerates_invariants {W : Type} (client : adb.Adb W) (w w' : W)
      (infos : list adb.DeviceInfo) (ds : list models.Device)
      (calls : list Call) :
  Enumerates client w infos ds calls w' ->
  Forall consistentDevice ds /\
  map models.Model ds = map adb.Model infos /\
  List.length infos <= List.length calls <= 2 * List.length infos.
Proof.
  induction 1 as [| ? ? ? ? ? ? ? ? ? ? ? (IH1 & IH2 & IH3)
                  | ? ? ? ? ? ? ? ? ? ? ? ? ? (IH1 & IH2 & IH3)].
  - repeat split; cbn; auto.
  - split; [| split].
    + constructor; [| exact IH1].
      unfold consistentDevice, degraded, definedState; cbn.
      repeat split; try discriminate; tauto.
    + cbn [map]. now rewrite IH2.
    + cbn [List.length]. lia.
  - split; [| split].
    + constructor; [| exact IH1].
      unfold consistentDevice, enriched; cbn.
      repeat split.
      * apply manufacturerOr_nonempty.
      * apply manufacturerOr_trimmed.
      * apply String.eqb_eq.
      * apply String.eqb_eq.
      * apply convertState_defined.
    + cbn [map]. now rewrite IH2.
    + cbn [List.length]. lia.
Qed.

(** Every record of [devices] has a manufacturer that is not empty and
    carries no surrounding white space, is authorized exactly when its
    state is online, and has one of the four states the conversion
    yields; after the device list, [devices] makes at least one and at
    most two transport calls for each record. *)
Theorem devices_record_invariants {W : Type} (client : adb.Adb W)
        (w : W) (log : list Call) :
  Forall consistentDevice (fst (fst (devices client (w, log)))) /\
  exists calls,
    snd (snd (devices client (w, log))) = (log ++ CallListDevices :: calls)%list /\
    List.length (fst (fst (devices client (w, log)))) <= List.length calls /\
    List.length calls <= 2 * List.length (fst (fst (devices client (w, log)))).
Proof.
  pose proof (devices_run client w log) as H.
  destruct (adb.ListDevices client w) as [[infos [e |]] w1].
  - rewrite H. cbn. split; [constructor |]. exists []. cbn. auto.
  - destruct H as (ds & calls & w' & -> & Henum). cbn [fst snd].
    pose proof (Enumerates_invariants client _ _ _ _ _ Henum) as (H1 & _ & H3).
    pose proof (Enumerates_entries client _ _ _ _ _ Henum) as Hlen.
    apply Forall2_same_length in Hlen.
    split; [exact H1 |]. exists calls. rewrite Hlen. split; [reflexivity | lia].
Qed.


Section RaceEffects.

Context {W A : Type}.
Variable call : M W (A * option error).
Variable zero : A.

Lemma run_snoc (c0 c : config) (schedule : list event) (ev : event) :
  run call zero c0 (schedule ++ [ev]) = Some c ->
  exists c1, run call zero c0 schedule = Some c1 /\
             step call zero c1 ev = Some c.
Proof.
  rewrite run_app.
  destruct (run call zero c0 schedule) as [c1 |]; [| discriminate].
  cbn. destruct (step call zero c1 ev) as [c2 |] eqn:E; [| discriminate].
  intros [= <-]. now exists c1.
Qed.

Lemma run_accountsFor (ctx : option ctxError) (w : W) (schedule : list event) :
  forall c, run call zero (start ctx w) schedule = Some c ->
            accountsFor call zero w schedule c.
Proof.
  induction schedule as [| ev schedule IH] using rev_ind; intros c Hrun.
  - injection Hrun as <-. unfold accountsFor; cbn. tauto.
  - apply run_snoc in Hrun as (c1 & Hrun1 & Hstep).
    specialize (IH c1 Hrun1). unfold accountsFor in *.
    destruct IH as [Hw Hc].
    destruct c1 as [st cx wk cl]; cbn [world ctxErr theWorker theCaller] in *.
    destruct ev; cbn in Hstep.
    + destruct cx; [discriminate |]. injection Hstep as <-.
      cbn [world ctxErr theWorker theCaller].
      split.
      * destruct wk; rewrite ?in_app_iff; cbn; intuition discriminate.
      * destruct cl as [| r]; rewrite ?in_app_iff; cbn; [intuition discriminate |].
        destruct Hc as [(_ & _ & reason & Hr & _) | (H1 & H2 & H3)];
          [discriminate |].
        right. rewrite ?in_app_iff. cbn. intuition discriminate.
    + destruct wk; try discriminate.
      destruct Hw as (H1 & H2 & ->).
      destruct (call (w, [])) as [result st'] eqn:Hcall.
      injection Hstep as <-. cbn [world ctxErr theWorker theCaller fst snd].
      split.
      * rewrite ?in_app_iff. cbn. intuition discriminate.
      * destruct cl as [| r]; rewrite ?in_app_iff; cbn; [intuition discriminate |].
        destruct Hc as [(Ha & Hb & reason & Hr & Hres) | (Ha & Hb & Hres)].
        -- left. rewrite ?in_app_iff. cbn.
           split; [auto |]. split; [intuition discriminate |]. now exists reason.
        -- right. rewrite ?in_app_iff. cbn. intuition discriminate.
    + destruct cl; [| discriminate]. destruct cx as [reason |]; [| discriminate].
      injection Hstep as <-. cbn [world ctxErr theWorker theCaller].
      split.
      * destruct wk; rewrite ?in_app_iff; cbn; intuition discriminate.
      * left. rewrite ?in_app_iff. cbn.
        split; [auto |]. split; [intuition discriminate |]. now exists reason.
    + destruct cl; [| discriminate]. destruct wk as [| result |]; try discriminate.
      injection Hstep as <-. cbn [world ctxErr theWorker theCaller].
      destruct Hw as (H1 & H2 & H3 & H4).
      split.
      * rewrite ?in_app_iff. cbn. intuition discriminate.
      * right. rewrite ?in_app_iff. cbn. intuition discriminate.
Qed.

Lemma step_keeps_returned (c c' : config) (ev : event)
      (result : A * option error) :
  theCaller c = Returned result ->
  step call zero c ev = Some c' ->
  theCaller c' = Returned result.
Proof.
  intros Hc Hstep. destruct c as [st cx wk cl]; cbn in Hc; subst cl.
  destruct ev; cbn in Hstep.
  - destruct cx; [discriminate |]. now injection Hstep as <-.
  - destruct wk; try discriminate.
    destruct (call st) as [r st']. now injection Hstep as <-.
  - discriminate.
  - discriminate.
Qed.

Lemma run_keeps_returned (more : list event) :
  forall (c c' : config) (result : A * option error),
    theCaller c = Returned result ->
    run call zero c more = Some c' ->
    theCaller c' = Returned result.
Proof.
  induction more as [| ev more IH]; intros c c' result Hc Hrun.
  - now injection Hrun as <-.
  - cbn [run] in Hrun.
    destruct (step call zero c ev) as [c1 |] eqn:Hstep; [| discriminate].
    apply (IH c1 c' result); [| exact Hrun].
    exact (step_keeps_returned c c1 ev result Hc Hstep).
Qed.

End RaceEffects.

(** When the caller of [Version], [Devices] or [Packages] has returned
    through [ctx.Done()], it has returned the zero value with the
    context's error, and its goroutine is leaked: the caller was the
    only receiver of the unbuffered channel, so neither case of the
    [select] can be taken again, a goroutine that has its result stays
    at its send with no step left, and however the run goes on the
    goroutine never gets past its send and what the caller returned
    stays what it is. *)
Theorem race_goroutine_blocked_after_cancellation {W A : Type}
        (call : M W (A * option error)) (zero : A)
        (ctx : option ctxError) (w : W) (schedule : list event) (c : config) :
  run call zero (start ctx w) schedule = Some c ->
  In SelectDone schedule ->
  (exists reason, theCaller c = Returned (zero, Some (Err reason))) /\
  theWorker c <> Exited /\
  ~ In SelectResult schedule /\
  step call zero c SelectResult = None /\
  step call zero c SelectDone = None /\
  (forall result,
      theWorker c = Sending result -> forall ev, step call zero c ev = None) /\
  (forall more c',
      run call zero c more = Some c' ->
      theWorker c' <> Exited /\ theCaller c' = theCaller c).
Proof.
  intros Hrun Hdone.
  assert (Hleak : forall sched c0,
             run call zero (start ctx w) sched = Some c0 ->
             In SelectDone sched ->
             (exists reason, theCaller c0 = Returned (zero, Some (Err reason)))
             /\ theWorker c0 <> Exited /\ ~ In SelectResult sched
             /\ ctxErr c0 <> None).
  { intros sched c0 Hrun0 Hdone0.
    destruct (run_accountsFor call zero ctx w sched c0 Hrun0) as [Hw Hc].
    destruct c0 as [st cx wk cl]; cbn [world ctxErr theWorker theCaller] in *.
    destruct cl as [| r]; [tauto |].
    destruct Hc as [(_ & Hnr & reason & Hcx & ->) | (_ & Hnd & _)]; [| tauto].
    subst cx. split; [now exists reason |].
    split; [| split; [exact Hnr | discriminate]].
    destruct wk; [discriminate | discriminate | tauto]. }
  destruct (Hleak schedule c Hrun Hdone) as ((reason & Hcaller) & Hw & Hnr & Hcx).
  split; [now exists reason |]. split; [exact Hw |]. split; [exact Hnr |].
  destruct c as [st cx wk cl]; cbn [world ctxErr theWorker theCaller] in *.
  subst cl.
  split; [reflexivity |]. split; [reflexivity |]. split.
  - intros result -> ev. destruct ev; cbn; try reflexivity.
    destruct cx; [reflexivity | now contradiction Hcx].
  - intros more c' Hmore. split.
    + assert (Hall : run call zero (start ctx w) (schedule ++ more) = Some c').
      { rewrite run_app, Hrun. exact Hmore. }
      apply (Hleak _ _ Hall). rewrite in_app_iff. now left.
    + cbn [theCaller].
      eapply run_keeps_returned; [| exact Hmore]. reflexivity.
Qed.

Lemma race_goroutine_blocked_after_cancellation_witness :
  exists reason,
    theCaller
      {| world := (0, []); ctxErr := Some CtxCanceled;
         theWorker := Running;
         theCaller := Returned (@nil models.Device, Some Canceled) |} =
    Returned ([], Some (Err reason)).
Proof.
  exact (proj1 (race_goroutine_blocked_after_cancellation
                  (devices (examples.fleet [])) [] None 0
                  [Cancel CtxCanceled; SelectDone]
                  {| world := (0, []); ctxErr := Some CtxCanceled;
                     theWorker := Running;
                     theCaller := Returned (@nil models.Device,
                                            Some Canceled) |}
                  eq_refl (or_intror (or_introl eq_refl)))).
Defined.

(* --------------------------------------------------------------------- *)

Lemma packages_run {W : Type} (client : adb.Adb W)
      (deviceId : string) (opts : models.ListPackageOptions) (w : W) :
  fst (packages client deviceId opts (w, [])) =
  match fst (adb.RunCommand client (getDevice deviceId) "pm list packages"
                            (expectedArgs opts) w) with
  | (_, Some e) => ([], Some e)
  | (out, None) => parsePackages out
  end.
Proof.
  unfold packages, expectedArgs, isNil, bind, perform, ret.
  destruct opts as [sys unin];
    cbn [models.IncludeUninstalled models.IncludeSystem].
  destruct unin, sys; cbn [app];
    match goal with
    | |- context [adb.RunCommand ?c ?d ?cmd ?args ?w] =>
        destruct (adb.RunCommand c d cmd args w) as [[out [e |]] w']
    end; reflexivity.
Qed.

Lemma parsePackages_error (out : string) (pkgs : list models.Package)
      (e : error) :
  parsePackages out = (pkgs, Some e) -> pkgs = [] /\ e = ErrTooLong.
Proof.
  unfold parsePackages, bufio.scan.
  assert (Herr : forall ps e', snd (bufio.tokens ps) = Some e' -> e' = ErrTooLong).
  { induction ps as [| p rest IH]; intros e' H; [discriminate H |].
    cbn [bufio.tokens] in H.
    destruct (bufio.MaxScanTokenSize <=? strings.len p)%Z;
      [now injection H as <- |].
    destruct rest as [| q rest'].
    - destruct p; discriminate H.
    - destruct (bufio.tokens (q :: rest')) as [ts err].
      apply IH. destruct p; exact H. }
  specialize (Herr (bufio.pieces out)).
  destruct (bufio.tokens (bufio.pieces out)) as [texts [err |]];
    [| discriminate].
  intros [= <- <-]. split; [reflexivity | now apply Herr].
Qed.

(** What [Packages] returns: without error, the packages parsed from the
    output of a successful [pm list packages]; with an error, no package,
    and the error is the context's, the transport's, or the scanner's
    [ErrTooLong] for an output with a line that does not fit. *)
Theorem Packages_outcomes {W : Type} (client : adb.Adb W)
        (deviceId : string) (opts : models.ListPackageOptions)
        (ctx : option ctxError) (w : W) (schedule : list event)
        (pkgs : list models.Package) (err : option error) :
  Packages client deviceId opts ctx w schedule = Some (pkgs, err) ->
  match err with
  | None =>
      exists out w',
        adb.RunCommand client (getDevice deviceId) "pm list packages"
                       (expectedArgs opts) w = ((out, None), w') /\
        parsePackages out = (pkgs, None)
  | Some e =>
      pkgs = [] /\
      ((exists reason, e = Err reason) \/
       (exists out w',
           adb.RunCommand client (getDevice deviceId) "pm list packages"
                          (expectedArgs opts) w = ((out, Some e), w')) \/
       (e = ErrTooLong /\
        exists out w',
          adb.RunCommand client (getDevice deviceId) "pm list packages"
                         (expectedArgs opts) w = ((out, None), w') /\
          ~ Forall bufio.fits (bufio.pieces out)))
  end.
Proof.
  intros Hret.
  apply returned_cases in Hret as [(reason & Hr) | Hres].
  - injection Hr as -> ->. split; [reflexivity |]. left. now exists reason.
  - rewrite packages_run in Hres.
    destruct (adb.RunCommand client (getDevice deviceId) "pm list packages"
                             (expectedArgs opts) w) as [[out [e |]] w'];
      cbn [fst] in Hres.
    + injection Hres as -> ->. split; [reflexivity |].
      right; left. now exists out, w'.
    + destruct err as [e |].
      * symmetry in Hres. destruct (parsePackages_error _ _ _ Hres) as [-> ->].
        split; [reflexivity |]. right; right. split; [reflexivity |].
        exists out, w'. split; [reflexivity |].
        intros Hfit.
        unfold parsePackages, bufio.scan in Hres.
        rewrite (tokens_fit _ Hfit) in Hres. discriminate Hres.
      * exists out, w'. auto.
Qed.

Lemma Packages_outcomes_witness :
  exists out w',
    adb.RunCommand (examples.fleet []) (getDevice "R58M123") "pm list packages"
                   (expectedArgs {| models.IncludeSystem := true;
                                    models.IncludeUninstalled := false |}) 0
      = ((out, None), w') /\
    parsePackages out = (memory.listing, None).
Proof.
  exact (Packages_outcomes (examples.fleet []) "R58M123"
           {| models.IncludeSystem := true;
              models.IncludeUninstalled := false |}
           None 0 [Complete; SelectResult] memory.listing None eq_refl).
Defined.

(* --------------------------------------------------------------------- *)
(** ** Paths *)
(* --------------------------------------------------------------------- *)

Section FilepathFacts.

Import filepath.

Lemma elements_nonempty (p : string) : elements p <> [].
Proof.
  induction p as [| c p IH]; cbn [elements]; [easy |].
  destruct (Ascii.eqb c Separator); [easy |].
  destruct (elements p); [contradiction | easy].
Qed.

Lemma elements_noSeparator (p : string) : Forall noSeparator (elements p).
Proof.
  unfold noSeparator. induction p as [| c p IH]; cbn [elements].
  - constructor; [cbn; tauto | constructor].
  - destruct (Ascii.eqb_spec c Separator) as [-> | Hc].
    + constructor; [cbn; tauto | exact IH].
    + destruct (elements p) as [| e es] eqn:E; [now apply elements_nonempty in E |].
      inversion IH as [| ? ? He Hes]; subst.
      constructor; [| exact Hes].
      cbn. intros [H | H]; [now apply Hc | now apply He].
Qed.

Lemma elements_single (e : string) : noSeparator e -> elements e = [e].
Proof.
  unfold noSeparator. induction e as [| c e IH]; intros H; [reflexivity |].
  cbn [elements].
  destruct (Ascii.eqb_spec c Separator) as [-> | _];
    [exfalso; apply H; cbn; auto |].
  rewrite IH; [reflexivity |]. intros Hin. apply H. cbn. auto.
Qed.

Lemma elements_cons (e rest : string) :
  noSeparator e -> elements (e ++ String Separator rest) = e :: elements rest.
Proof.
  unfold noSeparator. induction e as [| c e IH]; intros H.
  - cbn. reflexivity.
  - cbn [append elements].
    destruct (Ascii.eqb_spec c Separator) as [-> | _];
      [exfalso; apply H; cbn; auto |].
    rewrite IH; [reflexivity |]. intros Hin. apply H. cbn. auto.
Qed.

Lemma elements_concat (es : list string) :
  es <> [] -> Forall noSeparator es -> elements (String.concat "/" es) = es.
Proof.
  induction es as [| e rest IH]; [easy |]. intros _ Hall.
  inversion Hall as [| ? ? He Hrest]; subst.
  destruct rest as [| e' rest'].
  - cbn. now apply elements_single.
  - change (String.concat "/" (e :: e' :: rest'))
      with (e ++ String Separator (String.concat "/" (e' :: rest'))).
    rewrite (elements_cons _ _ He), IH; [reflexivity | easy | exact Hrest].
Qed.

Lemma plain_tests (e : string) :
  plain e ->
  String.eqb e "" = false /\ String.eqb e "." = false /\
  String.eqb e ".." = false.
Proof.
  intros (H1 & H2 & H3 & _).
  repeat split; apply String.eqb_neq; assumption.
Qed.

Lemma cleanElements_plain (rooted : bool) (names : list string) :
  Forall plain names ->
  forall out, cleanElements rooted names out = (rev names ++ out)%list.
Proof.
  induction 1 as [| e rest He _ IH]; intros out; [reflexivity |].
  cbn [cleanElements rev].
  destruct (plain_tests e He) as (-> & -> & ->). cbn [orb].
  rewrite IH, <- app_assoc. reflexivity.
Qed.

Lemma repeat_snoc {A : Type} (x : A) (k : nat) :
  (repeat x k ++ [x])%list = x :: repeat x k.
Proof. induction k as [| k IH]; cbn; [reflexivity | now rewrite IH]. Qed.

Lemma rev_repeat {A : Type} (x : A) (k : nat) : rev (repeat x k) = repeat x k.
Proof.
  induction k as [| k IH]; cbn; [reflexivity |].
  now rewrite IH, repeat_snoc.
Qed.

Lemma cleanElements_dotdots (k : nat) (rest : list string) :
  forall j,
    cleanElements false (repeat ".." k ++ rest) (repeat ".." j) =
    cleanElements false rest (repeat ".." (k + j)).
Proof.
  induction k as [| k IH]; intros j; [reflexivity |].
  cbn [repeat app cleanElements String.eqb Ascii.eqb Bool.eqb andb orb].
  destruct j as [| j].
  - cbn [repeat]. change [".."] with (repeat ".." 1).
    rewrite IH. f_equal. f_equal. lia.
  - cbn [repeat]. cbn [String.eqb Ascii.eqb Bool.eqb andb].
    change (".." :: ".." :: repeat ".." j) with (repeat ".." (S (S j))).
    rewrite IH. f_equal. f_equal. lia.
Qed.

(** The loop of [Clean] keeps its output normal. *)
Lemma cleanElements_normal (rooted : bool) (elems : list string) :
  Forall noSeparator elems ->
  forall out, normalStack rooted out ->
              normalStack rooted (cleanElements rooted elems out).
Proof.
  induction 1 as [| e rest He _ IH]; intros out Hout; [exact Hout |].
  cbn [cleanElements].
  destruct (String.eqb_spec e "") as [-> | Hne]; [now apply IH |].
  destruct (String.eqb_spec e ".") as [-> | Hnd]; [now apply IH |].
  cbn [orb].
  destruct (String.eqb_spec e "..") as [-> | Hndd].
  - destruct out as [| top out'].
    + destruct rooted; apply IH; [constructor |].
      exists [], 1. split; [reflexivity | constructor].
    + destruct (String.eqb_spec top "..") as [-> | Htop].
      * apply IH. destruct rooted; cbn in Hout |- *.
        -- inversion Hout as [| ? ? (_ & _ & Hp & _) _]; subst. now contradiction Hp.
        -- destruct Hout as (names & k & Heq & Hnames).
           destruct names as [| n names'].
           ++ exists [], (S (S (pred k))). split; [| constructor].
              cbn [app] in *. destruct k as [| k]; [discriminate Heq |].
              cbn [repeat pred] in *. now rewrite Heq.
           ++ cbn [app] in Heq. injection Heq as <- _.
              inversion Hnames as [| ? ? (_ & _ & Hp & _) _]; subst.
              now contradiction Hp.
      * apply IH. destruct rooted; cbn in Hout |- *.
        -- now inversion Hout.
        -- destruct Hout as (names & k & Heq & Hnames).
           destruct names as [| n names'].
           ++ cbn [app] in Heq. destruct k as [| k]; [discriminate Heq |].
              cbn [repeat] in Heq. injection Heq as -> _. now contradiction Htop.
           ++ cbn [app] in Heq. injection Heq as _ ->.
              exists names', k. split; [reflexivity | now inversion Hnames].
  - apply IH.
    assert (Hp : plain e) by (repeat split; assumption).
    destruct rooted; cbn in Hout |- *.
    + now constructor.
    + destruct Hout as (names & k & -> & Hnames).
      exists (e :: names), k. split; [reflexivity | now constructor].
Qed.

Lemma prefix_slash_false (e : string) :
  noSeparator e -> String.prefix "/" e = false.
Proof.
  unfold noSeparator. destruct e as [| c e']; [reflexivity |]. intros H.
  cbn [String.prefix]. destruct (ascii_dec "/" c) as [<- | _]; [| reflexivity].
  exfalso. apply H. cbn. auto.
Qed.

Lemma prefix_slash_app (e tail : string) :
  e <> "" -> String.prefix "/" (e ++ tail) = String.prefix "/" e.
Proof.
  destruct e as [| c e']; [easy |]. intros _.
  cbn [append String.prefix]. destruct (ascii_dec "/" c); [| reflexivity].
  now rewrite !prefix_nil.
Qed.

Lemma noSeparator_dotdot : noSeparator "..".
Proof. unfold noSeparator. vm_compute. intuition discriminate. Qed.

Lemma concat_first (e : string) (rest : list string) :
  exists tail, String.concat "/" (e :: rest) = e ++ tail.
Proof.
  destruct rest as [| e' rest'].
  - exists "". cbn. induction e; cbn; congruence.
  - now exists ("/" ++ String.concat "/" (e' :: rest')).
Qed.

Lemma rev_nil_inv {A : Type} (l : list A) : rev l = [] -> l = [].
Proof.
  intros H. apply (f_equal (@rev A)) in H. now rewrite rev_involutive in H.
Qed.

(** The rendering of a normal output is rooted exactly when the output
    was, is not empty, and the loop of [Clean] rebuilds that output from
    its elements. *)
Lemma render_normal (rooted : bool) (out : list string) :
  normalStack rooted out ->
  String.eqb (render rooted (rev out)) "" = false /\
  String.prefix "/" (render rooted (rev out)) = rooted /\
  cleanElements rooted (elements (render rooted (rev out))) [] = out.
Proof.
  intros Hout. destruct rooted; cbn [normalStack] in Hout.
  - (* rooted *)
    assert (Hes : Forall plain (rev out)) by now apply Forall_rev.
    unfold render.
    split; [reflexivity |]. split.
    + change (String.prefix "/" ("/" ++ String.concat "/" (rev out)))
        with (String.prefix "" (String.concat "/" (rev out))).
      apply prefix_nil.
    + change (elements ("/" ++ String.concat "/" (rev out)))
        with ("" :: elements (String.concat "/" (rev out))).
      cbn [cleanElements String.eqb orb].
      destruct (rev out) as [| e es] eqn:E.
      * apply rev_nil_inv in E. subst out. reflexivity.
      * rewrite elements_concat; [| easy |].
        -- rewrite (cleanElements_plain true _ Hes), app_nil_r, <- E.
           apply rev_involutive.
        -- eapply Forall_impl; [| exact Hes]. now intros a (_ & _ & _ & Ha).
  - (* not rooted *)
    destruct Hout as (names & k & -> & Hnames).
    rewrite rev_app_distr, rev_repeat.
    assert (Hrev : Forall plain (rev names)) by now apply Forall_rev.
    assert (Hsep : Forall noSeparator (repeat ".." k ++ rev names)).
    { apply Forall_app. split.
      - apply Forall_forall. intros x Hx. apply repeat_spec in Hx as ->.
        exact noSeparator_dotdot.
      - eapply Forall_impl; [| exact Hrev]. now intros a (_ & _ & _ & Ha). }
    destruct (repeat ".." k ++ rev names)%list as [| e rest] eqn:E.
    { apply app_eq_nil in E as [Hk Hn]. apply rev_nil_inv in Hn. subst names.
      destruct k; [repeat split | discriminate Hk]. }
    assert (Hfirst : e <> "" /\ String.prefix "/" e = false).
    { destruct k as [| k]; cbn [repeat app] in E.
      - rewrite E in Hrev. inversion Hrev as [| ? ? (H1 & _ & _ & H4) _]; subst.
        split; [exact H1 | now apply prefix_slash_false].
      - injection E as <- _. split; [discriminate | reflexivity]. }
    destruct Hfirst as [Hne Hnot].
    unfold render.
    destruct (concat_first e rest) as [tail Htail].
    split; [| split].
    + rewrite Htail. destruct e; [contradiction | reflexivity].
    + rewrite Htail, prefix_slash_app; assumption.
    + rewrite elements_concat; [| easy | exact Hsep].
      rewrite <- E.
      change (@nil string) with (repeat ".." 0) at 1.
      rewrite cleanElements_dotdots, Nat.add_0_r.
      rewrite (cleanElements_plain false _ Hrev), rev_involutive.
      reflexivity.
Qed.

(** A rendered normal output is a fixed point of [Clean]. *)
Lemma Clean_render (rooted : bool) (out : list string) :
  normalStack rooted out ->
  Clean (render rooted (rev out)) = render rooted (rev out).
Proof.
  intros Hout. destruct (render_normal rooted out Hout) as (Hne & Hroot & Hst).
  unfold Clean. now rewrite Hne, Hroot, Hst.
Qed.

Lemma Clean_normal (path : string) :
  path <> "" ->
  exists rooted out,
    normalStack rooted out /\ Clean path = render rooted (rev out).
Proof.
  intros Hne. unfold Clean.
  destruct (String.eqb_spec path ""); [contradiction |].
  exists (String.prefix "/" path),
         (cleanElements (String.prefix "/" path) (elements path) []).
  split; [| reflexivity].
  apply cleanElements_normal; [apply elements_noSeparator |].
  destruct (String.prefix "/" path); cbn; [constructor |].
  exists [], 0. split; [reflexivity | constructor].
Qed.

Lemma Clean_idempotent (path : string) : Clean (Clean path) = Clean path.
Proof.
  destruct (String.eqb_spec path "") as [-> | Hne]; [reflexivity |].
  destruct (Clean_normal path Hne) as (rooted & out & Hout & ->).
  now apply Clean_render.
Qed.

Lemma noSeparator_app (a b : string) :
  noSeparator (a ++ b) <-> noSeparator a /\ noSeparator b.
Proof. unfold noSeparator. rewrite list_of_app, in_app_iff. tauto. Qed.

Lemma elements_app_sep (a b : string) :
  elements (a ++ String Separator b) = (elements a ++ elements b)%list.
Proof.
  induction a as [| c a IH]; [reflexivity |].
  cbn [append elements]. rewrite IH.
  destruct (Ascii.eqb c Separator); [reflexivity |].
  destruct (elements a) as [| e es] eqn:E; [now apply elements_nonempty in E |].
  reflexivity.
Qed.

Lemma cleanElements_app (rooted : bool) (xs ys : list string) :
  forall out,
    cleanElements rooted (xs ++ ys) out =
    cleanElements rooted ys (cleanElements rooted xs out).
Proof.
  induction xs as [| e xs IH]; intros out; [reflexivity |].
  cbn [app cleanElements].
  destruct (String.eqb e "" || String.eqb e "."); [apply IH |].
  destruct (String.eqb e "..").
  - destruct out as [| top out']; [destruct rooted; apply IH |].
    destruct (String.eqb top ".."); apply IH.
  - apply IH.
Qed.

(** [Clean] of a cleaned path followed by further elements: the loop
    goes on from the output of the cleaned path. *)
Lemma Clean_extend (rooted : bool) (out : list string) (more : string) :
  normalStack rooted out ->
  Clean (render rooted (rev out) ++ String Separator more) =
  render rooted (rev (cleanElements rooted (elements more) out)).
Proof.
  intros Hout. destruct (render_normal rooted out Hout) as (Hne & Hroot & Hst).
  assert (Hne' : render rooted (rev out) <> "").
  { intros E. rewrite E in Hne. discriminate Hne. }
  unfold Clean.
  assert (E1 : String.eqb (render rooted (rev out) ++ String Separator more) ""
               = false).
  { destruct (render rooted (rev out)); [contradiction | reflexivity]. }
  rewrite E1, (prefix_slash_app _ _ Hne'), Hroot.
  now rewrite elements_app_sep, cleanElements_app, Hst.
Qed.

Lemma Join_pair (a b : string) :
  Join [a; b] =
  if String.eqb a "" then (if String.eqb b "" then "" else Clean b)
  else Clean (a ++ String Separator b).
Proof.
  cbn [Join]. destruct (String.eqb a ""); [| reflexivity].
  destruct (String.eqb b ""); reflexivity.
Qed.

(** What [Join] returns is clean; it is empty only when every element
    is. *)
Lemma Join_pair_clean (a b : string) : Clean (Join [a; b]) = Join [a; b] \/
                                       (a = "" /\ b = "").
Proof.
  rewrite Join_pair.
  destruct (String.eqb_spec a "") as [-> | _].
  - destruct (String.eqb_spec b "") as [-> | _]; [now right | left].
    apply Clean_idempotent.
  - left. apply Clean_idempotent.
Qed.

Lemma untilSeparator_noSeparator (l : list ascii) :
  ~ In Separator (untilSeparator l).
Proof.
  induction l as [| c l IH]; cbn [untilSeparator]; [easy |].
  destruct (Ascii.eqb_spec c Separator) as [-> | Hc]; [easy |].
  cbn. intros [H | H]; [now apply Hc | now apply IH].
Qed.

Lemma dropSeparators_head (l : list ascii) :
  match dropSeparators l with
  | [] => True
  | c :: _ => c <> Separator
  end.
Proof.
  induction l as [| c l IH]; cbn [dropSeparators]; [exact I |].
  destruct (Ascii.eqb_spec c Separator) as [-> | Hc]; [exact IH | exact Hc].
Qed.

(** [Base] returns the separator itself or a non-empty element without
    separator. *)
Lemma Base_cases (path : string) :
  Base path = "/" \/ (Base path <> "" /\ noSeparator (Base path)).
Proof.
  unfold Base.
  destruct (String.eqb path "").
  { right. split; [discriminate |]. unfold noSeparator. vm_compute.
    intuition discriminate. }
  pose proof (dropSeparators_head (rev' (list_ascii_of_string path))) as Hhead.
  destruct (dropSeparators (rev' (list_ascii_of_string path)))
    as [| c stripped]; [now left |].
  right. unfold rev'. rewrite <- rev_alt. split.
  - cbn [untilSeparator].
    destruct (Ascii.eqb_spec c Separator) as [-> | _]; [contradiction |].
    cbn [rev]. intros E. apply (f_equal String.length) in E.
    rewrite length_string_of, List.length_app in E. cbn in E. lia.
  - unfold noSeparator. rewrite list_ascii_of_string_of_list_ascii.
    rewrite <- in_rev. apply untilSeparator_noSeparator.
Qed.

Lemma contains_dash_plain (e : string) :
  noSeparator e -> In "-"%char (list_ascii_of_string e) -> plain e.
Proof.
  intros Hsep Hin. repeat split; try assumption; intros ->; cbn in Hin;
    intuition discriminate.
Qed.

Lemma concat_snoc (l : list string) (y : string) :
  l <> [] ->
  String.concat "/" (l ++ [y]) = String.concat "/" l ++ String Separator y.
Proof.
  induction l as [| x l IH]; [easy |]. intros _.
  destruct l as [| x' l']; [reflexivity |].
  cbn [app String.concat] in *. rewrite IH by easy.
  now rewrite !app_assoc_string.
Qed.

Lemma concat_last_app (dir : list string) (r t : string) :
  String.concat "/" (dir ++ [r ++ t]) = String.concat "/" (dir ++ [r]) ++ t.
Proof.
  destruct dir as [| d dir']; [reflexivity |].
  rewrite !concat_snoc by easy. now rewrite !app_assoc_string.
Qed.

(** The elements of the name [SaveFile] builds: a base name that is the
    separator disappears when the path is cleaned. *)
Lemma cleanElements_leaf (rooted : bool) (base tail : string)
      (out : list string) :
  base = "/" \/ (base <> "" /\ noSeparator base) ->
  noSeparator tail ->
  let name := (if String.eqb base "/" then "" else base) ++ String "-" tail in
  plain name /\
  cleanElements rooted (elements (base ++ String "-" tail)) out = name :: out.
Proof.
  intros Hbase Htail name.
  assert (Hdash : noSeparator (String "-" tail)).
  { unfold noSeparator in *. cbn. intros [H | H]; [discriminate H | auto]. }
  assert (Hname : plain name).
  { apply contains_dash_plain.
    - unfold name. destruct Hbase as [-> | [_ Hb]]; [exact Hdash |].
      destruct (String.eqb base "/"); [exact Hdash |].
      apply noSeparator_app. now split.
    - unfold name. rewrite list_of_app, in_app_iff. right. cbn. auto. }
  split; [exact Hname |].
  destruct (plain_tests _ Hname) as (T1 & T2 & T3).
  destruct Hbase as [-> | [Hne Hb]].
  - change (elements ("/" ++ String "-" tail))
      with ("" :: elements (String "-" tail)).
    rewrite (elements_single _ Hdash).
    assert (E : name = String "-" tail) by reflexivity.
    rewrite E. reflexivity.
  - assert (Hnot : String.eqb base "/" = false).
    { apply String.eqb_neq. intros ->. apply Hb. cbn. auto. }
    unfold name in *. rewrite Hnot in *.
    rewrite elements_single by (apply noSeparator_app; now split).
    cbn [cleanElements]. now rewrite T1, T2, T3.
Qed.

Lemma Join_pair_normal (a b : string) :
  Join [a; b] <> "" ->
  exists rooted out,
    normalStack rooted out /\ Join [a; b] = render rooted (rev out).
Proof.
  rewrite Join_pair.
  destruct (String.eqb_spec a "") as [_ | Ha].
  - destruct (String.eqb_spec b "") as [_ | Hb]; [easy |].
    intros _. now apply Clean_normal.
  - intros _. apply Clean_normal. now destruct a.
Qed.

(** [Join] of a cleaned directory and the name [SaveFile] builds. *)
Lemma Join_leaf (rooted : bool) (out : list string) (base tail : string) :
  normalStack rooted out ->
  base = "/" \/ (base <> "" /\ noSeparator base) ->
  noSeparator tail ->
  let name := (if String.eqb base "/" then "" else base) ++ String "-" tail in
  plain name /\
  Join [render rooted (rev out); base ++ String "-" tail] =
    render rooted (rev out ++ [name]) /\
  Clean (Join [render rooted (rev out); base ++ String "-" tail]) =
    Join [render rooted (rev out); base ++ String "-" tail].
Proof.
  intros Hout Hbase Htail name.
  destruct (cleanElements_leaf rooted base tail out Hbase Htail) as [Hname Hloop].
  split; [exact Hname |].
  rewrite Join_pair.
  destruct (render_normal rooted out Hout) as (Hne & _ & _). rewrite Hne.
  split; [| apply Clean_idempotent].
  rewrite (Clean_extend rooted out _ Hout), Hloop. reflexivity.
Qed.

Lemma digit_not_separator (n : nat) : hex.digit n <> Separator.
Proof.
  do 16 (destruct n as [| n]; [vm_compute; discriminate |]).
  vm_compute. discriminate.
Qed.

Lemma EncodeToString_noSeparator (src : string) :
  noSeparator (hex.EncodeToString src).
Proof.
  unfold noSeparator. induction src as [| c src IH]; cbn; [tauto |].
  intros [H | [H | H]]; [| | now apply IH];
    now apply digit_not_separator in H.
Qed.

End FilepathFacts.

(* --------------------------------------------------------------------- *)
(** ** The file service *)
(* --------------------------------------------------------------------- *)

Section FileServiceFacts.

Import db.

Context {W : Type}.
Variable config : FileServiceConfig.
Variable host : Host W.

Lemma validateExtensionIn_In (allowed : list string) (ext : string) :
  validateExtensionIn allowed ext = true <-> In ext allowed.
Proof.
  induction allowed as [| e rest IH]; cbn; [split; [discriminate | tauto] |].
  destruct (String.eqb_spec e ext) as [-> | Hne]; [tauto |].
  rewrite IH. split; [auto | intros [H | H]; [congruence | exact H]].
Qed.

(** The calls of the loop over the access groups: one statement per
    position, until one fails. *)
Lemma insertAccessGroups_run (fileId : string) (accessGroups : list string) :
  forall (group : Z) (w : W) (log : list HostCall),
  exists done w',
    done <= List.length accessGroups /\
    snd (insertAccessGroups host fileId accessGroups group (w, log)) =
      (w', (log ++ map (fun i => CallExec insertAccessGroup
                                   [ArgString fileId; ArgInt (group + Z.of_nat i)])
                       (seq 0 done))%list) /\
    match fst (insertAccessGroups host fileId accessGroups group (w, log)) with
    | None => done = List.length accessGroups
    | Some _ => 0 < done
    end.
Proof.
  induction accessGroups as [| g rest IH]; intros group w log.
  - exists 0, w. cbn. rewrite app_nil_r. auto.
  - cbn [insertAccessGroups]. unfold andThen, hostCall.
    destruct (Exec host insertAccessGroup [ArgString fileId; ArgInt group] w)
      as [[e |] w1].
    + exists 1, w1. cbn. rewrite Z.add_0_r. repeat split; lia.
    + destruct (IH (group + 1)%Z w1
                   (log ++ [CallExec insertAccessGroup
                              [ArgString fileId; ArgInt group]])%list)
        as (done & w' & Hle & Hlog & Hres).
      exists (S done), w'. split; [cbn; lia |]. split.
      * assert (Hm :
          map (fun i => CallExec insertAccessGroup
                          [ArgString fileId; ArgInt (group + 1 + Z.of_nat i)])
              (seq 0 done) =
          map (fun i => CallExec insertAccessGroup
                          [ArgString fileId; ArgInt (group + Z.of_nat i)])
              (seq 1 done)).
        { rewrite <- seq_shift, map_map. apply map_ext. intros i.
          replace (group + Z.of_nat (S i))%Z with (group + 1 + Z.of_nat i)%Z
            by lia.
          reflexivity. }
        rewrite Hlog, Hm, <- app_assoc. cbn [seq map app].
        now rewrite Z.add_0_r.
      * destruct (fst (insertAccessGroups host fileId rest (group + 1)
                         (w1, (log ++ [CallExec insertAccessGroup
                                         [ArgString fileId; ArgInt group]])%list)));
          cbn; lia.
Qed.



Ltac step_SaveFile H :=
  unfold SaveFile, andThen, hostCall, pure in H; cbv beta iota zeta in H.

Lemma SaveFile_success_run (owner : string) (accessGroups : list string)
        (filename fileExtension data : string) (w w' : W)
        (log log' : list HostCall) (fileIndex : dbmodels.FileIndex) :
  SaveFile config host owner accessGroups filename fileExtension data (w, log)
    = ((fileIndex, None), (w', log')) ->
  In (extensionOf host fileExtension) (AllowedFileExtensions config) /\
  dbmodels.Size fileIndex = strings.len data /\
  dbmodels.Owner fileIndex = owner /\
  dbmodels.Checksum fileIndex = hex.EncodeToString (Sum256 host data) /\
  dbmodels.AccessGroups fileIndex = [] /\
  dbmodels.FilePath fileIndex =
    filepath.Clean (pathOf config host owner filename fileExtension (dbmodels.ID fileIndex)) /\
  strings.HasPrefix (dbmodels.FilePath fileIndex) (Root config) = true /\
  log' =
    (log ++ [CallMkdirAll (sandBoxRootOf config owner) DirPermsDefault;
             CallNewUUID;
             CallWriteFile
               (pathOf config host owner filename fileExtension (dbmodels.ID fileIndex))
               data FilePermsDefault;
             CallNow]
         ++ groupInserts (dbmodels.ID fileIndex) (List.length accessGroups)
         ++ [indexInsert fileIndex])%list.
Proof.
  intros H. step_SaveFile H.
  fold (sandBoxRootOf config owner) in H. fold (extensionOf host fileExtension) in H.
  destruct (MkdirAll host (sandBoxRootOf config owner) DirPermsDefault w)
    as [[e |] w1]; [discriminate H |].
  unfold validateFileExtension in H.
  destruct (validateExtensionIn (AllowedFileExtensions config)
                                (extensionOf host fileExtension)) eqn:Hext;
    cbn [negb] in H; [| discriminate H].
  apply validateExtensionIn_In in Hext.
  destruct (NewString host w1) as [fileId w2].
  fold (pathOf config host owner filename fileExtension fileId) in H.
  destruct (strings.HasPrefix
              (filepath.Clean (pathOf config host owner filename fileExtension fileId))
              (Root config)) eqn:Hprefix;
    cbn [negb] in H; [| discriminate H].
  destruct (WriteFile host (pathOf config host owner filename fileExtension fileId) data
                      FilePermsDefault w2) as [[e |] w3]; [discriminate H |].
  destruct (NowUnix host w3) as [now w4].
  match type of H with
  | context [insertAccessGroups host fileId accessGroups 0 (w4, ?l)] =>
      destruct (insertAccessGroups_run fileId accessGroups 0 w4 l)
        as (done & w5 & _ & Hlog & Hres);
      destruct (insertAccessGroups host fileId accessGroups 0 (w4, l))
        as [[e |] [w5' log5]]; [discriminate H |]
  end.
  cbn [fst snd] in Hlog, Hres. injection Hlog as -> ->. subst done.
  match type of H with
  | context [Exec host insertFileIndex ?args w5] =>
      destruct (Exec host insertFileIndex args w5) as [[e |] w6];
        [discriminate H |]
  end.
  injection H as <- <- <-. cbn.
  repeat split; try assumption.
  unfold groupInserts, indexInsert. cbn.
  rewrite <- !app_assoc. reflexivity.
Qed.

Lemma insertAccessGroups_length (fileId : string) (groups1 : list string) :
  forall (groups2 : list string) (group : Z) (st : W * list HostCall),
    List.length groups1 = List.length groups2 ->
    insertAccessGroups host fileId groups1 group st =
    insertAccessGroups host fileId groups2 group st.
Proof.
  induction groups1 as [| g1 rest1 IH]; intros [| g2 rest2] group st Hlen;
    try discriminate Hlen; [reflexivity |].
  cbn [insertAccessGroups]. unfold andThen.
  destruct (hostCall (CallExec insertAccessGroup [ArgString fileId; ArgInt group])
                     (Exec host insertAccessGroup [ArgString fileId; ArgInt group])
                     st) as [[e |] st']; [reflexivity |].
  apply IH. now injection Hlen.
Qed.

(** [SaveFile] uses the number of access groups only: with two lists of
    the same length it does the same and returns the same, for the loop
    binds the position of a group, not its name. *)
Theorem SaveFile_ignores_group_names (owner : string)
        (groups1 groups2 : list string)
        (filename fileExtension data : string) (st : W * list HostCall) :
  List.length groups1 = List.length groups2 ->
  SaveFile config host owner groups1 filename fileExtension data st =
  SaveFile config host owner groups2 filename fileExtension data st.
Proof.
  intros Hlen. destruct st as [w log].
  unfold SaveFile, andThen, hostCall, pure. cbv beta iota zeta.
  destruct (MkdirAll host (filepath.Join [Root config; owner]) DirPermsDefault w)
    as [[e |] w1]; [reflexivity |].
  destruct (validateFileExtension config
              (ToLower host (strings.TrimSpace fileExtension)));
    cbn [negb]; [| reflexivity].
  destruct (NewString host w1) as [fileId w2].
  match goal with
  | |- context [strings.HasPrefix ?p (Root config)] =>
      destruct (strings.HasPrefix p (Root config))
  end; cbn [negb]; [| reflexivity].
  match goal with
  | |- context [WriteFile host ?p data FilePermsDefault w2] =>
      destruct (WriteFile host p data FilePermsDefault w2) as [[e |] w3]
  end; [reflexivity |].
  destruct (NowUnix host w3) as [now w4].
  now rewrite (insertAccessGroups_length fileId groups1 groups2 0 _ Hlen).
Qed.

(** What a failed [SaveFile] has done before it failed. *)
Theorem SaveFile_failure (owner : string) (accessGroups : list string)
        (filename fileExtension data : string) (w w' : W)
        (log log' : list HostCall) (fileIndex : dbmodels.FileIndex)
        (e : serviceError) :
  SaveFile config host owner accessGroups filename fileExtension data (w, log)
    = ((fileIndex, Some e), (w', log')) ->
  fileIndex = dbmodels.zeroFileIndex /\
  exists calls,
    log' = (log ++ CallMkdirAll (sandBoxRootOf config owner) DirPermsDefault
                :: calls)%list /\
    match e with
    | ErrCreateDirectory _ => calls = []
    | ErrExtensionNotAllowed ext =>
        ext = extensionOf host fileExtension /\
        ~ In ext (AllowedFileExtensions config) /\ calls = []
    | ErrPathEscapesRoot path =>
        strings.HasPrefix path (Root config) = false /\ calls = [CallNewUUID]
    | ErrWriteFile _ =>
        exists fileId,
          calls = [CallNewUUID;
                   CallWriteFile (pathOf config host owner filename fileExtension fileId)
                                 data FilePermsDefault]
    | ErrInsertAccessGroup _ =>
        exists fileId done,
          0 < done <= List.length accessGroups /\
          calls = ([CallNewUUID;
                    CallWriteFile (pathOf config host owner filename fileExtension fileId)
                                  data FilePermsDefault;
                    CallNow] ++ groupInserts fileId done)%list
    | ErrInsertFileIndex _ =>
        exists fileId row,
          calls = ([CallNewUUID;
                    CallWriteFile (pathOf config host owner filename fileExtension fileId)
                                  data FilePermsDefault;
                    CallNow]
                     ++ groupInserts fileId (List.length accessGroups)
                     ++ [indexInsert row])%list
    | _ => False
    end.
Proof.
  intros H. step_SaveFile H.
  fold (sandBoxRootOf config owner) in H.
  fold (extensionOf host fileExtension) in H.
  destruct (MkdirAll host (sandBoxRootOf config owner) DirPermsDefault w)
    as [[e0 |] w1].
  { injection H as <- <- <- <-. split; [reflexivity |]. now exists []. }
  unfold validateFileExtension in H.
  destruct (validateExtensionIn (AllowedFileExtensions config)
                                (extensionOf host fileExtension)) eqn:Hext;
    cbn [negb] in H.
  2:{ injection H as <- <- <- <-. split; [reflexivity |]. exists [].
      repeat split. intros Hin. apply validateExtensionIn_In in Hin. congruence. }
  destruct (NewString host w1) as [fileId w2].
  fold (pathOf config host owner filename fileExtension fileId) in H.
  destruct (strings.HasPrefix
              (filepath.Clean (pathOf config host owner filename fileExtension fileId))
              (Root config)) eqn:Hprefix;
    cbn [negb] in H.
  2:{ injection H as <- <- <- <-. split; [reflexivity |]. exists [CallNewUUID].
      rewrite <- app_assoc. auto. }
  destruct (WriteFile host (pathOf config host owner filename fileExtension fileId)
                      data FilePermsDefault w2) as [[e0 |] w3].
  { injection H as <- <- <- <-. split; [reflexivity |]. eexists. split.
    - rewrite <- !app_assoc. reflexivity.
    - now exists fileId. }
  destruct (NowUnix host w3) as [now w4].
  match type of H with
  | context [insertAccessGroups host fileId accessGroups 0 (w4, ?l)] =>
      destruct (insertAccessGroups_run fileId accessGroups 0 w4 l)
        as (done & w5 & Hle & Hlog & Hres);
      destruct (insertAccessGroups host fileId accessGroups 0 (w4, l))
        as [[e0 |] [w5' log5]]
  end; cbn [fst snd] in Hlog, Hres; injection Hlog as -> ->.
  { injection H as <- <- <- <-. split; [reflexivity |]. eexists. split.
    - rewrite <- !app_assoc. reflexivity.
    - exists fileId, done. split; [lia | reflexivity]. }
  subst done.
  match type of H with
  | context [Exec host insertFileIndex ?args w5] =>
      destruct (Exec host insertFileIndex args w5) as [[e0 |] w6];
        [| discriminate H]
  end.
  injection H as <- <- <- <-. split; [reflexivity |]. eexists. split.
  - rewrite <- !app_assoc. reflexivity.
  - exists fileId.
    exists {| dbmodels.ID := fileId;
              dbmodels.Size := strings.len data;
              dbmodels.Owner := owner;
              dbmodels.FilePath :=
                filepath.Clean
                  (pathOf config host owner filename fileExtension fileId);
              dbmodels.Checksum := hex.EncodeToString (Sum256 host data);
              dbmodels.CreatedAt := now;
              dbmodels.AccessGroups := [] |}.
    reflexivity.
Qed.

(** [GetFile] makes one query and at most one read, of a path that
    begins with the root, and returns the zero [File] with every error. *)
Theorem GetFile_reads_only (ctx : option ctxError) (owner fileId : string)
        (w : W) (log : list HostCall) :
  let '((file, err), (_, log')) := GetFile config host ctx owner fileId (w, log) in
  exists reads,
    log' = (log ++ CallQueryRow ctx selectFileIndex
                     [ArgString fileId; ArgString owner] :: reads)%list /\
    (reads = [] \/
     exists path, reads = [CallReadFile path] /\
                  strings.HasPrefix path (Root config) = true) /\
    (err <> None -> file = dbmodels.zeroFile).
Proof.
  unfold GetFile, andThen, hostCall, pure. cbv beta iota zeta.
  destruct (QueryRowScan host ctx selectFileIndex
                         [ArgString fileId; ArgString owner] w)
    as [[metadata [[| msg] |]] w1].
  - exists []. auto.
  - exists []. auto.
  - destruct (strings.HasPrefix (dbmodels.FilePath metadata) (Root config))
      eqn:Hprefix; cbn [negb].
    + destruct (ReadFile host (dbmodels.FilePath metadata) w1)
        as [[data [e |]] w2].
      * eexists. rewrite <- app_assoc. split; [reflexivity |].
        split; [right; eexists; split; [reflexivity | exact Hprefix] | auto].
      * destruct (negb (String.eqb (dbmodels.Checksum metadata)
                                   (hex.EncodeToString (Sum256 host data)))
                  || negb (dbmodels.Size metadata =? strings.len data)%Z);
          eexists; rewrite <- app_assoc; (split; [reflexivity |]);
          (split; [right; eexists; split; [reflexivity | exact Hprefix] |]);
          [auto | intros H; now contradiction H].
    + exists []. auto.
Qed.

(** Why [GetFile] failed: no row; a failed query; a row whose path
    does not start with the root, and then nothing was read; a failed
    read; or data whose digest or length is not the row's.  Data that
    does not match its row is never returned. *)
Theorem GetFile_failure (ctx : option ctxError) (owner fileId : string)
        (w w' : W) (log log' : list HostCall) (file : dbmodels.File)
        (e : serviceError) :
  GetFile config host ctx owner fileId (w, log) = ((file, Some e), (w', log')) ->
  file = dbmodels.zeroFile /\
  exists metadata queryErr w1,
    QueryRowScan host ctx selectFileIndex [ArgString fileId; ArgString owner] w
      = ((metadata, queryErr), w1) /\
    match e with
    | ErrFileNotFound =>
        queryErr = Some ErrNoRows /\ w' = w1 /\
        log' = (log ++ [CallQueryRow ctx selectFileIndex
                          [ArgString fileId; ArgString owner]])%list
    | ErrQueryFileIndex cause =>
        queryErr = Some cause /\ cause <> ErrNoRows /\ w' = w1 /\
        log' = (log ++ [CallQueryRow ctx selectFileIndex
                          [ArgString fileId; ArgString owner]])%list
    | ErrPathEscapesRoot path =>
        queryErr = None /\ path = dbmodels.FilePath metadata /\
        strings.HasPrefix path (Root config) = false /\ w' = w1 /\
        log' = (log ++ [CallQueryRow ctx selectFileIndex
                          [ArgString fileId; ArgString owner]])%list
    | ErrReadFile cause =>
        queryErr = None /\
        strings.HasPrefix (dbmodels.FilePath metadata) (Root config) = true /\
        (exists data,
            ReadFile host (dbmodels.FilePath metadata) w1
              = ((data, Some cause), w')) /\
        log' = (log ++ [CallQueryRow ctx selectFileIndex
                          [ArgString fileId; ArgString owner];
                        CallReadFile (dbmodels.FilePath metadata)])%list
    | ErrChecksumOrSize =>
        queryErr = None /\
        strings.HasPrefix (dbmodels.FilePath metadata) (Root config) = true /\
        (exists data,
            ReadFile host (dbmodels.FilePath metadata) w1 = ((data, None), w') /\
            (dbmodels.Checksum metadata
               <> hex.EncodeToString (Sum256 host data) \/
             dbmodels.Size metadata <> strings.len data)) /\
        log' = (log ++ [CallQueryRow ctx selectFileIndex
                          [ArgString fileId; ArgString owner];
                        CallReadFile (dbmodels.FilePath metadata)])%list
    | _ => False
    end.
Proof.
  unfold GetFile, andThen, hostCall, pure. cbv beta iota zeta.
  destruct (QueryRowScan host ctx selectFileIndex
                         [ArgString fileId; ArgString owner] w)
    as [[metadata [[| msg] |]] w1] eqn:Hquery.
  - intros [= <- <- <- <-]. split; [reflexivity |].
    exists metadata, (Some ErrNoRows), w1. now repeat split.
  - intros [= <- <- <- <-]. split; [reflexivity |].
    exists metadata, (Some (HostError msg)), w1. now repeat split.
  - destruct (strings.HasPrefix (dbmodels.FilePath metadata) (Root config))
      eqn:Hprefix; cbn [negb].
    + destruct (ReadFile host (dbmodels.FilePath metadata) w1)
        as [[data [cause |]] w2] eqn:Hread.
      * intros [= <- <- <- <-]. split; [reflexivity |].
        exists metadata, None, w1. split; [reflexivity |].
        rewrite <- app_assoc. repeat split; try assumption. now exists data.
      * destruct (String.eqb_spec (dbmodels.Checksum metadata)
                                  (hex.EncodeToString (Sum256 host data)))
          as [Hsum | Hsum]; cbn [negb orb].
        -- destruct (Z.eqb_spec (dbmodels.Size metadata) (strings.len data))
             as [Hsize | Hsize]; cbn [negb]; [discriminate |].
           intros [= <- <- <- <-]. split; [reflexivity |].
           exists metadata, None, w1. split; [reflexivity |].
           rewrite <- app_assoc. repeat split; try assumption.
           exists data. split; [exact Hread | now right].
        -- intros [= <- <- <- <-]. split; [reflexivity |].
           exists metadata, None, w1. split; [reflexivity |].
           rewrite <- app_assoc. repeat split; try assumption.
           exists data. split; [exact Hread | now left].
    + intros [= <- <- <- <-]. split; [reflexivity |].
      exists metadata, None, w1. now repeat split.
Qed.

(** What [GetFile] returns without error agrees with the index row. *)
Theorem GetFile_integrity (ctx : option ctxError) (owner fileId : string)
        (w w' : W) (log log' : list HostCall) (file : dbmodels.File) :
  GetFile config host ctx owner fileId (w, log) = ((file, None), (w', log')) ->
  exists w1,
    QueryRowScan host ctx selectFileIndex [ArgString fileId; ArgString owner] w
      = ((dbmodels.Metadata file, None), w1) /\
    ReadFile host (dbmodels.FilePath (dbmodels.Metadata file)) w1
      = ((dbmodels.Data file, None), w') /\
    strings.HasPrefix (dbmodels.FilePath (dbmodels.Metadata file)) (Root config)
      = true /\
    dbmodels.Checksum (dbmodels.Metadata file) =
      hex.EncodeToString (Sum256 host (dbmodels.Data file)) /\
    dbmodels.Size (dbmodels.Metadata file) = strings.len (dbmodels.Data file).
Proof.
  unfold GetFile, andThen, hostCall, pure. cbv beta iota zeta.
  destruct (QueryRowScan host ctx selectFileIndex
                         [ArgString fileId; ArgString owner] w)
    as [[metadata [[| msg] |]] w1] eqn:Hquery; try discriminate.
  destruct (strings.HasPrefix (dbmodels.FilePath metadata) (Root config))
    eqn:Hprefix; cbn [negb]; [| discriminate].
  destruct (ReadFile host (dbmodels.FilePath metadata) w1)
    as [[data [e |]] w2] eqn:Hread; [discriminate |].
  destruct (String.eqb_spec (dbmodels.Checksum metadata)
                            (hex.EncodeToString (Sum256 host data)))
    as [Hsum | _]; cbn [negb orb]; [| discriminate].
  destruct (Z.eqb_spec (dbmodels.Size metadata) (strings.len data))
    as [Hsize | _]; cbn [negb]; [| discriminate].
  intros [= <- <- <-]. exists w1.
  cbn [dbmodels.Metadata dbmodels.Data]. auto.
Qed.

Import filepath.

Lemma storedName_leaf (filename fileId ext : string) (rooted : bool)
      (out : list string) :
  noSeparator fileId -> noSeparator ext ->
  plain (storedName filename fileId ext) /\
  cleanElements rooted
    (elements (Base filename ++ "-" ++ fileId ++ "." ++ ext)) out
  = storedName filename fileId ext :: out.
Proof.
  intros Hid Hext.
  apply (cleanElements_leaf rooted (Base filename) (fileId ++ "." ++ ext) out).
  - apply Base_cases.
  - apply noSeparator_app. split; [exact Hid |].
    unfold noSeparator in *. cbn. intros [H | H]; [discriminate H | auto].
Qed.

Lemma sandBoxRoot_normal (owner : string) :
  sandBoxRootOf config owner <> "" ->
  exists rooted out,
    normalStack rooted out /\
    sandBoxRootOf config owner = render rooted (rev out).
Proof.
  unfold sandBoxRootOf. rewrite Join_pair.
  destruct (String.eqb_spec (Root config) "") as [_ | Hroot].
  - destruct (String.eqb_spec owner "") as [_ | Howner]; [easy |].
    intros _. now apply Clean_normal.
  - intros _. apply Clean_normal. now destruct (Root config).
Qed.

Lemma pathOf_extend (owner filename fileExtension fileId : string)
      (rooted : bool) (out : list string) :
  normalStack rooted out ->
  sandBoxRootOf config owner = render rooted (rev out) ->
  noSeparator fileId -> noSeparator (extensionOf host fileExtension) ->
  pathOf config host owner filename fileExtension fileId =
  render rooted
    (rev out ++ [storedName filename fileId (extensionOf host fileExtension)]).
Proof.
  intros Hout Hsb Hid Hext. unfold pathOf. rewrite Join_pair, Hsb.
  destruct (render_normal rooted out Hout) as (Hne & _ & _). rewrite Hne.
  rewrite (Clean_extend rooted out _ Hout).
  destruct (storedName_leaf filename fileId (extensionOf host fileExtension)
                            rooted out Hid Hext) as [_ ->].
  reflexivity.
Qed.

Lemma pathOf_clean (owner filename fileExtension fileId : string) :
  Clean (pathOf config host owner filename fileExtension fileId) =
  pathOf config host owner filename fileExtension fileId.
Proof.
  unfold pathOf. rewrite Join_pair.
  destruct (String.eqb (sandBoxRootOf config owner) "").
  - assert (E : String.eqb (Base filename ++ "-" ++ fileId ++ "."
                              ++ extensionOf host fileExtension) "" = false)
      by (destruct (Base filename); reflexivity).
    rewrite E. apply Clean_idempotent.
  - apply Clean_idempotent.
Qed.

(** A successful [SaveFile]: the extension is an allowed one, the record
    describes the data, the path it records is the very path the file was
    written to and starts with the root, and the host was asked, in this
    order, to make the owner's directory, to draw an identifier, to write
    the file, for the time, and to insert one row per access group and the
    index row. *)
Theorem SaveFile_success (owner : string) (accessGroups : list string)
        (filename fileExtension data : string) (w w' : W)
        (log log' : list HostCall) (fileIndex : dbmodels.FileIndex) :
  SaveFile config host owner accessGroups filename fileExtension data (w, log)
    = ((fileIndex, None), (w', log')) ->
  In (extensionOf host fileExtension) (AllowedFileExtensions config) /\
  dbmodels.Size fileIndex = strings.len data /\
  dbmodels.Owner fileIndex = owner /\
  dbmodels.Checksum fileIndex = hex.EncodeToString (Sum256 host data) /\
  dbmodels.AccessGroups fileIndex = [] /\
  dbmodels.FilePath fileIndex =
    pathOf config host owner filename fileExtension (dbmodels.ID fileIndex) /\
  strings.HasPrefix (dbmodels.FilePath fileIndex) (Root config) = true /\
  log' =
    (log ++ [CallMkdirAll (sandBoxRootOf config owner) DirPermsDefault;
             CallNewUUID;
             CallWriteFile (dbmodels.FilePath fileIndex) data FilePermsDefault;
             CallNow]
         ++ groupInserts (dbmodels.ID fileIndex) (List.length accessGroups)
         ++ [indexInsert fileIndex])%list.
Proof.
  intros H.
  destruct (SaveFile_success_run _ _ _ _ _ _ _ _ _ _ H)
    as (H1 & H2 & H3 & H4 & H5 & H6 & H7 & H8).
  rewrite pathOf_clean in H6.
  repeat (split; [assumption |]).
  now rewrite H6.
Qed.

(** What [SaveFile] stored, [GetFile] returns: when the index gives back
    the row that was inserted and the file system the bytes that were
    written, at the path they were written to, [GetFile] passes its
    checks and returns the row and the bytes. *)
Theorem SaveFile_then_GetFile (owner : string) (accessGroups : list string)
        (filename fileExtension data : string) (w w' : W)
        (log log' : list HostCall) (fileIndex : dbmodels.FileIndex)
        (ctx : option ctxError) (w1 w2 w3 : W) (log1 : list HostCall) :
  SaveFile config host owner accessGroups filename fileExtension data (w, log)
    = ((fileIndex, None), (w', log')) ->
  QueryRowScan host ctx selectFileIndex
               [ArgString (dbmodels.ID fileIndex); ArgString owner] w1
    = ((fileIndex, None), w2) ->
  ReadFile host
           (pathOf config host owner filename fileExtension
                   (dbmodels.ID fileIndex)) w2
    = ((data, None), w3) ->
  GetFile config host ctx owner (dbmodels.ID fileIndex) (w1, log1) =
  (({| dbmodels.Metadata := fileIndex; dbmodels.Data := data |}, None),
   (w3, (log1 ++ [CallQueryRow ctx selectFileIndex
                    [ArgString (dbmodels.ID fileIndex); ArgString owner];
                  CallReadFile (dbmodels.FilePath fileIndex)])%list)).
Proof.
  intros Hsave Hquery Hread.
  destruct (SaveFile_success_run _ _ _ _ _ _ _ _ _ _ Hsave)
    as (_ & Hsize & _ & Hsum & _ & Hpath & Hprefix & _).
  rewrite pathOf_clean in Hpath. rewrite <- Hpath in Hread.
  unfold GetFile, andThen, hostCall, pure. cbv beta iota zeta.
  rewrite Hquery. cbv beta iota zeta. rewrite Hprefix. cbn [negb].
  rewrite Hread. cbv beta iota zeta.
  rewrite Hsum, String.eqb_refl, Hsize, Z.eqb_refl. cbn [negb orb].
  now rewrite <- app_assoc.
Qed.

(** The file of a save is a direct child of the owner's directory: the
    cleaned directory followed by one name, made of the base of the file
    name, the identifier and the extension. *)
Theorem SaveFile_path_in_owner_directory
        (owner filename fileExtension fileId : string) :
  sandBoxRootOf config owner <> "" ->
  noSeparator fileId ->
  noSeparator (extensionOf host fileExtension) ->
  exists rooted dir,
    sandBoxRootOf config owner = render rooted dir /\
    pathOf config host owner filename fileExtension fileId =
      render rooted
        (dir ++ [storedName filename fileId (extensionOf host fileExtension)]) /\
    plain (storedName filename fileId (extensionOf host fileExtension)).
Proof.
  intros Hsb Hid Hext.
  destruct (sandBoxRoot_normal owner Hsb) as (rooted & out & Hout & Eq).
  exists rooted, (rev out). split; [exact Eq |]. split.
  - now apply pathOf_extend.
  - exact (proj1 (storedName_leaf filename fileId _ rooted out Hid Hext)).
Qed.

Lemma cleanElements_dotdot_pop (rooted : bool) (top : string)
      (rest out : list string) :
  top <> ".." ->
  cleanElements rooted (".." :: rest) (top :: out) =
  cleanElements rooted rest out.
Proof.
  intros Htop. cbn [cleanElements].
  rewrite (proj2 (String.eqb_neq top "..") Htop). reflexivity.
Qed.

(** The root check compares text: for a root that is a clean absolute
    path ending in the name [r], the owner [../r t] gets the directory
    named [r t] beside the root, the file is written into it, and the
    check accepts the path. *)
Theorem SaveFile_root_check_is_textual (dir : list string) (r t : string)
        (filename fileExtension fileId : string) :
  Forall plain dir -> plain r -> plain (r ++ t) ->
  Root config = render true (dir ++ [r]) ->
  noSeparator fileId ->
  noSeparator (extensionOf host fileExtension) ->
  sandBoxRootOf config ("../" ++ r ++ t) = Root config ++ t /\
  pathOf config host ("../" ++ r ++ t) filename fileExtension fileId =
    Root config ++ t ++ "/"
      ++ storedName filename fileId (extensionOf host fileExtension) /\
  strings.HasPrefix
    (Clean (pathOf config host ("../" ++ r ++ t) filename fileExtension fileId))
    (Root config) = true.
Proof.
  intros Hdir Hr Hrt HRoot Hid Hext.
  assert (Hout : normalStack true (r :: rev dir)).
  { cbn. constructor; [exact Hr | now apply Forall_rev]. }
  assert (Hout' : normalStack true ((r ++ t) :: rev dir)).
  { cbn. constructor; [exact Hrt | now apply Forall_rev]. }
  assert (Hrev : rev (r :: rev dir) = (dir ++ [r])%list).
  { cbn [rev]. now rewrite rev_involutive. }
  assert (Hrev' : rev ((r ++ t) :: rev dir) = (dir ++ [(r ++ t)%string])%list).
  { cbn [rev]. now rewrite rev_involutive. }
  assert (Hshift : render true (dir ++ [r ++ t]) = Root config ++ t).
  { rewrite HRoot. unfold render. now rewrite concat_last_app. }
  assert (Hsb : sandBoxRootOf config ("../" ++ r ++ t) =
                render true (rev ((r ++ t) :: rev dir))).
  { unfold sandBoxRootOf. rewrite Join_pair.
    assert (E : String.eqb (Root config) "" = false)
      by (rewrite HRoot; reflexivity).
    rewrite E, HRoot, <- Hrev, (Clean_extend true _ _ Hout).
    change ("../" ++ r ++ t) with (".." ++ String Separator (r ++ t)).
    rewrite (elements_cons _ _ noSeparator_dotdot).
    rewrite cleanElements_dotdot_pop by (destruct Hr as (_ & _ & H & _); exact H).
    pose proof Hrt as Hrt'.
    destruct Hrt as (_ & _ & _ & Hsep). rewrite (elements_single _ Hsep).
    rewrite (cleanElements_plain true [r ++ t]); [reflexivity |].
    constructor; [exact Hrt' | constructor]. }
  assert (Hpath : pathOf config host ("../" ++ r ++ t) filename fileExtension
                         fileId =
                  Root config ++ t ++ "/"
                    ++ storedName filename fileId
                                  (extensionOf host fileExtension)).
  { rewrite (pathOf_extend _ _ _ _ true _ Hout' Hsb Hid Hext), Hrev'.
    unfold render. rewrite concat_snoc by now destruct dir.
    rewrite concat_last_app, HRoot. unfold render.
    now rewrite !app_assoc_string. }
  split; [now rewrite Hsb, Hrev' |]. split; [exact Hpath |].
  rewrite pathOf_clean, Hpath. apply prefix_app.
Qed.

End FileServiceFacts.

(* --------------------------------------------------------------------- *)
(** ** The extension as it is compared *)
(* --------------------------------------------------------------------- *)

Section ExtensionFacts.

Import strings db.

Lemma lowerByte_ascii (c : ascii) :
  (nat_of_ascii c <? 128)%nat = true ->
  asciiSpace (lowerByte c) = asciiSpace c /\
  (nat_of_ascii (lowerByte c) <? 128)%nat = true /\
  lowerByte (lowerByte c) = lowerByte c /\
  (forall b2, space2 c b2 = false) /\
  (forall b2 b3, space3 c b2 b3 = false).
Proof.
  intros H.
  destruct c as [[] [] [] [] [] [] [] []];
    try (vm_compute in H; discriminate H);
    repeat split; intros; reflexivity.
Qed.

Lemma isASCII_app (a b : string) :
  isASCII (a ++ b) = isASCII a && isASCII b.
Proof.
  induction a as [| c a IH]; [reflexivity |].
  cbn [append isASCII]. now rewrite IH, andb_assoc.
Qed.

Lemma isASCII_lowerBytes (s : string) :
  isASCII s = true -> isASCII (lowerBytes s) = true.
Proof.
  induction s as [| c s IH]; [reflexivity |].
  cbn [isASCII lowerBytes]. intros H. apply andb_true_iff in H as [Hc Hs].
  destruct (lowerByte_ascii c Hc) as (_ & -> & _). now apply IH.
Qed.

Lemma lowerBytes_idempotent (s : string) :
  isASCII s = true -> lowerBytes (lowerBytes s) = lowerBytes s.
Proof.
  induction s as [| c s IH]; [reflexivity |].
  cbn [isASCII lowerBytes]. intros H. apply andb_true_iff in H as [Hc Hs].
  destruct (lowerByte_ascii c Hc) as (_ & _ & -> & _). now rewrite IH.
Qed.

Lemma TrimLeftSpace_lowerBytes (s : string) :
  isASCII s = true ->
  TrimLeftSpace (lowerBytes s) = lowerBytes (TrimLeftSpace s).
Proof.
  induction s as [| b1 r1 IH]; [reflexivity |].
  cbn [isASCII]. intros H. apply andb_true_iff in H as [H1 Hr1].
  destruct (lowerByte_ascii b1 H1) as (Hsp & Hl1 & _ & Hs2 & Hs3).
  destruct (lowerByte_ascii _ Hl1) as (_ & _ & _ & Hs2' & Hs3').
  cbn [lowerBytes TrimLeftSpace]. rewrite Hsp.
  destruct (asciiSpace b1); [now apply IH |].
  destruct r1 as [| b2 r2]; [reflexivity |].
  cbn [lowerBytes]. rewrite Hs2, Hs2'.
  destruct r2 as [| b3 r3]; [reflexivity |].
  cbn [lowerBytes]. now rewrite Hs3, Hs3'.
Qed.

Lemma trimRevSpace_lowerByte (l : list ascii) :
  forallb (fun c => (nat_of_ascii c <? 128)%nat) l = true ->
  trimRevSpace (map lowerByte l) = map lowerByte (trimRevSpace l).
Proof.
  induction l as [| b1 r1 IH]; [reflexivity |].
  cbn [forallb]. intros H. apply andb_true_iff in H as [H1 Hr1].
  destruct (lowerByte_ascii b1 H1) as (Hsp & _).
  cbn [map trimRevSpace]. rewrite Hsp.
  destruct (asciiSpace b1); [now apply IH |].
  destruct r1 as [| b2 r2]; [reflexivity |].
  cbn [forallb] in Hr1. apply andb_true_iff in Hr1 as [H2 Hr2].
  destruct (lowerByte_ascii b2 H2) as (_ & Hl2 & _ & Hs2 & _).
  destruct (lowerByte_ascii _ Hl2) as (_ & _ & _ & Hs2' & _).
  cbn [map]. rewrite Hs2, Hs2'.
  destruct r2 as [| b3 r3]; [reflexivity |].
  cbn [forallb] in Hr2. apply andb_true_iff in Hr2 as [H3 Hr3].
  destruct (lowerByte_ascii b3 H3) as (_ & Hl3 & _ & _ & Hs3).
  destruct (lowerByte_ascii _ Hl3) as (_ & _ & _ & _ & Hs3').
  cbn [map]. now rewrite Hs3, Hs3'.
Qed.

Lemma isASCII_forallb (s : string) :
  isASCII s = forallb (fun c => (nat_of_ascii c <? 128)%nat)
                      (list_ascii_of_string s).
Proof. induction s as [| c s IH]; cbn; [reflexivity | now rewrite IH]. Qed.

Lemma list_of_lowerBytes (s : string) :
  list_ascii_of_string (lowerBytes s) = map lowerByte (list_ascii_of_string s).
Proof. induction s as [| c s IH]; cbn; [reflexivity | now rewrite IH]. Qed.

Lemma string_of_lowerByte (l : list ascii) :
  string_of_list_ascii (map lowerByte l) = lowerBytes (string_of_list_ascii l).
Proof. induction l as [| c l IH]; cbn; [reflexivity | now rewrite IH]. Qed.

Lemma forallb_rev {A : Type} (f : A -> bool) (l : list A) :
  forallb f (rev l) = forallb f l.
Proof.
  induction l as [| x l IH]; [reflexivity |].
  cbn [rev forallb]. rewrite forallb_app, IH. cbn. 
  rewrite andb_true_r. apply andb_comm.
Qed.

Lemma TrimRightSpace_lowerBytes (s : string) :
  isASCII s = true ->
  TrimRightSpace (lowerBytes s) = lowerBytes (TrimRightSpace s).
Proof.
  intros H. rewrite !TrimRightSpace_rev, list_of_lowerBytes, <- map_rev.
  rewrite trimRevSpace_lowerByte
    by (rewrite forallb_rev, <- isASCII_forallb; exact H).
  now rewrite <- map_rev, string_of_lowerByte.
Qed.

Lemma isASCII_TrimLeftSpace (s : string) :
  isASCII s = true -> isASCII (TrimLeftSpace s) = true.
Proof.
  intros H. destruct (TrimLeftSpace_suffix s) as [pre Hpre].
  rewrite Hpre, isASCII_app in H. now apply andb_true_iff in H.
Qed.

Lemma isASCII_TrimSpace (s : string) :
  isASCII s = true -> isASCII (TrimSpace s) = true.
Proof.
  intros H. destruct (TrimSpace_substring s) as (pre & post & Hs).
  rewrite Hs, !isASCII_app in H.
  apply andb_true_iff in H as [_ H]. now apply andb_true_iff in H.
Qed.

Lemma TrimSpace_lowerBytes (s : string) :
  isASCII s = true -> TrimSpace (lowerBytes s) = lowerBytes (TrimSpace s).
Proof.
  intros H. unfold TrimSpace.
  rewrite (TrimLeftSpace_lowerBytes s H).
  apply TrimRightSpace_lowerBytes. now apply isASCII_TrimLeftSpace.
Qed.

Context {W : Type}.
Variable config : FileServiceConfig.
Variable host : Host W.

Lemma extensionOf_ascii (fileExtension : string) :
  isASCII fileExtension = true ->
  extensionOf host fileExtension = lowerBytes (TrimSpace fileExtension) /\
  isASCII (extensionOf host fileExtension) = true.
Proof.
  intros H. unfold extensionOf, ToLower.
  rewrite (isASCII_TrimSpace _ H). split; [reflexivity |].
  apply isASCII_lowerBytes. now apply isASCII_TrimSpace.
Qed.

Lemma extensionOf_idempotent (fileExtension : string) :
  isASCII fileExtension = true ->
  extensionOf host (extensionOf host fileExtension) =
  extensionOf host fileExtension.
Proof.
  intros H. destruct (extensionOf_ascii _ H) as [E Hascii].
  destruct (extensionOf_ascii _ Hascii) as [E' _].
  rewrite E', E.
  rewrite (TrimSpace_lowerBytes _ (isASCII_TrimSpace _ H)).
  rewrite TrimSpace_idempotent.
  apply lowerBytes_idempotent. now apply isASCII_TrimSpace.
Qed.

(** [SaveFile] compares and stores the extension without the white space
    around it and in lower case: for an extension of ASCII bytes, the
    save with the extension as the caller wrote it does what the save
    with the normal form does; the normal form has no white space around
    it and is its own lower case, so an allowed extension that is not in
    this form matches no ASCII extension. *)
Theorem SaveFile_extension_normal_form (owner : string)
        (accessGroups : list string) (filename fileExtension data : string)
        (st : W * list HostCall) :
  isASCII fileExtension = true ->
  SaveFile config host owner accessGroups filename fileExtension data st =
  SaveFile config host owner accessGroups filename
           (extensionOf host fileExtension) data st /\
  TrimSpace (extensionOf host fileExtension) = extensionOf host fileExtension /\
  lowerBytes (extensionOf host fileExtension) = extensionOf host fileExtension.
Proof.
  intros H. split; [| split].
  - pose proof (extensionOf_idempotent _ H) as Hidem.
    unfold SaveFile. fold (extensionOf host fileExtension).
    fold (extensionOf host (extensionOf host fileExtension)).
    now rewrite Hidem.
  - destruct (extensionOf_ascii _ H) as [E _]. rewrite E.
    rewrite (TrimSpace_lowerBytes _ (isASCII_TrimSpace _ H)).
    now rewrite TrimSpace_idempotent.
  - destruct (extensionOf_ascii _ H) as [E _]. rewrite E.
    apply lowerBytes_idempotent. now apply isASCII_TrimSpace.
Qed.

End ExtensionFacts.

Lemma SaveFile_extension_normal_form_witness :
  db.SaveFile memory.config memory.host "alice" ["staff"; "family"]
              "photos/cat.png" " PNG " "meow" (memory.empty, []) =
  db.SaveFile memory.config memory.host "alice" ["staff"; "family"]
              "photos/cat.png" (db.extensionOf memory.host " PNG ") "meow"
              (memory.empty, []).
Proof.
  exact (proj1 (SaveFile_extension_normal_form memory.config memory.host
                  "alice" ["staff"; "family"] "photos/cat.png" " PNG " "meow"
                  (memory.empty, []) eq_refl)).
Defined.

(* ===================================================================== *)
(** * Earlier revisions *)
(* ===================================================================== *)

Section EarlierRevisions.

Context {W : Type}.
Variable client : adb.Adb W.



Lemma second_deviceOf_run (info : adb.DeviceInfo) (w : W) (log : list Call) :
  exists d w',
    second.deviceOf client info (w, log)
      = (d, (w', (log ++ [stateQuery info; manufacturerRead info])%list)) /\
    models.Serial d = adb.Serial info /\
    models.Model d = adb.Model info /\
    definedState (models.State d) /\
    (models.IsAuthorized d = true <->
     models.State d = models.DeviceStateOnline).
Proof.
  unfold second.deviceOf, second.GetDeviceManufacturer, bind, perform, ret.
  cbv beta iota zeta.
  destruct (adb.State client (adb.DeviceWithSerial (adb.Serial info)) w)
    as [[state stateErr] w1].
  destruct (adb.RunCommand client (adb.DeviceWithSerial (adb.Serial info))
                           "getprop" ["ro.product.manufacturer"] w1)
    as [[manufacturer [e |]] w2].
  - eexists _, w2. unfold stateQuery, manufacturerRead.
    rewrite <- app_assoc. split; [reflexivity |]. cbn.
    repeat split; try apply convertState_defined; apply String.eqb_eq.
  - eexists _, w2. unfold stateQuery, manufacturerRead.
    rewrite <- app_assoc. split; [reflexivity |]. cbn.
    repeat split; try apply convertState_defined; apply String.eqb_eq.
Qed.

Lemma second_devicesLoop_run (infos : list adb.DeviceInfo) :
  forall (acc : list models.Device) (w : W) (log : list Call),
  exists ds w',
    second.devicesLoop client infos acc (w, log)
      = ((acc ++ ds)%list,
         (w', (log ++ flat_map (fun info => [stateQuery info;
                                             manufacturerRead info])
                               infos)%list)) /\
    map models.Serial ds = map adb.Serial infos /\
    map models.Model ds = map adb.Model infos /\
    Forall (fun d => definedState (models.State d) /\
                     (models.IsAuthorized d = true <->
                      models.State d = models.DeviceStateOnline)) ds.
Proof.
  induction infos as [| info rest IH]; intros acc w log.
  - exists [], w. cbn. rewrite !app_nil_r. now repeat split.
  - cbn [second.devicesLoop]. unfold bind at 1.
    destruct (second_deviceOf_run info w log)
      as (d & w1 & -> & Hs & Hm & Hd & Ha).
    destruct (IH (acc ++ [d])%list w1
                 (log ++ [stateQuery info; manufacturerRead info])%list)
      as (ds & w' & -> & Hss & Hms & Hall).
    exists (d :: ds), w'. cbn [flat_map map].
    rewrite <- !app_assoc. cbn [app].
    split; [reflexivity |]. rewrite Hs, Hm, Hss, Hms.
    repeat split. constructor; [now split | exact Hall].
Qed.

(** The second revision of [Devices] fails only with the error of the
    device list, and then returns no device and makes no other call;
    otherwise it returns one record for each entry, in order, with the
    entry's serial and model, a converted state and the matching
    authorization, and it makes the state query and the manufacturer
    read of every entry, also of one whose state query failed. *)
Theorem second_Devices_reads_every_manufacturer (ctx : option ctxError)
        (w : W) (log : list Call) :
  exists ds w' calls infos listErr w1,
    second.Devices client ctx (w, log)
      = ((ds, listErr), (w', (log ++ CallListDevices :: calls)%list)) /\
    adb.ListDevices client w = ((infos, listErr), w1) /\
    match listErr with
    | Some _ => ds = [] /\ calls = [] /\ w' = w1
    | None =>
        calls = flat_map (fun info => [stateQuery info; manufacturerRead info])
                         infos /\
        map models.Serial ds = map adb.Serial infos /\
        map models.Model ds = map adb.Model infos /\
        Forall (fun d => definedState (models.State d) /\
                         (models.IsAuthorized d = true <->
                          models.State d = models.DeviceStateOnline)) ds
    end.
Proof.
  unfold second.Devices, bind at 1, perform, ret. cbv beta iota zeta.
  destruct (adb.ListDevices client w) as [[infos [e |]] w1] eqn:Hlist.
  - exists [], w1, [], infos, (Some e), w1. now repeat split.
  - unfold bind.
    destruct (second_devicesLoop_run infos [] w1 (log ++ [CallListDevices])%list)
      as (ds & w' & -> & Hs & Hm & Hall).
    exists ds, w',
      (flat_map (fun info => [stateQuery info; manufacturerRead info]) infos),
      infos, None, w1. cbn [app].
    rewrite <- app_assoc. split; [reflexivity |]. now repeat split.
Qed.

Lemma deviceOf_second (info : adb.DeviceInfo) (st : W * list Call) :
  snd (fst (adb.State client (adb.DeviceWithSerial (adb.Serial info))
                      (fst st))) = None ->
  deviceOf client info st =
  (orUnknown (fst (second.deviceOf client info st)),
   snd (second.deviceOf client info st)).
Proof.
  destruct st as [w log]. cbn [fst].
  unfold deviceOf, second.deviceOf, getDeviceManufacturer,
    second.GetDeviceManufacturer, getDevice, bind, perform, ret.
  cbv beta iota zeta.
  destruct (adb.State client (adb.DeviceWithSerial (adb.Serial info)) w)
    as [[state stateErr] w1]. cbn [fst snd]. intros ->.
  destruct (adb.RunCommand client (adb.DeviceWithSerial (adb.Serial info))
                           "getprop" ["ro.product.manufacturer"] w1)
    as [[manufacturer [e |]] w2]; reflexivity.
Qed.

Lemma second_deviceOf_world (info : adb.DeviceInfo) (w : W)
      (log : list Call) :
  fst (snd (second.deviceOf client info (w, log))) =
  snd (adb.RunCommand client (adb.DeviceWithSerial (adb.Serial info))
         "getprop" ["ro.product.manufacturer"]
         (snd (adb.State client (adb.DeviceWithSerial (adb.Serial info)) w))).
Proof.
  unfold second.deviceOf, second.GetDeviceManufacturer, bind, perform, ret.
  cbv beta iota zeta.
  destruct (adb.State client (adb.DeviceWithSerial (adb.Serial info)) w)
    as [[state stateErr] w1]. cbn [snd].
  destruct (adb.RunCommand client (adb.DeviceWithSerial (adb.Serial info))
                           "getprop" ["ro.product.manufacturer"] w1)
    as [[manufacturer [e |]] w2]; reflexivity.
Qed.

Lemma devicesLoop_second (infos : list adb.DeviceInfo) :
  forall (acc : list models.Device) (w : W) (log : list Call),
    statesAnswer client infos w = true ->
    devicesLoop client infos (map orUnknown acc) (w, log) =
    (map orUnknown (fst (second.devicesLoop client infos acc (w, log))),
     snd (second.devicesLoop client infos acc (w, log))).
Proof.
  induction infos as [| info rest IH]; intros acc w log Hok; [reflexivity |].
  cbn [devicesLoop second.devicesLoop]. unfold bind.
  cbn [statesAnswer] in Hok.
  pose proof (second_deviceOf_world info w log) as Hworld.
  assert (Hstate :
    snd (fst (adb.State client (adb.DeviceWithSerial (adb.Serial info)) w))
    = None).
  { destruct (adb.State client (adb.DeviceWithSerial (adb.Serial info)) w)
      as [[state [e |]] w1]; [discriminate Hok | reflexivity]. }
  rewrite (deviceOf_second info (w, log) Hstate).
  destruct (adb.State client (adb.DeviceWithSerial (adb.Serial info)) w)
    as [[state stateErr] w1]. cbn [fst snd] in *. subst stateErr.
  destruct (adb.RunCommand client (adb.DeviceWithSerial (adb.Serial info))
                           "getprop" ["ro.product.manufacturer"] w1)
    as [answer w2]. cbn [snd] in Hworld.
  destruct (second.deviceOf client info (w, log)) as [d [w' log']].
  cbn [fst snd] in *. subst w'.
  specialize (IH (acc ++ [d])%list w2 log' Hok).
  rewrite map_app in IH. exact IH.
Qed.

(** In a run in which no state query fails, the current [devices] does
    what the second revision of [Devices] did: the same transport calls,
    the same error, and the same records, but for an empty manufacturer,
    which is now reported as [Unknown]. *)
Theorem devices_refines_second_revision (ctx : option ctxError)
        (w : W) (log : list Call) :
  (snd (fst (adb.ListDevices client w)) = None ->
   statesAnswer client (fst (fst (adb.ListDevices client w)))
                (snd (adb.ListDevices client w)) = true) ->
  devices client (w, log) =
  ((map orUnknown (fst (fst (second.Devices client ctx (w, log)))),
    snd (fst (second.Devices client ctx (w, log)))),
   snd (second.Devices client ctx (w, log))).
Proof.
  unfold devices, second.Devices, bind, perform, ret.
  cbv beta iota zeta.
  destruct (adb.ListDevices client w) as [[infos [e |]] w1];
    cbn [fst snd]; intros Hok; [reflexivity |].
  pose proof (devicesLoop_second infos [] w1 (log ++ [CallListDevices])%list
                                 (Hok eq_refl)) as H.
  cbn [map] in H. rewrite H.
  now destruct (second.devicesLoop client infos []
                  (w1, (log ++ [CallListDevices])%list)).
Qed.


End EarlierRevisions.

Lemma second_watcherStep_iff (deviceSerial : string) (s s' : watcher)
      (o : observation) :
  second.watcherStep deviceSerial s o = Some s' <->
  watcherStep deviceSerial s o = Some s' /\ o <> ObsDone.
Proof.
  unfold second.watcherStep, watcherStep.
  destruct (pc s), o; split; try (intros [H Ho]); try intros H;
    try discriminate; try (now contradiction Ho);
    try (split; [exact H | discriminate]); try exact H.
Qed.

Lemma second_watcherRun_iff (deviceSerial : string)
      (trace : list observation) :
  forall s s',
    second.watcherRun deviceSerial s trace = Some s' <->
    watcherRun deviceSerial s trace = Some s' /\ ~ In ObsDone trace.
Proof.
  induction trace as [| o rest IH]; intros s s'.
  - cbn. tauto.
  - cbn [second.watcherRun watcherRun In]. split.
    + destruct (second.watcherStep deviceSerial s o) as [s1 |] eqn:E;
        [| discriminate].
      apply second_watcherStep_iff in E as [E Ho]. rewrite E.
      intros H. apply IH in H as [H Hrest]. split; [exact H |].
      intros [Heq | Hin]; [now apply Ho | now apply Hrest].
    + intros [H Hno].
      destruct (watcherStep deviceSerial s o) as [s1 |] eqn:E; [| discriminate].
      assert (E2 : second.watcherStep deviceSerial s o = Some s1).
      { apply second_watcherStep_iff. split; [exact E |].
        intros ->. apply Hno. now left. }
      rewrite E2. apply IH. split; [exact H |]. intros Hin. apply Hno. now right.
Qed.

(** The watcher of the second revision is the current one without
    cancellation: its runs are the runs of the current watcher in which
    the context is never done.  So it has closed the stream only after the
    upstream channel was closed, and while it offers a change it can do
    nothing but deliver it: a consumer that stops receiving leaves it
    blocked with the stream open. *)
Theorem second_watcher_without_cancellation (ctx : option ctxError)
        (deviceSerial : string) (trace : list observation) (s : watcher) :
  (second.TrackDeviceStates ctx deviceSerial trace = Some s <->
   TrackDeviceStates deviceSerial trace = Some s /\ ~ In ObsDone trace) /\
  (second.TrackDeviceStates ctx deviceSerial trace = Some s ->
   (pc s = Done ->
    closes s = 1 /\
    exists before, trace = (before ++ [ObsUpstreamClosed])%list) /\
   (pc s <> Done -> closes s = 0) /\
   (forall stateChange o,
       pc s = AtDelivery stateChange -> o <> ObsDelivered ->
       second.watcherStep deviceSerial s o = None) /\
   emitted s =
     firstn (List.length (emitted s))
            (changesOf deviceSerial (matching deviceSerial trace))).
Proof.
  split; [apply second_watcherRun_iff |].
  intros H. apply second_watcherRun_iff in H as [H Hno].
  pose proof (TrackDeviceStates_accounted deviceSerial trace s H)
    as (pending & Hchanges & Hpc).
  split; [| split; [| split]].
  - intros Hdone. rewrite Hdone in Hpc. split; [tauto |].
    destruct Hpc as (_ & before & last & -> & Hlast).
    exists before.
    assert (Hl : last <> ObsDone).
    { intros ->. apply Hno. rewrite in_app_iff. right. now left. }
    destruct Hlast as [[_ [-> | ->]] | (sc & _ & ->)];
      [now contradiction Hl | reflexivity | now contradiction Hl].
  - intros Hnot. destruct (pc s); [tauto | tauto | now contradiction Hnot].
  - intros stateChange o Hat Ho. unfold second.watcherStep. rewrite Hat.
    destruct o; try reflexivity. now contradiction Ho.
  - rewrite Hchanges. rewrite firstn_app, Nat.sub_diag, firstn_all.
    cbn. now rewrite app_nil_r.
Qed.

Section FirstFileService.

Import db filepath.

Context {W : Type}.
Variable root : string.
Variable host : Host W.

(** The first revision of [SaveFile] writes, if it writes, the data it
    was given, with mode 0600, to a path that starts with the root and is
    a direct child of the owner's directory: the cleaned directory
    followed by the single name made of the base of the file name and
    the identifier.  Nothing is assumed of the identifier: it is a
    string of hexadecimal digits, the digest of the base name, the owner
    and the time. *)
Theorem first_SaveFile_writes_in_owner_directory
        (owner : string) (accessGroups : list string)
        (filename data : string) (w w' : W) (log' : list HostCall)
        (result : dbmodels.FileIndex * option serviceError)
        (path written : string) (perm : Z) :
  dbfirst.SaveFile root host owner accessGroups filename data (w, [])
    = (result, (w', log')) ->
  In (CallWriteFile path written perm) log' ->
  Join [root; owner] <> "" ->
  written = data /\ perm = FilePermsDefault /\
  strings.HasPrefix path root = true /\
  exists now rooted dir,
    Join [root; owner] = render rooted dir /\
    path =
      render rooted
        (dir ++ [(if String.eqb (Base filename) "/" then ""
                  else Base filename)
                 ++ "-" ++ dbfirst.fileIdOf host owner filename now]) /\
    plain ((if String.eqb (Base filename) "/" then "" else Base filename)
           ++ "-" ++ dbfirst.fileIdOf host owner filename now).
Proof.
  intros Hrun Hin Hsb.
  unfold dbfirst.SaveFile, andThen, hostCall, pure in Hrun.
  cbv beta iota zeta in Hrun.
  destruct (MkdirAll host (Join [root; owner]) DirPermsDefault w)
    as [[e |] w1].
  { injection Hrun as _ _ <-. cbn in Hin. intuition discriminate. }
  destruct (NowString host w1) as [now w2].
  fold (dbfirst.fileIdOf host owner filename now) in Hrun.
  destruct (Join_pair_normal root owner Hsb) as (rooted & out & Hout & Hdir).
  destruct (Join_leaf rooted out (Base filename)
                      (dbfirst.fileIdOf host owner filename now) Hout
                      (Base_cases filename)
                      (EncodeToString_noSeparator _))
    as (Hname & Hjoin & Hclean).
  rewrite <- Hdir in Hjoin, Hclean.
  change (Base filename ++ String "-" (dbfirst.fileIdOf host owner filename now))
    with (Base filename ++ "-" ++ dbfirst.fileIdOf host owner filename now)
    in Hjoin, Hclean.
  rewrite Hclean in Hrun.
  destruct (strings.HasPrefix
              (Join [Join [root; owner];
                     Base filename ++ "-"
                       ++ dbfirst.fileIdOf host owner filename now]) root)
    eqn:Hprefix; cbn [negb] in Hrun.
  2: { injection Hrun as _ _ <-. cbn in Hin. intuition discriminate. }
  assert (Hgoal :
    CallWriteFile path written perm =
    CallWriteFile (Join [Join [root; owner];
                         Base filename ++ "-"
                           ++ dbfirst.fileIdOf host owner filename now])
                  data FilePermsDefault).
  { destruct (WriteFile host _ data FilePermsDefault w2) as [[e |] w3].
    - injection Hrun as _ _ <-. cbn in Hin.
      destruct Hin as [H | [H | [H | []]]]; try discriminate H.
      now symmetry.
    - destruct (NowUnix host w3) as [createdAt w4].
      match type of Hrun with
      | context [Exec host dbfirst.insertFileIndex ?args w4] =>
          destruct (Exec host dbfirst.insertFileIndex args w4) as [[e |] w5]
      end;
        injection Hrun as _ _ <-; cbn in Hin;
        destruct Hin as [H | [H | [H | [H | [H | []]]]]];
        try discriminate H; now symmetry. }
  injection Hgoal as -> -> ->.
  split; [reflexivity |]. split; [reflexivity |]. split; [exact Hprefix |].
  exists now, rooted, (rev out). split; [exact Hdir |].
  split; [exact Hjoin | exact Hname].
Qed.

End FirstFileService.

(* --------------------------------------------------------------------- *)
(** ** The file service on the host kept in memory *)
(* --------------------------------------------------------------------- *)

Lemma SaveFile_success_witness :
  dbmodels.FilePath (fst (fst memory.saved)) =
    db.pathOf memory.config memory.host "alice" "photos/cat.png" " PNG "
              (dbmodels.ID (fst (fst memory.saved))) /\
  strings.HasPrefix (dbmodels.FilePath (fst (fst memory.saved)))
                    (db.Root memory.config) = true.
Proof.
  destruct (SaveFile_success memory.config memory.host "alice"
              ["staff"; "family"] "photos/cat.png" " PNG " "meow"
              memory.empty (fst (snd memory.saved)) []
              (snd (snd memory.saved)) (fst (fst memory.saved)) eq_refl)
    as (_ & _ & _ & _ & _ & Hpath & Hprefix & _).
  exact (conj Hpath Hprefix).
Defined.

Lemma SaveFile_ignores_group_names_witness :
  db.SaveFile memory.config memory.host "alice" ["staff"; "family"]
              "photos/cat.png" " PNG " "meow" (memory.empty, []) =
  db.SaveFile memory.config memory.host "alice" ["admins"; "guests"]
              "photos/cat.png" " PNG " "meow" (memory.empty, []).
Proof.
  apply (SaveFile_ignores_group_names memory.config memory.host "alice"
           ["staff"; "family"] ["admins"; "guests"]).
  reflexivity.
Defined.

Lemma SaveFile_failure_witness :
  fst (fst memory.refused) = dbmodels.zeroFileIndex.
Proof.
  exact (proj1 (SaveFile_failure memory.config memory.host "alice" ["staff"]
                  "setup.exe" "exe" "MZ" memory.empty
                  (fst (snd memory.refused)) [] (snd (snd memory.refused))
                  (fst (fst memory.refused))
                  (db.ErrExtensionNotAllowed "exe") eq_refl)).
Defined.

Lemma GetFile_integrity_witness :
  exists w1,
    db.QueryRowScan memory.host None db.selectFileIndex
      [db.ArgString "0000-0"; db.ArgString "alice"] (fst (snd memory.saved))
      = ((dbmodels.Metadata (fst (fst memory.retrieved)), None), w1) /\
    db.ReadFile memory.host
      (dbmodels.FilePath (dbmodels.Metadata (fst (fst memory.retrieved)))) w1
      = ((dbmodels.Data (fst (fst memory.retrieved)), None),
         fst (snd memory.retrieved)) /\
    strings.HasPrefix
      (dbmodels.FilePath (dbmodels.Metadata (fst (fst memory.retrieved))))
      (db.Root memory.config) = true /\
    dbmodels.Checksum (dbmodels.Metadata (fst (fst memory.retrieved))) =
      hex.EncodeToString
        (db.Sum256 memory.host (dbmodels.Data (fst (fst memory.retrieved)))) /\
    dbmodels.Size (dbmodels.Metadata (fst (fst memory.retrieved))) =
      strings.len (dbmodels.Data (fst (fst memory.retrieved))).
Proof.
  exact (GetFile_integrity memory.config memory.host None "alice" "0000-0"
           (fst (snd memory.saved)) (fst (snd memory.retrieved))
           (snd (snd memory.saved)) (snd (snd memory.retrieved))
           (fst (fst memory.retrieved)) eq_refl).
Defined.

Lemma SaveFile_then_GetFile_witness :
  db.GetFile memory.config memory.host None "alice"
             (dbmodels.ID (fst (fst memory.saved))) (snd memory.saved) =
  (({| dbmodels.Metadata := fst (fst memory.saved);
       dbmodels.Data := "meow" |}, None),
   (fst (snd memory.saved),
    (snd (snd memory.saved)
       ++ [db.CallQueryRow None db.selectFileIndex
             [db.ArgString (dbmodels.ID (fst (fst memory.saved)));
              db.ArgString "alice"];
           db.CallReadFile (dbmodels.FilePath (fst (fst memory.saved)))])%list)).
Proof.
  exact (SaveFile_then_GetFile memory.config memory.host "alice"
           ["staff"; "family"] "photos/cat.png" " PNG " "meow"
           memory.empty (fst (snd memory.saved)) []
           (snd (snd memory.saved)) (fst (fst memory.saved)) None
           (fst (snd memory.saved)) (fst (snd memory.saved))
           (fst (snd memory.saved)) (snd (snd memory.saved))
           eq_refl eq_refl eq_refl).
Defined.

Lemma SaveFile_path_in_owner_directory_witness :
  exists rooted dir,
    db.sandBoxRootOf memory.config "alice" = filepath.render rooted dir /\
    db.pathOf memory.config memory.host "alice" "photos/cat.png" " PNG "
              "0000-0" =
      filepath.render rooted
        (dir ++ [db.storedName "photos/cat.png" "0000-0"
                               (db.extensionOf memory.host " PNG ")]) /\
    filepath.plain (db.storedName "photos/cat.png" "0000-0"
                                  (db.extensionOf memory.host " PNG ")).
Proof.
  apply (SaveFile_path_in_owner_directory memory.config memory.host "alice"
           "photos/cat.png" " PNG " "0000-0").
  - vm_compute. discriminate.
  - vm_compute. intuition discriminate.
  - vm_compute. intuition discriminate.
Defined.

Lemma SaveFile_root_check_is_textual_witness :
  db.sandBoxRootOf memory.config ("../" ++ "files" ++ "2") =
    db.Root memory.config ++ "2" /\
  db.pathOf memory.config memory.host ("../" ++ "files" ++ "2")
            "photos/cat.png" " PNG " "0000-0" =
    db.Root memory.config ++ "2" ++ "/"
      ++ db.storedName "photos/cat.png" "0000-0"
                       (db.extensionOf memory.host " PNG ") /\
  strings.HasPrefix
    (filepath.Clean
       (db.pathOf memory.config memory.host ("../" ++ "files" ++ "2")
                  "photos/cat.png" " PNG " "0000-0"))
    (db.Root memory.config) = true.
Proof.
  apply (SaveFile_root_check_is_textual memory.config memory.host ["srv"]
           "files" "2" "photos/cat.png" " PNG " "0000-0").
  - repeat constructor; try discriminate; vm_compute; intuition discriminate.
  - repeat split; try discriminate; vm_compute; intuition discriminate.
  - repeat split; try discriminate; vm_compute; intuition discriminate.
  - reflexivity.
  - vm_compute. intuition discriminate.
  - vm_compute. intuition discriminate.
Defined.

Lemma GetFile_failure_witness :
  fst (fst (db.GetFile memory.config memory.host None "alice" "0000-7"
                       (memory.empty, []))) = dbmodels.zeroFile.
Proof.
  exact (proj1 (GetFile_failure memory.config memory.host None "alice"
                  "0000-7" memory.empty memory.empty [] _ _
                  db.ErrFileNotFound eq_refl)).
Defined.

Lemma devices_refines_second_revision_witness :
  devices (examples.fleet ["not-listed"]) (0, []) =
  ((map orUnknown
        (fst (fst (second.Devices (examples.fleet ["not-listed"]) None
                                  (0, [])))),
    snd (fst (second.Devices (examples.fleet ["not-listed"]) None (0, [])))),
   snd (second.Devices (examples.fleet ["not-listed"]) None (0, []))).
Proof.
  apply (devices_refines_second_revision (examples.fleet ["not-listed"])
           None 0 []).
  intros _. reflexivity.
Defined.

Lemma first_SaveFile_writes_in_owner_directory_witness :
  strings.HasPrefix memory.writtenFirst "/srv/files" = true.
Proof.
  exact (proj1 (proj2 (proj2
    (first_SaveFile_writes_in_owner_directory "/srv/files" memory.host
       "alice" ["staff"] "photos/cat.png" "meow" memory.empty
       (fst (snd memory.savedFirst)) (snd (snd memory.savedFirst))
       (fst memory.savedFirst) memory.writtenFirst "meow"
       db.FilePermsDefault eq_refl
       (or_intror (or_intror (or_introl eq_refl)))
       ltac:(vm_compute; discriminate))))).
Defined.
